(** * daily_stock_analysis: market-data federation, task ledger and
      notification chunking, embedded from the Python sources.

    Conventions of the embedding.
    - A Python [int] is a [Z]; a [float] cell of a data frame is a finite
      binary64 value, which is a rational number ([Q]), or NaN ([None]).
      The arithmetic pandas and numpy do on such cells is library code
      outside the sources and is a parameter of the embedding.
    - Text that is only compared, concatenated or cut at ASCII characters
      (tickers, source names, log and error messages) is a [string] of
      octets; Chinese literals are the UTF-8 octets of the source text.
      Classification lemmas that depend on [str.strip], [str.upper] or
      [str.lower] are stated for ASCII text, where those octet-wise
      definitions coincide with Python's.
    - Text whose UTF-8 size matters (notification bodies) is a list of
      Unicode code points, encoded explicitly.
    - A call that may raise returns an [outcome]; calls into upstream
      services thread an abstract world. *)

From Stdlib Require Import ZArith Lia List Bool Ascii String DecimalString QArith Qround.
From Stdlib Require Import Sorted Permutation.
From stdpp Require Import base list gmap strings.

Local Open Scope Z_scope.

(** ** Python slices *)

Module PySlice.

(** [seq[:stop]]: a negative [stop] counts from the end, and both ends
    clamp. *)
Definition slice_to {A} (stop : Z) (l : list A) : list A :=
  if stop <? 0 then take (Z.to_nat (Z.of_nat (length l) + stop)) l
  else take (Z.to_nat stop) l.

End PySlice.

(** ** UTF-8, as [str.encode('utf-8')] and [bytes.decode('utf-8')] *)

Module Utf8.

(** A [str] is a sequence of code points, a [bytes] a sequence of octets. *)
Abbreviation pystr := (list Z).
Abbreviation pybytes := (list Z).

(** Code points that have an encoding: everything up to U+10FFFF except
    the surrogate block, on which [encode] raises UnicodeEncodeError. *)
Definition is_scalar (c : Z) : bool :=
  ((0 <=? c) && (c <? 0xD800)) || ((0xE000 <=? c) && (c <=? 0x10FFFF)).

Definition encode_cp (c : Z) : pybytes :=
  if c <? 0x80 then [c]
  else if c <? 0x800 then [0xC0 + c / 64; 0x80 + c mod 64]
  else if c <? 0x10000 then
    [0xE0 + c / 4096; 0x80 + (c / 64) mod 64; 0x80 + c mod 64]
  else
    [0xF0 + c / 262144; 0x80 + (c / 4096) mod 64;
     0x80 + (c / 64) mod 64; 0x80 + c mod 64].

(** [text.encode('utf-8')]; [None] stands for UnicodeEncodeError. *)
Fixpoint encode (s : pystr) : option pybytes :=
  match s with
  | [] => Some []
  | c :: r =>
      if is_scalar c then
        match encode r with
        | Some bs => Some (encode_cp c ++ bs)
        | None => None
        end
      else None
  end.

Definition is_cont (b : Z) : bool := (0x80 <=? b) && (b <=? 0xBF).

(** [data.decode('utf-8')] with the default strict error handler; [None]
    stands for UnicodeDecodeError (truncated sequence, stray continuation
    octet, overlong form, surrogate, value above U+10FFFF). *)
Fixpoint decode (bs : pybytes) : option pystr :=
  match bs with
  | [] => Some []
  | b0 :: r =>
      if (0 <=? b0) && (b0 <? 0x80) then
        match decode r with Some s => Some (b0 :: s) | None => None end
      else if (0xC2 <=? b0) && (b0 <=? 0xDF) then
        match r with
        | b1 :: r1 =>
            if is_cont b1 then
              match decode r1 with
              | Some s => Some ((b0 - 0xC0) * 64 + (b1 - 0x80) :: s)
              | None => None
              end
            else None
        | _ => None
        end
      else if (0xE0 <=? b0) && (b0 <=? 0xEF) then
        match r with
        | b1 :: b2 :: r2 =>
            let c := (b0 - 0xE0) * 4096 + (b1 - 0x80) * 64 + (b2 - 0x80) in
            if is_cont b1 && is_cont b2 && (0x800 <=? c) && is_scalar c then
              match decode r2 with
              | Some s => Some (c :: s)
              | None => None
              end
            else None
        | _ => None
        end
      else if (0xF0 <=? b0) && (b0 <=? 0xF4) then
        match r with
        | b1 :: b2 :: b3 :: r3 =>
            let c := (b0 - 0xF0) * 262144 + (b1 - 0x80) * 4096
                     + (b2 - 0x80) * 64 + (b3 - 0x80) in
            if is_cont b1 && is_cont b2 && is_cont b3
               && (0x10000 <=? c) && (c <=? 0x10FFFF) then
              match decode r3 with
              | Some s => Some (c :: s)
              | None => None
              end
            else None
        | _ => None
        end
      else None
  end.

(** [len(s.encode('utf-8'))] for text that encodes; the chunkers only
    ever measure text they were able to encode. *)
Definition byte_len (s : pystr) : Z :=
  match encode s with
  | Some bs => Z.of_nat (length bs)
  | None => 0
  end.

End Utf8.

(** ** NotificationService._truncate_to_bytes *)

Module Truncate.
Import Utf8.

(** The loop [while truncated: try decode / except: truncated =
    truncated[:-1]], with [truncated = encoded[:n]] throughout; it leaves
    by [return ""] when [truncated] is empty. *)
Fixpoint walk_back (encoded : pybytes) (n : nat) : pystr :=
  match n with
  | O => []
  | S k =>
      match decode (take (S k) encoded) with
      | Some s => s
      | None => walk_back encoded k
      end
  end.

(** [_truncate_to_bytes(text, max_bytes)]; [None] is the
    UnicodeEncodeError of [text.encode]. *)
Definition _truncate_to_bytes (text : pystr) (max_bytes : Z) : option pystr :=
  match encode text with
  | None => None
  | Some encoded =>
      if Z.of_nat (length encoded) <=? max_bytes then Some text
      else
        let truncated := PySlice.slice_to max_bytes encoded in
        Some (walk_back encoded (length truncated))
  end.

End Truncate.

(** ** Octet strings: the [str] methods the sources use on ASCII text *)

Module PyStr.

Definition chars (s : string) : list ascii := list_ascii_of_string s.
Definition of_chars (l : list ascii) : string := string_of_list_ascii l.

Definition ord (c : ascii) : nat := nat_of_ascii c.

(** Text made of ASCII characters only. *)
Definition ascii_only (s : string) : bool :=
  forallb (fun c => Nat.ltb (ord c) 128) (chars s).

(** [c.isspace()] on ASCII: TAB, LF, VT, FF, CR, the four separators
    0x1c..0x1f and the space. *)
Definition is_space (c : ascii) : bool :=
  (Nat.leb 9 (ord c) && Nat.leb (ord c) 13)
  || (Nat.leb 28 (ord c) && Nat.leb (ord c) 32).

Definition upper_char (c : ascii) : ascii :=
  if Nat.leb 97 (ord c) && Nat.leb (ord c) 122
  then ascii_of_nat (ord c - 32) else c.

Definition lower_char (c : ascii) : ascii :=
  if Nat.leb 65 (ord c) && Nat.leb (ord c) 90
  then ascii_of_nat (ord c + 32) else c.

Definition upper (s : string) : string := of_chars (map upper_char (chars s)).
Definition lower (s : string) : string := of_chars (map lower_char (chars s)).

Fixpoint lstrip_chars (l : list ascii) : list ascii :=
  match l with
  | c :: r => if is_space c then lstrip_chars r else l
  | [] => []
  end.

Definition strip_chars (l : list ascii) : list ascii :=
  rev (lstrip_chars (rev (lstrip_chars l))).

(** [s.strip()] *)
Definition strip (s : string) : string := of_chars (strip_chars (chars s)).

(** [s.split(sep)] for a one-character separator; [cur] is the piece
    being read, kept reversed. *)
Fixpoint split_chars (sep : ascii) (l : list ascii) (cur : list ascii)
  : list (list ascii) :=
  match l with
  | [] => [rev cur]
  | c :: r =>
      if Ascii.eqb c sep then rev cur :: split_chars sep r []
      else split_chars sep r (c :: cur)
  end.

Definition split (sep : ascii) (s : string) : list string :=
  map of_chars (split_chars sep (chars s) []).

(** [sep.join(parts)] *)
Fixpoint join (sep : string) (parts : list string) : string :=
  match parts with
  | [] => EmptyString
  | [p] => p
  | p :: rest => String.append p (String.append sep (join sep rest))
  end.

(** [s.startswith(p)] *)
Definition startswith (p s : string) : bool := String.prefix p s.

Definition nl : string := String (ascii_of_nat 10) EmptyString.

End PyStr.

(** ** The fragment of [re] used by the ticker patterns *)

Module Regex.

Inductive regex :=
| Never
| Eps
| Chr (lo hi : nat)
| Cat (r1 r2 : regex)
| Alt (r1 r2 : regex).

(** [r?] *)
Definition Opt (r : regex) : regex := Alt Eps r.

(** [r{k}] *)
Fixpoint Times (k : nat) (r : regex) : regex :=
  match k with
  | O => Eps
  | S k' => Cat r (Times k' r)
  end.

(** [r{0,k}] *)
Fixpoint UpTo (k : nat) (r : regex) : regex :=
  match k with
  | O => Eps
  | S k' => Opt (Cat r (UpTo k' r))
  end.

(** [r{m,n}] *)
Definition Between (m n : nat) (r : regex) : regex :=
  Cat (Times m r) (UpTo (n - m) r).

Definition in_range (lo hi : nat) (c : ascii) : Prop :=
  (lo <= PyStr.ord c)%nat /\ (PyStr.ord c <= hi)%nat.

(** The words a pattern denotes. *)
Inductive lang : regex -> list ascii -> Prop :=
| lang_eps : lang Eps []
| lang_chr lo hi c :
    (lo <= PyStr.ord c)%nat -> (PyStr.ord c <= hi)%nat -> lang (Chr lo hi) [c]
| lang_cat r1 r2 u v : lang r1 u -> lang r2 v -> lang (Cat r1 r2) (u ++ v)
| lang_alt_l r1 r2 u : lang r1 u -> lang (Alt r1 r2) u
| lang_alt_r r1 r2 u : lang r2 u -> lang (Alt r1 r2) u.

Fixpoint nullable (r : regex) : bool :=
  match r with
  | Never => false
  | Eps => true
  | Chr _ _ => false
  | Cat r1 r2 => nullable r1 && nullable r2
  | Alt r1 r2 => nullable r1 || nullable r2
  end.

Fixpoint deriv (c : ascii) (r : regex) : regex :=
  match r with
  | Never => Never
  | Eps => Never
  | Chr lo hi =>
      if Nat.leb lo (PyStr.ord c) && Nat.leb (PyStr.ord c) hi then Eps else Never
  | Cat r1 r2 =>
      if nullable r1 then Alt (Cat (deriv c r1) r2) (deriv c r2)
      else Cat (deriv c r1) r2
  | Alt r1 r2 => Alt (deriv c r1) (deriv c r2)
  end.

(** The whole word is in the pattern. *)
Fixpoint fullmatch (r : regex) (w : list ascii) : bool :=
  match w with
  | [] => nullable r
  | c :: w' => fullmatch (deriv c r) w'
  end.

(** [bool(re.match('^' + r + '$', s))]: without MULTILINE, [$] matches at
    the end of the text and also just before a final line feed. *)
Definition match_anchored (r : regex) (s : string) : bool :=
  let w := PyStr.chars s in
  fullmatch r w
  || match rev w with
     | c :: before => Nat.eqb (PyStr.ord c) 10 && fullmatch r (rev before)
     | [] => false
     end.

End Regex.

(** ** Ticker classification (data_provider/akshare_fetcher.py) *)

Module Classifier.
Import Regex.

Definition upper_letter : regex := Chr 65 90.
Definition dot : regex := Chr 46 46.

(** The pattern of [_is_us_code]: [^[A-Z]{1,5}(\.[A-Z])?$]. *)
Definition us_pattern : regex :=
  Cat (Between 1 5 upper_letter) (Opt (Cat dot upper_letter)).

Definition _is_us_code (stock_code : string) : bool :=
  let code := PyStr.upper (PyStr.strip stock_code) in
  match_anchored us_pattern code.

Definition etf_prefixes : list string :=
  ["51"; "52"; "56"; "58"; "15"; "16"; "18"]%string.

(** [len] counts characters and [String.length] octets: they agree on
    ASCII text. *)
Definition _is_etf_code (stock_code : string) : bool :=
  existsb (fun p => PyStr.startswith p stock_code) etf_prefixes
  && Nat.eqb (String.length stock_code) 6.

(** A capital letter of the ASCII alphabet. *)
Definition capital (c : ascii) : Prop := in_range 65 90 c.

(** One to five capital letters, then nothing or a dot and one capital
    letter. *)
Definition us_shape (w : list ascii) : Prop :=
  exists letters suffix,
    w = (letters ++ suffix)%list
    /\ (1 <= length letters <= 5)%nat
    /\ Forall capital letters
    /\ (suffix = [] \/ exists c, suffix = ["."%char; c] /\ capital c).

(** The pattern the specification gives for US tickers:
    [^[A-Z]{1,5}(\.[A-Z]{1,2})?$]. *)
Definition us_pattern_spec : regex :=
  Cat (Between 1 5 upper_letter) (Opt (Cat dot (Between 1 2 upper_letter))).

End Classifier.

(** ** Code-point text: the [str] operations of the chunkers *)

Module PyText.
Import Utf8.

(** An ASCII literal as code points. *)
Definition lit (s : string) : pystr :=
  map (fun c => Z.of_nat (nat_of_ascii c)) (list_ascii_of_string s).

Fixpoint is_prefix (p s : pystr) : bool :=
  match p, s with
  | [], _ => true
  | x :: p', y :: s' => (x =? y) && is_prefix p' s'
  | _ :: _, [] => false
  end.

(** [sub in s] *)
Fixpoint contains (sub s : pystr) : bool :=
  is_prefix sub s
  || match s with
     | [] => false
     | _ :: r => contains sub r
     end.

(** [s.split(sep)] for a non-empty [sep], scanning left to right; [skip]
    counts the characters of a separator occurrence still to pass over,
    [cur] is the piece being read, kept reversed. *)
Fixpoint split_scan (sep s : pystr) (skip : nat) (cur : pystr) : list pystr :=
  match s with
  | [] => [rev cur]
  | c :: r =>
      match skip with
      | S k => split_scan sep r k cur
      | O =>
          if is_prefix sep s
          then rev cur :: split_scan sep r (length sep - 1) []
          else split_scan sep r 0 (c :: cur)
      end
  end.

Definition split (sep s : pystr) : list pystr := split_scan sep s 0 [].

(** [sep.join(parts)] *)
Fixpoint join (sep : pystr) (parts : list pystr) : pystr :=
  match parts with
  | [] => []
  | [p] => p
  | p :: rest => p ++ sep ++ join sep rest
  end.

(** [str(n)] for a non-negative integer. *)
Definition str_of_nat (n : nat) : pystr :=
  lit (DecimalString.NilZero.string_of_uint (Nat.to_uint n)).

(** [len(s.encode('utf-8'))]; [None] is UnicodeEncodeError. *)
Definition get_bytes (s : pystr) : option Z :=
  match encode s with
  | Some bs => Some (Z.of_nat (length bs))
  | None => None
  end.

End PyText.

(** ** NotificationService: the chunked senders (src/notification.py)

    A sender is embedded as the list of payloads it hands, in order, to
    the channel's [_send_*_message]; a payload is handed over whether or
    not earlier ones were delivered.  [None] is the UnicodeEncodeError of
    measuring text that does not encode. *)

Module Notification.
Import Utf8 PyText.

Definition LF : Z := 10.
Definition sep_rule : pystr := [LF; 45; 45; 45; LF].        (* "\n---\n" *)
Definition sep_h3 : pystr := [LF; 35; 35; 35; 32].          (* "\n### " *)
Definition sep_h2 : pystr := [LF; 35; 35; 32].              (* "\n## " *)
Definition sep_bold : pystr := [LF; 42; 42].                (* "\n**" *)

(** "\n\n...(本段內容過長已截斷)" *)
Definition truncation_note : pystr :=
  [LF; LF; 46; 46; 46; 40; 0x672c; 0x6bb5; 0x5167; 0x5bb9; 0x904e; 0x9577;
   0x5df2; 0x622a; 0x65b7; 41].

Definition page_emoji : Z := 0x1F4C4.

(** WeChat: [f"\n\n📄 *({i+1}/{total_chunks})*"], [i] counted from 0. *)
Definition wechat_page_marker (i total_chunks : nat) : pystr :=
  [LF; LF; page_emoji; 32; 42; 40] ++ str_of_nat (i + 1) ++ [47]
  ++ str_of_nat total_chunks ++ [41; 42].

(** Feishu: [f"\n\n📄 ({i+1}/{total_chunks})"]. *)
Definition feishu_page_marker (i total_chunks : nat) : pystr :=
  [LF; LF; page_emoji; 32; 40] ++ str_of_nat (i + 1) ++ [47]
  ++ str_of_nat total_chunks ++ [41].

(** The sections obtained by cutting at a heading prefix and putting the
    heading mark back: [[parts[0]] + [f"{mark}{p}" for p in parts[1:]]]. *)
Definition reheaded (mark : pystr) (parts : list pystr) : list pystr :=
  match parts with
  | [] => []
  | p0 :: rest => p0 :: map (fun p => mark ++ p) rest
  end.

(** The accumulator of the packing loop:
    [(chunks, current_chunk, current_bytes)]. *)
Record packing := {
  chunks : list pystr;
  current_chunk : list pystr;
  current_bytes : Z
}.

Definition flush (separator : pystr) (st : packing) : list pystr :=
  match current_chunk st with
  | [] => chunks st
  | _ => chunks st ++ [join separator (current_chunk st)]
  end.

(** One iteration of [for section in sections], shared by the WeChat and
    Feishu senders, which differ in the limit a chunk is packed against
    ([limit]) and in the size a single oversized section is cut to
    ([cut_to]). *)
Definition pack_section (separator : pystr) (limit cut_to : Z)
    (st : packing) (section : pystr) : option packing :=
  match get_bytes section, get_bytes separator with
  | Some sb, Some separator_bytes =>
      let section_bytes := sb + separator_bytes in
      if limit <? section_bytes then
        match Truncate._truncate_to_bytes section cut_to with
        | Some truncated =>
            Some {| chunks := flush separator st ++ [truncated ++ truncation_note];
                    current_chunk := [];
                    current_bytes :=
                      match current_chunk st with
                      | [] => current_bytes st
                      | _ => 0
                      end |}
        | None => None
        end
      else if limit <? current_bytes st + section_bytes then
        Some {| chunks := flush separator st;
                current_chunk := [section];
                current_bytes := section_bytes |}
      else
        Some {| chunks := chunks st;
                current_chunk := current_chunk st ++ [section];
                current_bytes := current_bytes st + section_bytes |}
  | _, _ => None
  end.

Fixpoint pack_sections (separator : pystr) (limit cut_to : Z)
    (st : packing) (sections : list pystr) : option packing :=
  match sections with
  | [] => Some st
  | section :: rest =>
      match pack_section separator limit cut_to st section with
      | Some st' => pack_sections separator limit cut_to st' rest
      | None => None
      end
  end.

Definition pack (separator : pystr) (limit cut_to : Z)
    (sections : list pystr) : option (list pystr) :=
  match pack_sections separator limit cut_to
          {| chunks := []; current_chunk := []; current_bytes := 0 |}
          sections with
  | Some st => Some (flush separator st)
  | None => None
  end.

(** [for i, chunk in enumerate(chunks)]: the payload of every chunk. *)
Definition paginate (marker : nat -> nat -> pystr) (cs : list pystr)
  : list pystr :=
  let total_chunks := length cs in
  imap (fun i chunk =>
          if Nat.ltb 1 total_chunks
          then chunk ++ marker i total_chunks else chunk) cs.

(** The line-based fallback of both channels:
    [_send_wechat_force_chunked] and [_send_feishu_force_chunked]. *)
Fixpoint force_lines (max_bytes : Z) (lines : list pystr)
    (cs : list pystr) (current_chunk : pystr) : option (list pystr) :=
  match lines with
  | [] =>
      Some (match current_chunk with [] => cs | _ => cs ++ [current_chunk] end)
  | line :: rest =>
      let test_chunk :=
        current_chunk ++ (match current_chunk with [] => [] | _ => [LF] end)
        ++ line in
      match get_bytes test_chunk with
      | Some n =>
          if max_bytes - 100 <? n then
            force_lines max_bytes rest
              (match current_chunk with [] => cs | _ => cs ++ [current_chunk] end)
              line
          else force_lines max_bytes rest cs test_chunk
      | None => None
      end
  end.

Definition _send_wechat_force_chunked (content : pystr) (max_bytes : Z)
  : option (list pystr) :=
  match force_lines max_bytes (split [LF] content) [] [] with
  | Some cs => Some (paginate wechat_page_marker cs)
  | None => None
  end.

Definition _send_feishu_force_chunked (content : pystr) (max_bytes : Z)
  : option (list pystr) :=
  match force_lines max_bytes (split [LF] content) [] [] with
  | Some cs => Some (paginate feishu_page_marker cs)
  | None => None
  end.

Definition _send_wechat_chunked (content : pystr) (max_bytes : Z)
  : option (list pystr) :=
  let effective_max_bytes := max_bytes - 50 in
  let packed separator sections :=
    match pack separator effective_max_bytes (effective_max_bytes - 200)
            sections with
    | Some cs => Some (paginate wechat_page_marker cs)
    | None => None
    end in
  if contains sep_rule content then
    packed sep_rule (split sep_rule content)
  else if contains sep_h3 content then
    packed [LF] (reheaded (lit "### ") (split sep_h3 content))
  else if contains sep_h2 content then
    packed [LF] (reheaded (lit "## ") (split sep_h2 content))
  else if contains sep_bold content then
    packed [LF] (reheaded (lit "**") (split sep_bold content))
  else _send_wechat_force_chunked content max_bytes.

Definition _send_feishu_chunked (content : pystr) (max_bytes : Z)
  : option (list pystr) :=
  let packed separator sections :=
    match pack separator max_bytes (max_bytes - 200) sections with
    | Some cs => Some (paginate feishu_page_marker cs)
    | None => None
    end in
  if contains sep_rule content then
    packed sep_rule (split sep_rule content)
  else if contains sep_h3 content then
    packed [LF] (reheaded (lit "### ") (split sep_h3 content))
  else _send_feishu_force_chunked content max_bytes.

End Notification.

(** ** Exceptions and upstream effects *)

Module Py.

(** The result of a call: a value, or an [Exception] whose [str(e)] is
    [msg]. *)
Inductive outcome (A : Type) : Type :=
| Ret (a : A)
| Raise (msg : string).
Arguments Ret {A} a.
Arguments Raise {A} msg.

(** A computation over a state [S] that may raise. *)
Definition io (S A : Type) : Type := S -> outcome A * S.

Definition ret {S A} (a : A) : io S A := fun s => (Ret a, s).
Definition raise {S A} (msg : string) : io S A := fun s => (Raise msg, s).

Definition bind {S A B} (m : io S A) (k : A -> io S B) : io S B :=
  fun s =>
    match m s with
    | (Ret a, s') => k a s'
    | (Raise msg, s') => (Raise msg, s')
    end.

(** [try: body / except Exception as e: handler(str(e))] *)
Definition try_except {S A} (body : io S A) (handler : string -> io S A)
  : io S A :=
  fun s =>
    match body s with
    | (Ret a, s') => (Ret a, s')
    | (Raise msg, s') => handler msg s'
    end.

(** A pure step that may raise. *)
Definition lift {S A} (o : outcome A) : io S A := fun s => (o, s).

End Py.

#[global] Instance io_ret {S} : MRet (Py.io S) := fun A a => Py.ret a.
#[global] Instance io_bind {S} : MBind (Py.io S) := fun A B k m => Py.bind m k.

(** ** Data frames of daily candles *)

Module Pandas.
Import Py.
Local Open Scope string_scope.

(** A cell of the [date] column as [pd.to_datetime] sees it: a value it
    converts to a timestamp, a missing value (NaT), or a value on which
    it raises with the given text. *)
Inductive date_cell :=
| Timestamp (t : Z)
| NaT
| Unparsable (err : string).

(** A numeric cell after [pd.to_numeric(errors='coerce')]: a finite
    binary64 value, taken as the rational number it is, or NaN ([None])
    for a missing or unconvertible value. *)
Abbreviation num_cell := (option Q).

Record Row := {
  date : date_cell;
  open : num_cell;
  high : num_cell;
  low : num_cell;
  close : num_cell;
  volume : num_cell;
  amount : num_cell;
  pct_chg : num_cell;
  ma5 : num_cell;
  ma10 : num_cell;
  ma20 : num_cell
}.

(** A frame: the names of its columns, and its rows in index order.  A
    field of a row is meaningful when its column is present. *)
Record DataFrame := {
  columns : list string;
  rows : list Row
}.

Definition has_column (c : string) (df : DataFrame) : bool :=
  bool_decide (c ∈ columns df).

(** [df.empty] *)
Definition empty (df : DataFrame) : bool :=
  match rows df, columns df with
  | [], _ => true
  | _, [] => true
  | _, _ => false
  end.

(** Ascending order of the [date] column, missing dates last
    ([na_position='last']). *)
Definition date_leb (a b : date_cell) : bool :=
  match a, b with
  | Timestamp x, Timestamp y => (x <=? y)%Z
  | Timestamp _, _ => true
  | _, Timestamp _ => false
  | _, _ => true
  end.

Definition row_leb (a b : Row) : bool := date_leb (date a) (date b).

Section Sorting.
Context {A : Type} (leb : A -> A -> bool).

Fixpoint insert_sorted (x : A) (l : list A) : list A :=
  match l with
  | [] => [x]
  | y :: l' => if leb x y then x :: l else y :: insert_sorted x l'
  end.

(** A stable sort: equal keys keep their input order. *)
Fixpoint sort_by (l : list A) : list A :=
  match l with
  | [] => []
  | x :: l' => insert_sorted x (sort_by l')
  end.

End Sorting.

(** The text of the first [date] cell that [pd.to_datetime] rejects. *)
Fixpoint first_unparsable (rs : list Row) : option string :=
  match rs with
  | [] => None
  | r :: rs' =>
      match date r with
      | Unparsable err => Some err
      | _ => first_unparsable rs'
      end
  end.

Definition notna (c : num_cell) : bool :=
  match c with Some _ => true | None => false end.

(** [str(KeyError(key))] *)
Definition key_error (key : string) : string := "'" ++ key ++ "'".

(** The arithmetic the sources ask of pandas and numpy, on a whole
    column and in binary64, by library code that is not part of the
    sources and is taken as given: [rolling_mean window xs] is
    [xs.rolling(window=window, min_periods=1).mean()] and [round2 xs] is
    [xs.round(2)]. *)
Record numeric := {
  rolling_mean : nat -> list num_cell -> list num_cell;
  round2 : list num_cell -> list num_cell
}.

Definition set_ma (r : Row) (m5 m10 m20 : num_cell) : Row :=
  {| date := date r; open := open r; high := high r; low := low r;
     close := close r; volume := volume r; amount := amount r;
     pct_chg := pct_chg r; ma5 := m5; ma10 := m10; ma20 := m20 |}.

(** Assigning [df[c] = ...]: a new column goes last. *)
Definition assign_column (c : string) (cols : list string) : list string :=
  if bool_decide (c ∈ cols) then cols else cols ++ [c].

End Pandas.

(** ** BaseFetcher (data_provider/base.py) *)

Module BaseFetcher.
Import Py Pandas.
Local Open Scope string_scope.

(** [_clean_data]: convert the date column, coerce the numeric columns
    (the identity on [num_cell]), drop the rows whose [close] or [volume]
    is NaN, sort by date ascending and renumber.  Rows of one date keep
    their order here; the default sort of pandas need not keep it on a
    long frame. *)
Definition _clean_data (df : DataFrame) : outcome DataFrame :=
  match (if has_column "date" df then first_unparsable (rows df) else None) with
  | Some err => Raise err
  | None =>
      match List.filter (fun c => negb (has_column c df)) ["close"; "volume"] with
      | (_ :: _) as missing =>
          Raise ("[" ++ PyStr.join ", " (map key_error missing) ++ "]")
      | [] =>
          let kept :=
            List.filter (fun r => notna (close r) && notna (volume r)) (rows df) in
          if has_column "date" df then
            Ret {| columns := columns df;
                   rows := sort_by row_leb kept |}
          else Raise (key_error "date")
      end
  end.

(** [_calculate_indicators]: the moving averages of [close] over 5, 10
    and 20 rows, rounded to two decimals, both by the library [lib].
    The [volume_ratio] column is recorded among the columns; its cells
    (a quotient that is infinite when the mean volume is zero) are not
    embedded. *)
Definition _calculate_indicators (lib : numeric) (df : DataFrame)
  : outcome DataFrame :=
  if negb (has_column "close" df) then Raise (key_error "close")
  else if negb (has_column "volume" df) then Raise (key_error "volume")
  else
    let closes := map close (rows df) in
    let col w := round2 lib (rolling_mean lib w closes) in
    let m5 := col 5%nat in
    let m10 := col 10%nat in
    let m20 := col 20%nat in
    Ret {| columns :=
             assign_column "volume_ratio"
               (assign_column "ma20"
                  (assign_column "ma10" (assign_column "ma5" (columns df))));
           rows :=
             imap (fun t r =>
                     set_ma r (default None (m5 !! t)) (default None (m10 !! t))
                       (default None (m20 !! t)))
                  (rows df) |}.

Section Subclass.
Context {W Raw : Type}.

(** What a concrete fetcher supplies: its class attributes and the two
    abstract methods; [raw_empty] is [raw_df.empty]. *)
Record hooks := {
  name : string;
  priority : Z;
  _fetch_raw_data : string -> string -> string -> io W (option Raw);
  raw_empty : Raw -> bool;
  _normalize_data : Raw -> string -> outcome DataFrame
}.

(** The date range of a request: [end_date] defaults to today and
    [start_date] to [2 * days] calendar days earlier.  It reads the clock
    and raises ValueError on a malformed [end_date], before the [try]. *)
Variable date_range :
  option string -> option string -> Z -> io W (string * string).

(** The pandas and numpy arithmetic in use. *)
Variable lib : numeric.

Definition get_daily_data (self : hooks) (stock_code : string)
    (start_date end_date : option string) (days : Z) : io W DataFrame :=
  '(start_date, end_date) ← date_range start_date end_date days;
  try_except
    (raw_df ← _fetch_raw_data self stock_code start_date end_date;
     match raw_df with
     | Some raw =>
         if raw_empty self raw then
           raise ("[" ++ name self ++ "] 未獲取到 " ++ stock_code ++ " 的數據")
         else
           df ← lift (_normalize_data self raw stock_code);
           df ← lift (_clean_data df);
           df ← lift (_calculate_indicators lib df);
           ret df
     | None =>
         raise ("[" ++ name self ++ "] 未獲取到 " ++ stock_code ++ " 的數據")
     end)
    (fun e => raise ("[" ++ name self ++ "] " ++ stock_code ++ ": " ++ e)).

End Subclass.

End BaseFetcher.

(** ** The fetcher objects the manager holds *)

Module Fetcher.
Import Py Pandas.

Section Fetcher.
Context {W Quote Chip : Type}.

(** A fetcher as the manager uses it: [name], [priority], the daily
    entry point, and the optional capabilities it probes with [hasattr].
    [get_realtime_quote] takes the stock code and the [source=] keyword
    when the manager passes one. *)
Record t := {
  name : string;
  priority : Z;
  get_daily_data :
    string -> option string -> option string -> Z -> io W (option DataFrame);
  get_realtime_quote :
    option (string -> option string -> io W (option Quote));
  get_chip_distribution : option (string -> io W (option Chip))
}.

End Fetcher.
Arguments t : clear implicits.

End Fetcher.

(** ** AkshareFetcher.get_chip_distribution (data_provider/akshare_fetcher.py) *)

Module AkshareFetcher.
Import Py.

Section Chip.
Context {W Chip : Type}.

(** [import_akshare] is the function-level [import akshare as ak];
    [latest_chip] is the body of the [try]: rate limiting, the call to
    [ak.stock_cyq_em], [None] on an empty answer, else the distribution
    built from the last row. *)
Definition get_chip_distribution (import_akshare : io W unit)
    (latest_chip : string -> io W (option Chip)) (stock_code : string)
  : io W (option Chip) :=
  _ ← import_akshare;
  if Classifier._is_us_code stock_code then ret None
  else if Classifier._is_etf_code stock_code then ret None
  else try_except (latest_chip stock_code) (fun _ => ret None).

End Chip.

End AkshareFetcher.

(** ** Config (src/config.py): the fields the manager reads *)

Module Config.

Record t := {
  enable_realtime_quote : bool;
  enable_chip_distribution : bool;
  realtime_source_priority : string
}.

(** The defaults of the dataclass. *)
Definition default : t :=
  {| enable_realtime_quote := true;
     enable_chip_distribution := true;
     realtime_source_priority := "tencent,akshare_sina,efinance,akshare_em" |}.

End Config.

(** ** DataFetcherManager (data_provider/base.py) *)

Module DataFetcherManager.
Import Py Pandas.
Local Open Scope string_scope.

Section Manager.
Context {W Quote Chip : Type}.

Abbreviation fetcher := (Fetcher.t W Quote Chip).

(** [quote.has_basic_data()], from realtime_types. *)
Variable has_basic_data : Quote -> bool.

(** The chip circuit breaker of realtime_types, a process-wide object
    living in the world.  Its module is not among the sources, so its
    three methods are taken as given; like any call they may raise. *)
Record CircuitBreaker := {
  is_available : string -> io W bool;
  record_success : string -> io W unit;
  record_failure : string -> string -> io W unit
}.

(** What the manager does to its collaborators, in order. *)
Inductive event :=
| CallDaily (fetcher_name stock_code : string)
    (result : outcome (option DataFrame))
| CallQuote (fetcher_name stock_code : string) (source : option string)
    (result : outcome (option Quote))
| CallChip (fetcher_name stock_code : string) (result : outcome (option Chip))
| BreakerAsked (source_key : string) (available : outcome bool)
| BreakerSuccess (source_key : string) (result : outcome unit)
| BreakerFailure (source_key reason : string) (result : outcome unit)
| QuoteRequested (stock_code : string).

Record state := {
  world : W;
  trace : list event
}.

Definition log (e : event) : io state unit :=
  fun s => (Ret tt, {| world := world s; trace := (trace s ++ [e])%list |}).

(** A method of a collaborator run against the world, recorded with its
    outcome. *)
Definition call {A} (m : io W A) (ev : outcome A -> event) : io state A :=
  fun s =>
    let '(r, w) := m (world s) in
    (r, {| world := w; trace := (trace s ++ [ev r])%list |}).

Definition by_priority (a b : fetcher) : bool :=
  (Fetcher.priority a <=? Fetcher.priority b)%Z.

(** [__init__]: the given fetchers sorted by priority ([sorted] is
    stable), or, when none is given, the default ones, which
    [_init_default_fetchers] creates and sorts the same way. *)
Definition __init__ (default_fetchers : list fetcher)
    (fetchers : option (list fetcher)) : list fetcher :=
  match fetchers with
  | Some ((_ :: _) as fs) => sort_by by_priority fs
  | _ => sort_by by_priority default_fetchers
  end.

Definition failure_line (f : fetcher) (e : string) : string :=
  "[" ++ Fetcher.name f ++ "] 失敗: " ++ e.

Definition error_summary (stock_code : string) (errors : list string) : string :=
  "所有數據源獲取 " ++ stock_code ++ " 失敗:" ++ PyStr.nl
  ++ PyStr.join PyStr.nl errors.

(** The [for fetcher in self._fetchers] of [get_daily_data]; an
    iteration either returns ([inl]) or leaves the error list for the
    next one ([inr]). *)
Fixpoint daily_loop (fs : list fetcher) (stock_code : string)
    (start_date end_date : option string) (days : Z) (errors : list string)
  : io state (DataFrame * string) :=
  match fs with
  | [] => raise (error_summary stock_code errors)
  | f :: rest =>
      step ← try_except
        (df ← call (Fetcher.get_daily_data f stock_code start_date end_date days)
                   (CallDaily (Fetcher.name f) stock_code);
         match df with
         | Some d =>
             if negb (empty d) then ret (inl (d, Fetcher.name f))
             else ret (inr errors)
         | None => ret (inr errors)
         end)
        (fun e => ret (inr (errors ++ [failure_line f e])%list));
      match step with
      | inl found => ret found
      | inr errors' => daily_loop rest stock_code start_date end_date days errors'
      end
  end.

Definition get_daily_data (self : list fetcher) (stock_code : string)
    (start_date end_date : option string) (days : Z)
  : io state (DataFrame * string) :=
  daily_loop self stock_code start_date end_date days [].

(** [for fetcher in self._fetchers: if fetcher.name == n: ...; break] *)
Definition find_fetcher (n : string) (fs : list fetcher) : option fetcher :=
  find (fun f => String.eqb (Fetcher.name f) n) fs.

(** The fetcher and the [source=] argument each entry of the priority
    list stands for. *)
Definition source_route (source : string) : option (string * option string) :=
  if String.eqb source "efinance" then Some ("EfinanceFetcher", None)
  else if String.eqb source "akshare_em" then Some ("AkshareFetcher", Some "em")
  else if String.eqb source "akshare_sina" then Some ("AkshareFetcher", Some "sina")
  else if String.eqb source "tencent" || String.eqb source "akshare_qq"
  then Some ("AkshareFetcher", Some "tencent")
  else if String.eqb source "tushare" then Some ("TushareFetcher", None)
  else None.

Definition quote_from (fs : list fetcher) (fetcher_name : string)
    (source : option string) (stock_code : string) : io state (option Quote) :=
  match find_fetcher fetcher_name fs with
  | Some f =>
      match Fetcher.get_realtime_quote f with
      | Some method =>
          call (method stock_code source)
               (CallQuote (Fetcher.name f) stock_code source)
      | None => ret None
      end
  | None => ret None
  end.

(** The [for source in source_priority] of [get_realtime_quote]; the
    error list it keeps is only logged. *)
Fixpoint quote_loop (fs : list fetcher) (stock_code : string)
    (source_priority : list string) : io state (option Quote) :=
  match source_priority with
  | [] => ret None
  | source :: rest =>
      let source := PyStr.lower (PyStr.strip source) in
      found ← try_except
        (quote ← match source_route source with
                 | Some (fetcher_name, variant) =>
                     quote_from fs fetcher_name variant stock_code
                 | None => ret None
                 end;
         match quote with
         | Some q => if has_basic_data q then ret (Some q) else ret None
         | None => ret None
         end)
        (fun _ => ret None);
      match found with
      | Some q => ret (Some q)
      | None => quote_loop fs stock_code rest
      end
  end.

Definition get_realtime_quote (config : Config.t) (self : list fetcher)
    (stock_code : string) : io state (option Quote) :=
  if negb (Config.enable_realtime_quote config) then ret None
  else if Classifier._is_us_code stock_code then
    match find_fetcher "YfinanceFetcher" self with
    | Some f =>
        match Fetcher.get_realtime_quote f with
        | Some method =>
            try_except
              (call (method stock_code None)
                    (CallQuote (Fetcher.name f) stock_code None))
              (fun _ => ret None)
        | None => ret None
        end
    | None => ret None
    end
  else
    quote_loop self stock_code
      (PyStr.split ","%char (Config.realtime_source_priority config)).

Definition bulk_sources : list string := ["efinance"; "akshare_em"; "tushare"].

Definition is_bulk_source (source : string) : bool :=
  existsb (String.eqb source) bulk_sources.

(** The index of the first entry that is a bulk source, [None] when
    there is none. *)
Fixpoint first_bulk_source_index (priority_list : list string) : option nat :=
  match priority_list with
  | [] => None
  | source :: rest =>
      if is_bulk_source source then Some O
      else option_map S (first_bulk_source_index rest)
  end.

Definition prefetch_realtime_quotes (config : Config.t) (self : list fetcher)
    (stock_codes : list string) : io state Z :=
  if negb (Config.enable_realtime_quote config) then ret 0
  else
    let priority := PyStr.lower (Config.realtime_source_priority config) in
    let priority_list := map PyStr.strip (PyStr.split ","%char priority) in
    match first_bulk_source_index priority_list with
    | None => ret 0
    | Some i =>
        if Nat.leb 2 i then ret 0
        else if Nat.ltb (length stock_codes) 5 then ret 0
        else
          try_except
            (match stock_codes with
             | first_code :: _ =>
                 _ ← log (QuoteRequested first_code);
                 quote ← get_realtime_quote config self first_code;
                 match quote with
                 | Some _ => ret (Z.of_nat (length stock_codes))
                 | None => ret 0
                 end
             | [] => raise "list index out of range"
             end)
            (fun _ => ret 0)
    end.

(** The three conditions under which [prefetch_realtime_quotes] goes
    on to request a quote. *)
Definition prefetch_applies (config : Config.t) (stock_codes : list string)
  : bool :=
  Config.enable_realtime_quote config
  && match first_bulk_source_index
             (map PyStr.strip
                (PyStr.split ","%char
                   (PyStr.lower (Config.realtime_source_priority config)))) with
     | Some i => Nat.ltb i 2
     | None => false
     end
  && Nat.leb 5 (length stock_codes).

Definition is_call_quote (e : event) : bool :=
  match e with CallQuote _ _ _ _ => true | _ => false end.

Definition chip_sources : list (string * string) :=
  [("AkshareFetcher", "akshare_chip");
   ("TushareFetcher", "tushare_chip");
   ("EfinanceFetcher", "efinance_chip")].

Definition ask_breaker (cb : CircuitBreaker) (source_key : string)
  : io state bool :=
  call (is_available cb source_key) (BreakerAsked source_key).

Definition note_success (cb : CircuitBreaker) (source_key : string)
  : io state unit :=
  call (record_success cb source_key) (BreakerSuccess source_key).

Definition note_failure (cb : CircuitBreaker) (source_key reason : string)
  : io state unit :=
  call (record_failure cb source_key reason) (BreakerFailure source_key reason).

(** The [for fetcher_name, source_key in chip_sources] of
    [get_chip_distribution]; [Some chip] is its [return chip].  The
    breaker is asked outside the [try], its success is recorded inside
    it and its failure in the handler. *)
Fixpoint chip_loop (cb : CircuitBreaker) (fs : list fetcher)
    (stock_code : string) (sources : list (string * string))
  : io state (option Chip) :=
  match sources with
  | [] => ret None
  | (fetcher_name, source_key) :: rest =>
      available ← ask_breaker cb source_key;
      if negb available then chip_loop cb fs stock_code rest
      else
        found ← try_except
          (match find_fetcher fetcher_name fs with
           | Some f =>
               match Fetcher.get_chip_distribution f with
               | Some method =>
                   chip ← call (method stock_code)
                               (CallChip (Fetcher.name f) stock_code);
                   match chip with
                   | Some c => _ ← note_success cb source_key; ret (Some c)
                   | None => ret None
                   end
               | None => ret None
               end
           | None => ret None
           end)
          (fun e => _ ← note_failure cb source_key e; ret None);
        match found with
        | Some c => ret (Some c)
        | None => chip_loop cb fs stock_code rest
        end
  end.

Definition get_chip_distribution (config : Config.t) (cb : CircuitBreaker)
    (self : list fetcher) (stock_code : string) : io state (option Chip) :=
  if negb (Config.enable_chip_distribution config) then ret None
  else chip_loop cb self stock_code chip_sources.

(** One call of [get_daily_data] on a fetcher, with what it gave. *)
Definition attempt : Type := fetcher * outcome (option DataFrame).

(** The fetcher raised, or yielded no frame or a frame without rows. *)
Definition failed_attempt (a : attempt) : Prop :=
  match a.2 with
  | Raise _ => True
  | Ret None => True
  | Ret (Some d) => empty d = true
  end.

Definition attempt_event (stock_code : string) (a : attempt) : event :=
  CallDaily (Fetcher.name a.1) stock_code a.2.

(** The attempts as calls on the world: each is the fetcher's own
    [get_daily_data] run with the arguments of the request on the world
    the attempt before it left, with the outcome it is listed with; [w']
    is the world after the last of them. *)
Fixpoint answered (stock_code : string) (start_date end_date : option string)
    (days : Z) (w : W) (attempts : list attempt) (w' : W) : Prop :=
  match attempts with
  | [] => w' = w
  | a :: rest =>
      exists w1,
        Fetcher.get_daily_data a.1 stock_code start_date end_date days w
        = (a.2, w1)
        /\ answered stock_code start_date end_date days w1 rest w'
  end.

(** The line an attempt adds to the error list: one for a fetcher that
    raised, none otherwise. *)
Definition attempt_error (a : attempt) : option string :=
  match a.2 with
  | Raise e => Some (failure_line a.1 e)
  | Ret _ => None
  end.

(** The breaker does its work without raising. *)
Definition breaker_total (cb : CircuitBreaker) : Prop :=
  (forall source_key w, exists a w',
      is_available cb source_key w = (Ret a, w'))
  /\ (forall source_key w, exists w',
         record_success cb source_key w = (Ret tt, w'))
  /\ (forall source_key reason w, exists w',
         record_failure cb source_key reason w = (Ret tt, w')).

(** The discipline of the chip path for one stock code, as a run over
    the sources left to try: from the world [w] it makes the calls
    recorded in the event list, in that order, each on the world the
    call before it left, ends in the world [w'] and yields [result].
    Each source is first asked of the breaker; a source the breaker
    reports unavailable is passed over; an available one whose fetcher
    is absent or has no chip method is passed over; otherwise that
    fetcher's method is called once with the stock code: a call that
    raises is followed at once by [record_failure] on the same breaker
    key with the message raised, and the next source is tried; a call
    that yields nothing is followed by no record; a call that yields a
    distribution is followed by [record_success] on the key and ends the
    run with that distribution. *)
Inductive chip_protocol (cb : CircuitBreaker) (self : list fetcher)
    (stock_code : string)
  : list (string * string) -> W -> list event -> W -> option Chip -> Prop :=
| protocol_end w : chip_protocol cb self stock_code [] w [] w None
| protocol_unavailable fetcher_name source_key rest w w1 evs w' result :
    is_available cb source_key w = (Ret false, w1) ->
    chip_protocol cb self stock_code rest w1 evs w' result ->
    chip_protocol cb self stock_code ((fetcher_name, source_key) :: rest) w
      (BreakerAsked source_key (Ret false) :: evs) w' result
| protocol_no_method fetcher_name source_key rest w w1 evs w' result :
    is_available cb source_key w = (Ret true, w1) ->
    match find_fetcher fetcher_name self with
    | Some f => Fetcher.get_chip_distribution f = None
    | None => True
    end ->
    chip_protocol cb self stock_code rest w1 evs w' result ->
    chip_protocol cb self stock_code ((fetcher_name, source_key) :: rest) w
      (BreakerAsked source_key (Ret true) :: evs) w' result
| protocol_nothing fetcher_name source_key rest f method w w1 w2 evs w' result :
    is_available cb source_key w = (Ret true, w1) ->
    find_fetcher fetcher_name self = Some f ->
    Fetcher.get_chip_distribution f = Some method ->
    method stock_code w1 = (Ret None, w2) ->
    chip_protocol cb self stock_code rest w2 evs w' result ->
    chip_protocol cb self stock_code ((fetcher_name, source_key) :: rest) w
      (BreakerAsked source_key (Ret true)
       :: CallChip (Fetcher.name f) stock_code (Ret None) :: evs) w' result
| protocol_raised fetcher_name source_key rest f method reason
    w w1 w2 w3 evs w' result :
    is_available cb source_key w = (Ret true, w1) ->
    find_fetcher fetcher_name self = Some f ->
    Fetcher.get_chip_distribution f = Some method ->
    method stock_code w1 = (Raise reason, w2) ->
    record_failure cb source_key reason w2 = (Ret tt, w3) ->
    chip_protocol cb self stock_code rest w3 evs w' result ->
    chip_protocol cb self stock_code ((fetcher_name, source_key) :: rest) w
      (BreakerAsked source_key (Ret true)
       :: CallChip (Fetcher.name f) stock_code (Raise reason)
       :: BreakerFailure source_key reason (Ret tt) :: evs) w' result
| protocol_found fetcher_name source_key rest f method chip w w1 w2 w3 :
    is_available cb source_key w = (Ret true, w1) ->
    find_fetcher fetcher_name self = Some f ->
    Fetcher.get_chip_distribution f = Some method ->
    method stock_code w1 = (Ret (Some chip), w2) ->
    record_success cb source_key w2 = (Ret tt, w3) ->
    chip_protocol cb self stock_code ((fetcher_name, source_key) :: rest) w
      [BreakerAsked source_key (Ret true);
       CallChip (Fetcher.name f) stock_code (Ret (Some chip));
       BreakerSuccess source_key (Ret tt)] w3 (Some chip).

(** A fetcher whose chip method, when it has one, is the one of
    AkshareFetcher, the only one the data providers define. *)
Definition akshare_chip_method (f : fetcher) : Prop :=
  match Fetcher.get_chip_distribution f with
  | None => True
  | Some method =>
      exists import_akshare latest_chip,
        method = AkshareFetcher.get_chip_distribution import_akshare latest_chip
  end.

End Manager.

Arguments event : clear implicits.
Arguments state : clear implicits.
Arguments CircuitBreaker : clear implicits.
Arguments attempt : clear implicits.

End DataFetcherManager.

(** ** TaskService (src/services/task_service.py)

    The service is shared by the threads that submit and by the workers
    of its thread pool.  It is embedded as a transition system whose
    steps are the atomic actions of those threads: a submission (the
    job is handed to the executor and [submit_analysis] returns), a
    worker beginning the oldest queued job ([_run_analysis] writes the
    ledger entry under the lock), and a worker finishing its job (the
    entry is updated under the lock). *)

Module TaskService.
Local Open Scope string_scope.

Section TaskService.
(** The fields of the analysis result that the ledger keeps. *)
Context {Result : Type}.

Inductive status := running | completed | failed.

Record entry := {
  task_id : string;
  code : string;
  status_of : status;
  start_time : string;
  end_time : option string;
  result : option Result;
  error : option string;
  report_type : string
}.

Record job := {
  job_code : string;
  job_task_id : string;
  job_report_type : string
}.

(** [_tasks] is the ledger, [queued] the work queue of the executor,
    [in_flight] the jobs some worker is running. *)
Record t := {
  _max_workers : nat;
  _tasks : gmap string entry;
  queued : list job;
  in_flight : list job
}.

Definition new (max_workers : nat) : t :=
  {| _max_workers := max_workers; _tasks := ∅; queued := []; in_flight := [] |}.

Record task_info := {
  info_success : bool;
  info_message : string;
  info_code : string;
  info_task_id : string;
  info_report_type : string
}.

(** [f"{code}_{datetime.now().strftime('%Y%m%d_%H%M%S_%f')}"], [now]
    being the formatted clock reading. *)
Definition make_task_id (code now : string) : string := code ++ "_" ++ now.

(** [submit_analysis]: [None] is the ValueError of creating a pool with
    no worker. *)
Definition submit_analysis (self : t) (code report_type now : string)
  : option (task_info * t) :=
  if Nat.eqb (_max_workers self) 0 then None
  else
    let task_id := make_task_id code now in
    Some ({| info_success := true;
             info_message := "分析任務已提交，將異步執行並推送通知";
             info_code := code;
             info_task_id := task_id;
             info_report_type := report_type |},
          {| _max_workers := _max_workers self;
             _tasks := _tasks self;
             queued := (queued self ++
                        [{| job_code := code; job_task_id := task_id;
                            job_report_type := report_type |}])%list;
             in_flight := in_flight self |}).

(** [get_task_status] *)
Definition get_task_status (self : t) (task_id : string) : option entry :=
  _tasks self !! task_id.

(** What [process_single_stock] did inside [_run_analysis]: returned a
    result, returned nothing, or raised. *)
Inductive analysis :=
| Analysed (r : Result)
| NoResult
| Raised (msg : string).

(** The entry [_run_analysis] writes first. *)
Definition initial_entry (j : job) (now : string) : entry :=
  {| task_id := job_task_id j; code := job_code j; status_of := running;
     start_time := now; end_time := None; result := None; error := None;
     report_type := job_report_type j |}.

(** [self._tasks[task_id].update({...})] on the three exits. *)
Definition finished (a : analysis) (now : string) (e : entry) : entry :=
  match a with
  | Analysed r =>
      {| task_id := task_id e; code := code e; status_of := completed;
         start_time := start_time e; end_time := Some now; result := Some r;
         error := error e; report_type := report_type e |}
  | NoResult =>
      {| task_id := task_id e; code := code e; status_of := failed;
         start_time := start_time e; end_time := Some now; result := result e;
         error := Some "分析返回空結果"; report_type := report_type e |}
  | Raised msg =>
      {| task_id := task_id e; code := code e; status_of := failed;
         start_time := start_time e; end_time := Some now; result := result e;
         error := Some msg; report_type := report_type e |}
  end.

Fixpoint remove_job (task_id : string) (js : list job) : option (list job) :=
  match js with
  | [] => None
  | j :: rest =>
      if String.eqb (job_task_id j) task_id then Some rest
      else option_map (cons j) (remove_job task_id rest)
  end.

Inductive action :=
| Submit (code report_type now : string)
| Begin (now : string)
| Finish (task_id : string) (a : analysis) (now : string).

(** One atomic action; [None] when it cannot happen in this state. *)
Definition step (act : action) (self : t) : option t :=
  match act with
  | Submit code report_type now =>
      option_map snd (submit_analysis self code report_type now)
  | Begin now =>
      match queued self with
      | j :: rest =>
          if Nat.ltb (length (in_flight self)) (_max_workers self) then
            Some {| _max_workers := _max_workers self;
                    _tasks := <[job_task_id j := initial_entry j now]> (_tasks self);
                    queued := rest;
                    in_flight := (in_flight self ++ [j])%list |}
          else None
      | [] => None
      end
  | Finish task_id a now =>
      match remove_job task_id (in_flight self) with
      | Some rest =>
          Some {| _max_workers := _max_workers self;
                  _tasks := alter (finished a now) task_id (_tasks self);
                  queued := queued self;
                  in_flight := rest |}
      | None => None
      end
  end.

Fixpoint run (acts : list action) (self : t) : option t :=
  match acts with
  | [] => Some self
  | act :: rest =>
      match step act self with
      | Some self' => run rest self'
      | None => None
      end
  end.

(** The task ids handed out by the submissions of a run. *)
Definition submitted (acts : list action) : list string :=
  omap (fun act =>
          match act with
          | Submit code _ now => Some (make_task_id code now)
          | _ => None
          end) acts.

Definition ledger_status (self : t) (task_id : string) : option status :=
  status_of <$> get_task_status self task_id.

(** The changes of a ledger status that the life of one task allows:
    absent, then running, then completed or failed for good. *)
Definition advances (before after : option status) : Prop :=
  match before, after with
  | None, None => True
  | None, Some running => True
  | Some running, Some _ => True
  | Some completed, Some completed => True
  | Some failed, Some failed => True
  | _, _ => False
  end.

(** What holds of the service after a run whose submissions handed out
    distinct task ids. *)
Record consistent (acts : list action) (s : t) : Prop := {
  queued_not_in_ledger :
    forall j, j ∈ queued s -> _tasks s !! job_task_id j = None;
  ledger_was_submitted :
    forall id, is_Some (_tasks s !! id) -> id ∈ submitted acts;
  queued_was_submitted :
    forall j, j ∈ queued s -> job_task_id j ∈ submitted acts;
  queued_distinct : NoDup (job_task_id <$> queued s);
  in_flight_running :
    forall j, j ∈ in_flight s -> ledger_status s (job_task_id j) = Some running;
  in_flight_distinct : NoDup (job_task_id <$> in_flight s)
}.

End TaskService.

Arguments entry : clear implicits.
Arguments t : clear implicits.
Arguments action : clear implicits.
Arguments analysis : clear implicits.

End TaskService.

(** ** Concrete fetchers and settings used to exercise the manager *)

Module Scenario.
Import Py Pandas.
Local Open Scope string_scope.

(** The world counts the upstream requests made. *)
Abbreviation fetcher := (Fetcher.t nat string string).
Abbreviation state := (DataFetcherManager.state nat string string).

Definition has_basic_data (q : string) : bool := negb (String.eqb q "").

Definition unsupported : io nat (option DataFrame) :=
  fun w => (Raise "unsupported", S w).

(** A fetcher of the efinance kind: bulk quotes, no chip method. *)
Definition efinance : fetcher :=
  {| Fetcher.name := "EfinanceFetcher";
     Fetcher.priority := 0;
     Fetcher.get_daily_data := fun _ _ _ _ => unsupported;
     Fetcher.get_realtime_quote :=
       Some (fun code _ w => (Ret (Some ("quote:" ++ code)), S w));
     Fetcher.get_chip_distribution := None |}.

(** A fetcher of the akshare kind whose upstream always answers. *)
Definition akshare : fetcher :=
  {| Fetcher.name := "AkshareFetcher";
     Fetcher.priority := 1;
     Fetcher.get_daily_data := fun _ _ _ _ => unsupported;
     Fetcher.get_realtime_quote := None;
     Fetcher.get_chip_distribution :=
       Some (AkshareFetcher.get_chip_distribution
               (fun w => (Ret tt, w))
               (fun code w => (Ret (Some ("chips:" ++ code)), S w))) |}.

(** A fetcher of the yfinance kind. *)
Definition yfinance : fetcher :=
  {| Fetcher.name := "YfinanceFetcher";
     Fetcher.priority := 4;
     Fetcher.get_daily_data := fun _ _ _ _ => unsupported;
     Fetcher.get_realtime_quote :=
       Some (fun code _ w => (Ret (Some ("yahoo:" ++ code)), S w));
     Fetcher.get_chip_distribution := None |}.

Definition fetchers : list fetcher := [efinance; akshare; yfinance].

(** A breaker that is always closed and keeps no record. *)
Definition breaker : DataFetcherManager.CircuitBreaker nat :=
  {| DataFetcherManager.is_available := fun _ w => (Ret true, w);
     DataFetcherManager.record_success := fun _ w => (Ret tt, w);
     DataFetcherManager.record_failure := fun _ _ w => (Ret tt, w) |}.

Definition start : state :=
  {| DataFetcherManager.world := 0%nat; DataFetcherManager.trace := [] |}.

Definition quotes_off : Config.t :=
  {| Config.enable_realtime_quote := false;
     Config.enable_chip_distribution := true;
     Config.realtime_source_priority :=
       Config.realtime_source_priority Config.default |}.

(** A priority list whose first entry is a per-symbol source and whose
    second is a bulk one. *)
Definition tencent_then_efinance : Config.t :=
  {| Config.enable_realtime_quote := true;
     Config.enable_chip_distribution := true;
     Config.realtime_source_priority := "tencent,efinance" |}.

Definition five_codes : list string :=
  ["600519"; "000001"; "601318"; "000002"; "600036"].

(** A candle whose four prices are [c]. *)
Definition candle (day : Z) (c : Q) : Row :=
  {| date := Timestamp day; open := Some c; high := Some c; low := Some c;
     close := Some c; volume := Some (inject_Z 1000); amount := None;
     pct_chg := None; ma5 := None; ma10 := None; ma20 := None |}.

Definition STANDARD_COLUMNS : list string :=
  ["date"; "open"; "high"; "low"; "close"; "volume"; "amount"; "pct_chg"].

(** A fetcher that replays the rows its upstream returned, already under
    the standard column names. *)
Definition replay (raw : list Row) : @BaseFetcher.hooks nat (list Row) :=
  {| BaseFetcher.name := "ReplayFetcher";
     BaseFetcher.priority := 9;
     BaseFetcher._fetch_raw_data := fun _ _ _ w => (Ret (Some raw), S w);
     BaseFetcher.raw_empty := fun r => match r with [] => true | _ => false end;
     BaseFetcher._normalize_data :=
       fun r _ => Ret {| columns := STANDARD_COLUMNS; rows := r |} |}.

(** A stand-in for the library arithmetic, in exact rationals, to run
    the scenarios with: at index [t] the mean of the values that are not
    NaN among the last [window] cells up to [t], NaN when there is none,
    and rounding to two decimals, ties to even.  It agrees with binary64
    on the frames below, whose averages are 9, 9.5 and 10. *)
Definition window_at (window t : nat) (xs : list num_cell) : list num_cell :=
  drop (t + 1 - window) (take (t + 1) xs).

Definition mean (vals : list Q) : Q :=
  (fold_right Qplus 0 vals / inject_Z (Z.of_nat (length vals)))%Q.

Definition nanmean (cells : list num_cell) : num_cell :=
  match omap id cells with
  | [] => None
  | vals => Some (mean vals)
  end.

Definition exact_rolling_mean (window : nat) (xs : list num_cell)
  : list num_cell :=
  map (fun t => nanmean (window_at window t xs)) (seq 0 (length xs)).

(** Rounding to the nearest integer, ties to the even one. *)
Definition rint (q : Q) : Z :=
  let f := Qfloor q in
  match (q - inject_Z f ?= 1 # 2)%Q with
  | Lt => f
  | Gt => f + 1
  | Eq => if Z.even f then f else f + 1
  end.

Definition exact_round2 (q : Q) : Q := (inject_Z (rint (q * 100)) / 100)%Q.

Definition exact_arithmetic : Pandas.numeric :=
  {| Pandas.rolling_mean := exact_rolling_mean;
     Pandas.round2 := map (option_map exact_round2) |}.

Definition fixed_range (_ _ : option string) (_ : Z)
  : io nat (string * string) :=
  fun w => (Ret ("2024-01-01", "2024-03-01"), w).

(** An upstream answer in which one trading day comes twice. *)
Definition repeated_day : list Row :=
  [candle 2 (inject_Z 10); candle 1 (inject_Z 9); candle 2 (inject_Z 11)].

(** One task submitted and taken up by the only worker. *)
Definition morning_run : list (TaskService.action string) :=
  [TaskService.Submit "600519" "simple" "20240102_093000_000001";
   TaskService.Begin "2024-01-02T09:30:00"].

Definition first_job : TaskService.job :=
  {| TaskService.job_code := "600519";
     TaskService.job_task_id := "600519_20240102_093000_000001";
     TaskService.job_report_type := "simple" |}.

Definition one_running : TaskService.t string :=
  {| TaskService._max_workers := 1;
     TaskService._tasks :=
       {[ "600519_20240102_093000_000001" :=
            TaskService.initial_entry first_job "2024-01-02T09:30:00" ]};
     TaskService.queued := [];
     TaskService.in_flight := [first_job] |}.

Definition one_completed : TaskService.t string :=
  {| TaskService._max_workers := 1;
     TaskService._tasks :=
       {[ "600519_20240102_093000_000001" :=
            TaskService.finished (TaskService.Analysed "hold")
              "2024-01-02T09:31:07"
              (TaskService.initial_entry first_job "2024-01-02T09:30:00") ]};
     TaskService.queued := [];
     TaskService.in_flight := [] |}.

End Scenario.

(** ** NotificationService._chunk_markdown_by_bytes: the inner
       [split_by_bytes] *)

Module SplitByBytes.
Import Utf8.

(** The loop [while remaining: part = _truncate_to_bytes(remaining,
    limit); if not part: break; parts.append(part); remaining =
    remaining[len(part):]].  Every turn removes at least one character,
    so [fuel], the length of the text, is never exhausted before
    [remaining] is empty.  [None] is the UnicodeEncodeError of
    [_truncate_to_bytes]. *)
Fixpoint split_loop (fuel : nat) (remaining : pystr) (limit : Z)
  : option (list pystr) :=
  match remaining with
  | [] => Some []
  | _ :: _ =>
      match fuel with
      | O => Some []
      | S fuel' =>
          match Truncate._truncate_to_bytes remaining limit with
          | None => None
          | Some [] => Some []
          | Some part =>
              match split_loop fuel' (drop (length part) remaining) limit with
              | Some parts => Some (part :: parts)
              | None => None
              end
          end
      end
  end.

Definition split_by_bytes (text : pystr) (limit : Z) : option (list pystr) :=
  split_loop (length text) text limit.

End SplitByBytes.

(** ** NotificationService: the other chunkers (src/notification.py)

    As for the WeChat and Feishu senders, a sender that cuts the whole
    content before it sends anything is embedded as the list of payloads
    it hands, in order, to the channel's [_send_*_message].  The
    Telegram sender sends while it packs: it is embedded with its sends,
    in [TelegramSender]. *)

Module Chunkers.
Import Utf8 PyText Notification SplitByBytes.

(** The characters [str.strip()] removes: those for which
    [str.isspace] holds. *)
Definition is_whitespace (c : Z) : bool :=
  ((9 <=? c) && (c <=? 13)) || ((28 <=? c) && (c <=? 32))
  || (c =? 0x85) || (c =? 0xA0) || (c =? 0x1680)
  || ((0x2000 <=? c) && (c <=? 0x200A))
  || (c =? 0x2028) || (c =? 0x2029) || (c =? 0x202F) || (c =? 0x205F)
  || (c =? 0x3000).

Fixpoint lstrip (s : pystr) : pystr :=
  match s with
  | c :: r => if is_whitespace c then lstrip r else s
  | [] => []
  end.

Definition rstrip (s : pystr) : pystr := rev (lstrip (rev s)).

(** [s.strip()] *)
Definition strip (s : pystr) : pystr := rstrip (lstrip s).

(** One iteration of [for section in sections] of
    [_chunk_markdown_by_bytes]. *)
Definition chunk_section (separator : pystr) (sep_bytes max_bytes : Z)
    (st : packing) (section : pystr) : option packing :=
  match get_bytes section with
  | None => None
  | Some section_bytes =>
      let extra := match current_chunk st with [] => 0 | _ => sep_bytes end in
      if max_bytes <? section_bytes + extra then
        match split_by_bytes section (Z.max 200 (max_bytes - 200)) with
        | Some parts =>
            Some {| chunks := flush separator st ++ parts;
                    current_chunk := [];
                    current_bytes :=
                      match current_chunk st with
                      | [] => current_bytes st
                      | _ => 0
                      end |}
        | None => None
        end
      else if max_bytes <? current_bytes st + section_bytes + extra then
        Some {| chunks := chunks st ++ [join separator (current_chunk st)];
                current_chunk := [section];
                current_bytes := section_bytes |}
      else
        Some {| chunks := chunks st;
                current_chunk := current_chunk st ++ [section];
                current_bytes := current_bytes st + extra + section_bytes |}
  end.

Fixpoint chunk_sections (separator : pystr) (sep_bytes max_bytes : Z)
    (st : packing) (sections : list pystr) : option packing :=
  match sections with
  | [] => Some st
  | section :: rest =>
      match chunk_section separator sep_bytes max_bytes st section with
      | Some st' => chunk_sections separator sep_bytes max_bytes st' rest
      | None => None
      end
  end.

Definition nonempty (s : pystr) : bool :=
  match s with [] => false | _ => true end.

(** [_chunk_markdown_by_bytes(content, max_bytes)]; [None] is the
    UnicodeEncodeError of measuring text that does not encode. *)
Definition _chunk_markdown_by_bytes (content : pystr) (max_bytes : Z)
  : option (list pystr) :=
  let '(sections, separator) :=
    if contains sep_rule content then (split sep_rule content, sep_rule)
    else if contains sep_h3 content then
      (reheaded (lit "### ") (split sep_h3 content), [LF])
    else (split [LF] content, [LF]) in
  match get_bytes separator with
  | None => None
  | Some sep_bytes =>
      match chunk_sections separator sep_bytes max_bytes
              {| chunks := []; current_chunk := []; current_bytes := 0 |}
              sections with
      | Some st => Some (List.filter nonempty (map strip (flush separator st)))
      | None => None
      end
  end.

(** "────────" *)
Definition sep_line : pystr := repeat 0x2500 8.

(** One iteration of [for section in sections] of
    [_send_pushover_chunked]; [current_bytes] is [current_length]. *)
Definition pushover_section (separator : pystr) (max_length : Z)
    (st : packing) (section : pystr) : packing :=
  let new_length :=
    match current_chunk st with
    | [] => Z.of_nat (length section)
    | _ => current_bytes st + Z.of_nat (length separator)
           + Z.of_nat (length section)
    end in
  if max_length <? new_length then
    {| chunks := flush separator st;
       current_chunk := [section];
       current_bytes := Z.of_nat (length section) |}
  else
    {| chunks := chunks st;
       current_chunk := current_chunk st ++ [section];
       current_bytes := new_length |}.

Definition pushover_separator (content : pystr) : pystr :=
  if contains sep_line content then sep_line else [LF; LF].

Definition pushover_chunks (content : pystr) (max_length : Z) : list pystr :=
  let separator := pushover_separator content in
  flush separator
    (fold_left (pushover_section separator max_length)
       (split separator content)
       {| chunks := []; current_chunk := []; current_bytes := 0 |}).

(** [_send_pushover_chunked]: the [(message, title)] pairs handed to
    [_send_pushover_message]. *)
Definition _send_pushover_chunked (content title : pystr) (max_length : Z)
  : list (pystr * pystr) :=
  let chunks := pushover_chunks content max_length in
  let total_chunks := length chunks in
  imap (fun i chunk =>
          (chunk,
           if Nat.ltb 1 total_chunks
           then title ++ [32; 40] ++ str_of_nat (i + 1) ++ [47]
                ++ str_of_nat total_chunks ++ [41]
           else title)) chunks.

End Chunkers.

(** ** NotificationService._send_telegram_chunked (src/notification.py) *)

Module TelegramSender.
Import Utf8 PyText Notification.
Import Py.

Section Sender.
Context {W : Type}.

(** [self._send_telegram_message(api_url, chat_id, text,
    message_thread_id)] at the address, chat and thread of one call, as
    a function of the text: it posts with [requests.post], which nothing
    guards, so it answers [True] or [False], or raises. *)
Variable _send_telegram_message : pystr -> io W bool.

(** The variables of the loop; [chunk_index], which only numbers the
    log lines, is left out. *)
Record loop := {
  current_chunk : list pystr;
  current_length : Z;
  all_success : bool
}.

(** [if current_chunk: chunk_content = "\n---\n".join(current_chunk);
    if not self._send_telegram_message(...): all_success = False]; the
    value is [all_success] afterwards. *)
Definition send_current (st : loop) : io W bool :=
  match current_chunk st with
  | [] => ret (all_success st)
  | _ =>
      sent_ok ← _send_telegram_message (join sep_rule (current_chunk st));
      ret (if sent_ok : bool then all_success st else false)
  end.

(** One iteration of [for section in sections]; lengths are counted in
    characters. *)
Definition telegram_section (max_length : Z) (st : loop) (section : pystr)
  : io W loop :=
  let section_length := Z.of_nat (length section) + 5 in
  if max_length <? current_length st + section_length then
    success ← send_current st;
    ret {| current_chunk := [section];
           current_length := section_length;
           all_success := success |}
  else
    ret {| current_chunk := current_chunk st ++ [section];
           current_length := current_length st + section_length;
           all_success := all_success st |}.

Fixpoint telegram_sections (max_length : Z) (st : loop)
    (sections : list pystr) : io W loop :=
  match sections with
  | [] => ret st
  | section :: rest =>
      st' ← telegram_section max_length st section;
      telegram_sections max_length st' rest
  end.

(** [_send_telegram_chunked(api_url, chat_id, content, max_length,
    message_thread_id)] *)
Definition _send_telegram_chunked (content : pystr) (max_length : Z)
  : io W bool :=
  st ← telegram_sections max_length
         {| current_chunk := []; current_length := 0; all_success := true |}
         (split sep_rule content);
  send_current st.

(** The texts handed one after the other to [_send_telegram_message]
    from the world [w], each with what the call gave, and the world
    [w'] they leave. *)
Fixpoint sent (w : W) (msgs : list (pystr * outcome bool)) (w' : W) : Prop :=
  match msgs with
  | [] => w' = w
  | m :: rest =>
      exists w1, _send_telegram_message m.1 w = (m.2, w1) /\ sent w1 rest w'
  end.

(** The invariant of the loop after the sections [seen], begun in the
    world [w0]: the messages sent are the joins of consecutive non-empty
    groups of sections, [current_chunk] holds the sections after the
    last group, no send raised, [all_success] tells whether all
    answered [True]; and when no section seen has more than
    [max_length - 5] characters, neither has a message sent, and
    [current_length] counts five characters more than the joined
    [current_chunk] has. *)
Definition packed (max_length : Z) (w0 : W) (st : loop) (w : W)
    (seen : list pystr) : Prop :=
  exists (groups : list (list pystr)) (msgs : list (pystr * outcome bool))
         (answers : list bool),
    Forall (fun g => g <> []) groups
    /\ (concat groups ++ current_chunk st)%list = seen
    /\ map fst msgs = map (join sep_rule) groups
    /\ map snd msgs = map Ret answers
    /\ sent w0 msgs w
    /\ all_success st = forallb id answers
    /\ (Forall (fun s => Z.of_nat (length s) + 5 <= max_length) seen ->
        Forall (fun m => Z.of_nat (length m.1) + 5 <= max_length) msgs
        /\ (current_chunk st = [] -> current_length st = 0)
        /\ (current_chunk st <> [] ->
            current_length st
            = Z.of_nat (length (join sep_rule (current_chunk st))) + 5
            /\ current_length st <= max_length)).

(** A run that a raising send cut short, the sections being [sections]:
    the messages handed over are again joins of consecutive non-empty
    groups of the first sections, the last one raised [e], the others
    did not. *)
Definition cut_short (max_length : Z) (w0 : W) (e : string) (w : W)
    (sections : list pystr) : Prop :=
  exists (groups : list (list pystr)) (rest : list pystr)
         (msgs : list (pystr * outcome bool)) (answers : list bool),
    Forall (fun g => g <> []) groups
    /\ (concat groups ++ rest)%list = sections
    /\ map fst msgs = map (join sep_rule) groups
    /\ map snd msgs = (map Ret answers ++ [Raise e])%list
    /\ sent w0 msgs w
    /\ (Forall (fun s => Z.of_nat (length s) + 5 <= max_length) sections ->
        Forall (fun m => Z.of_nat (length m.1) + 5 <= max_length) msgs).

End Sender.

End TelegramSender.

(** ** Notions the properties of the chunkers are stated with *)

Module Measure.
Import Utf8.

(** Text that [str.encode('utf-8')] accepts. *)
Definition encodable (s : pystr) : Prop := is_Some (encode s).

(** A chunk that encodes and is at most [max_bytes] octets long. *)
Definition fits (max_bytes : Z) (c : pystr) : Prop :=
  encodable c /\ byte_len c <= max_bytes.

(** The cut that [_truncate_to_bytes] slices at. *)
Definition cut_at (encoded : pybytes) (max_bytes : Z) : nat :=
  length (PySlice.slice_to max_bytes encoded).

End Measure.

Module PackingInvariants.
Import Utf8 PyText Notification Measure.

(** The chunks written so far are the joins of consecutive non-empty
    groups of the sections seen, and [current_chunk] holds the sections
    after the last group. *)
Definition grouped (sep : pystr) (st : packing) (seen : list pystr) : Prop :=
  exists groups,
    chunks st = map (join sep) groups
    /\ Forall (fun g => g <> []) groups
    /\ (concat groups ++ current_chunk st)%list = seen.

(** [_send_pushover_chunked]: [current_length] is the length of the
    joined [current_chunk]. *)
Definition pushover_ok (sep : pystr) (max_length : Z) (st : packing) : Prop :=
  Forall (fun m => Z.of_nat (length m) <= max_length) (chunks st)
  /\ (current_chunk st <> [] ->
      current_bytes st = Z.of_nat (length (join sep (current_chunk st)))
      /\ current_bytes st <= max_length).

(** [_chunk_markdown_by_bytes]: [current_bytes] is the size of the
    joined [current_chunk]. *)
Definition md_ok (sep : pystr) (max_bytes : Z) (st : packing) : Prop :=
  Forall (fits max_bytes) (chunks st)
  /\ Forall encodable (current_chunk st)
  /\ (current_chunk st = [] -> current_bytes st = 0)
  /\ (current_chunk st <> [] ->
      current_bytes st = byte_len (join sep (current_chunk st))
      /\ current_bytes st <= max_bytes).

(** The loop of the WeChat and Feishu senders: [current_bytes] counts
    one separator more than the joined [current_chunk] has. *)
Definition pack_ok (sep : pystr) (limit : Z) (st : packing) : Prop :=
  Forall (fits limit) (chunks st)
  /\ Forall encodable (current_chunk st)
  /\ (current_chunk st = [] -> current_bytes st = 0)
  /\ (current_chunk st <> [] ->
      current_bytes st = byte_len (join sep (current_chunk st)) + byte_len sep
      /\ current_bytes st <= limit).

End PackingInvariants.

(** ** DataFetcherManager: the rest of the manager (data_provider/base.py) *)

Module ManagerMore.
Import Py Pandas DataFetcherManager.
Local Open Scope string_scope.

Section AddFetcher.
Context {W Quote Chip : Type}.

(** [add_fetcher]: [self._fetchers.append(fetcher)] and then
    [self._fetchers.sort(key=lambda f: f.priority)], which is stable. *)
Definition add_fetcher (self : list (Fetcher.t W Quote Chip))
    (fetcher : Fetcher.t W Quote Chip) : list (Fetcher.t W Quote Chip) :=
  sort_by by_priority (self ++ [fetcher]).

End AddFetcher.

Section Quotes.
Context {Quote Chip : Type}.
Variable has_basic_data : Quote -> bool.

(** A call for a quote whose answer [get_realtime_quote] does not
    return: it raised, gave [None], or gave a quote without basic
    data. *)
Definition unusable (e : event Quote Chip) : Prop :=
  match e with
  | CallQuote _ _ _ (Ret (Some q)) => has_basic_data q = false
  | _ => True
  end.

Definition quote_call_for (stock_code : string) (e : event Quote Chip) : Prop :=
  match e with
  | CallQuote _ code _ _ => code = stock_code
  | _ => False
  end.

End Quotes.

End ManagerMore.

(** *** The market overview: indices, statistics, sector rankings *)

Module MarketFetcher.
Import Py.

Section Fetcher.
Context {W Index Stat Sector : Type}.

(** The three methods every fetcher has, by inheritance from
    [BaseFetcher] when it does not define them; a dict is embedded as a
    finite map. *)
Record t := {
  name : string;
  get_main_indices : io W (option (list Index));
  get_market_stats : io W (option (gmap string Stat));
  get_sector_rankings : Z -> io W (option (list Sector * list Sector))
}.

End Fetcher.
Arguments t : clear implicits.

End MarketFetcher.

Module MarketOverview.
Import Py.
Local Open Scope string_scope.

Section Overview.
Context {W Index Stat Sector : Type}.

Abbreviation fetcher := (MarketFetcher.t W Index Stat Sector).

(** The world and, in order, the calls made with what they gave. *)
Record state (A : Type) := {
  world : W;
  calls : list (string * outcome (option A))
}.
Arguments world {A} _.
Arguments calls {A} _.

Definition call {A} (fetcher_name : string) (m : io W (option A))
  : io (state A) (option A) :=
  fun s =>
    let '(r, w) := m (world s) in
    (r, {| world := w; calls := (calls s ++ [(fetcher_name, r)])%list |}).

(** The loop the three methods share:
    [for fetcher in self._fetchers: try: data = method(); if data:
    return data / except Exception: continue] and the default after
    it. *)
Fixpoint failover {A} (truthy : A -> bool) (default : A)
    (method : fetcher -> io W (option A)) (fs : list fetcher)
  : io (state A) A :=
  match fs with
  | [] => ret default
  | f :: rest =>
      found ← try_except
        (data ← call (MarketFetcher.name f) (method f);
         match data with
         | Some d => if truthy d then ret (Some d) else ret None
         | None => ret None
         end)
        (fun _ => ret None);
      match found with
      | Some d => ret d
      | None => failover truthy default method rest
      end
  end.

Definition list_truthy {A} (l : list A) : bool :=
  match l with [] => false | _ => true end.

Definition dict_truthy (d : gmap string Stat) : bool :=
  negb (bool_decide (d = ∅)).

Definition get_main_indices (self : list fetcher)
  : io (state (list Index)) (list Index) :=
  failover list_truthy [] MarketFetcher.get_main_indices self.

Definition get_market_stats (self : list fetcher)
  : io (state (gmap string Stat)) (gmap string Stat) :=
  failover dict_truthy ∅ MarketFetcher.get_market_stats self.

(** A pair is true whatever its components. *)
Definition get_sector_rankings (self : list fetcher) (n : Z)
  : io (state (list Sector * list Sector)) (list Sector * list Sector) :=
  failover (fun _ => true) ([], [])
    (fun f => MarketFetcher.get_sector_rankings f n) self.

(** An attempt that the loop passes over: the fetcher raised, returned
    [None] or returned a value that is false. *)
Definition passed_over {A} (truthy : A -> bool)
    (a : fetcher * outcome (option A)) : Prop :=
  match a.2 with
  | Raise _ => True
  | Ret None => True
  | Ret (Some d) => truthy d = false
  end.

Definition recorded {A} (a : fetcher * outcome (option A))
  : string * outcome (option A) := (MarketFetcher.name a.1, a.2).

(** The attempts are what the fetchers' own [method] gave, one after the
    other, from the world [w], and [w'] is the world they leave. *)
Fixpoint asked {A} (method : fetcher -> io W (option A)) (w : W)
    (attempts : list (fetcher * outcome (option A))) (w' : W) : Prop :=
  match attempts with
  | [] => w' = w
  | a :: rest =>
      exists w1, method a.1 w = (a.2, w1) /\ asked method w1 rest w'
  end.

(** What a caller of one of the three methods can rely on: the method
    returns [data] and does not raise; the calls it made are calls of
    [method] on the fetchers of a prefix of the list, in order, one
    each, with the answers the fetchers gave on the world as the calls
    before left it; and either the last call answered [data], which is
    true, and every call before it was passed over, or every fetcher was
    called and passed over and [data] is the default. *)
Definition first_answer {A} (truthy : A -> bool) (default : A)
    (method : fetcher -> io W (option A))
    (self : list fetcher) (s : state A) (res : outcome A * state A) : Prop :=
  exists (data : A) (attempts : list (fetcher * outcome (option A))),
    res.1 = Ret data
    /\ asked method (world s) attempts (world res.2)
    /\ calls res.2 = (calls s ++ map recorded attempts)%list
    /\ map fst attempts `prefix_of` self
    /\ ((exists before f,
            attempts = (before ++ [(f, Ret (Some data))])%list
            /\ Forall (passed_over truthy) before
            /\ truthy data = true)
        \/ (map fst attempts = self
            /\ Forall (passed_over truthy) attempts
            /\ data = default)).

End Overview.

Arguments state : clear implicits.
Arguments world {W A} _.
Arguments calls {W A} _.

End MarketOverview.

(** *** DataFetcherManager.get_stock_name *)

Module NameFetcher.
Import Py.

Section Fetcher.
Context {W Quote Chip : Type}.

(** A fetcher together with the [get_stock_name] method the manager
    probes with [hasattr]. *)
Record t := {
  base : Fetcher.t W Quote Chip;
  get_stock_name : option (string -> io W (option string))
}.

End Fetcher.
Arguments t : clear implicits.

End NameFetcher.

Module StockName.
Import Py DataFetcherManager.
Local Open Scope string_scope.

Section Names.
Context {W Quote Chip : Type}.
Variable has_basic_data : Quote -> bool.

(** [quote.name] when the quote has the attribute. *)
Variable quote_name : Quote -> option string.

Abbreviation fetcher := (NameFetcher.t W Quote Chip).

(** The manager with its [_stock_name_cache]; [name_calls] records the
    calls of [fetcher.get_stock_name] with what they gave. *)
Record state := {
  manager : DataFetcherManager.state W Quote Chip;
  _stock_name_cache : gmap string string;
  name_calls : list (string * string * outcome (option string))
}.

Definition on_manager {A} (m : io (DataFetcherManager.state W Quote Chip) A)
  : io state A :=
  fun s =>
    let '(r, m') := m (manager s) in
    (r, {| manager := m'; _stock_name_cache := _stock_name_cache s;
           name_calls := name_calls s |}).

Definition call_name (f : fetcher) (m : io W (option string))
    (stock_code : string) : io state (option string) :=
  fun s =>
    let '(r, w) := m (world (manager s)) in
    (r, {| manager := {| world := w; trace := trace (manager s) |};
           _stock_name_cache := _stock_name_cache s;
           name_calls :=
             (name_calls s
              ++ [(Fetcher.name (NameFetcher.base f), stock_code, r)])%list |}).

(** [self._stock_name_cache[stock_code] = name] *)
Definition remember (stock_code name : string) : io state unit :=
  fun s =>
    (Ret tt, {| manager := manager s;
                _stock_name_cache := <[stock_code := name]> (_stock_name_cache s);
                name_calls := name_calls s |}).

(** A [str] is true when it is not empty. *)
Definition truthy (name : string) : bool := negb (String.eqb name "").

(** The [for fetcher in self._fetchers] of [get_stock_name]. *)
Fixpoint name_loop (fs : list fetcher) (stock_code : string)
  : io state (option string) :=
  match fs with
  | [] => ret None
  | f :: rest =>
      match NameFetcher.get_stock_name f with
      | Some method =>
          found ← try_except
            (name ← call_name f (method stock_code) stock_code;
             match name with
             | Some n =>
                 if truthy n then _ ← remember stock_code n; ret (Some n)
                 else ret None
             | None => ret None
             end)
            (fun _ => ret None);
          match found with
          | Some n => ret (Some n)
          | None => name_loop rest stock_code
          end
      | None => name_loop rest stock_code
      end
  end.

Definition get_stock_name (config : Config.t) (self : list fetcher)
    (stock_code : string) : io state (option string) :=
  fun s =>
    match _stock_name_cache s !! stock_code with
    | Some name => (Ret (Some name), s)
    | None =>
        (quote ← on_manager
                   (get_realtime_quote has_basic_data config
                      (map NameFetcher.base self) stock_code);
         match quote with
         | Some q =>
             match quote_name q with
             | Some name =>
                 if truthy name then
                   _ ← remember stock_code name; ret (Some name)
                 else name_loop self stock_code
             | None => name_loop self stock_code
             end
         | None => name_loop self stock_code
         end) s
    end.

(** What a pass through the sources does to the cache: it does not
    raise, and it writes the name it returns, which is not empty, under
    the code asked and nothing else. *)
Definition cache_step (stock_code : string) (s : state)
    (res : outcome (option string) * state) : Prop :=
  exists r,
    res.1 = Ret r
    /\ match r with
       | Some name =>
           truthy name = true
           /\ _stock_name_cache res.2
              = <[stock_code := name]> (_stock_name_cache s)
       | None => _stock_name_cache res.2 = _stock_name_cache s
       end.

End Names.

Arguments state : clear implicits.

End StockName.

(** ** Ticker classification: Hong Kong codes (data_provider/akshare_fetcher.py) *)

Module HkClassifier.
Local Open Scope string_scope.

Definition is_digit (c : ascii) : bool :=
  Nat.leb 48 (PyStr.ord c) && Nat.leb (PyStr.ord c) 57.

(** [s.isdigit()] on ASCII text: not empty and digits only. *)
Definition isdigit (s : string) : bool :=
  match PyStr.chars s with
  | [] => false
  | l => forallb is_digit l
  end.

Definition _is_hk_code (stock_code : string) : bool :=
  let code := PyStr.lower stock_code in
  if PyStr.startswith "hk" code then
    let numeric_part := PyStr.of_chars (drop 2 (PyStr.chars code)) in
    isdigit numeric_part
    && Nat.leb 1 (String.length numeric_part)
    && Nat.leb (String.length numeric_part) 5
  else isdigit code && Nat.eqb (String.length code) 5.

End HkClassifier.

(** ** Config: the watch list (src/config.py) *)

Module StockList.
Local Open Scope string_scope.

(** [[code.strip() for code in stock_list_str.split(',') if code.strip()]] *)
Definition parse (stock_list_str : string) : list string :=
  omap (fun code =>
          if String.eqb (PyStr.strip code) "" then None
          else Some (PyStr.strip code))
       (PyStr.split ","%char stock_list_str).

(** The watch list [_load_from_env] builds; [environ] is
    [os.environ.get('STOCK_LIST')]. *)
Definition load_stock_list (environ : option string) : list string :=
  let stock_list_str := default "" environ in
  match parse stock_list_str with
  | [] => ["2330.TW"; "2317.TW"; "2454.TW"]
  | stock_list => stock_list
  end.

(** [refresh_stock_list]: [env_file] is [None] when the .env file does
    not exist, and otherwise what [dotenv_values] has for STOCK_LIST. *)
Definition refresh_stock_list (env_file : option (option string))
    (environ : option string) : list string :=
  let stock_list_str :=
    match env_file with
    | Some env_values => PyStr.strip (default "" env_values)
    | None => ""
    end in
  let stock_list_str :=
    if String.eqb stock_list_str "" then default "" environ
    else stock_list_str in
  match parse stock_list_str with
  | [] => ["000001"]
  | stock_list => stock_list
  end.

(** A stock code as the watch list holds them: not empty, without a
    comma, and without white space at either end. *)
Definition clean_code (code : string) : Prop :=
  code <> ""
  /\ ~ In ","%char (PyStr.chars code)
  /\ PyStr.strip code = code.

End StockList.

(** ** TaskService: what a ledger entry looks like *)

Module TaskLedger.
Import TaskService.
Local Open Scope string_scope.

Section Ledger.
Context {Result : Type}.

(** A job as [submit_analysis] hands it to the executor: its task id is
    made of its code and a clock reading. *)
Definition job_as_submitted (j : job) : Prop :=
  exists now, job_task_id j = make_task_id (job_code j) now.

(** An entry as a reader of [get_task_status] may expect it under the
    key [id]: it carries its key, the key is made of the entry's code,
    and the fields go with the status: a running entry has no end time,
    result or error; a completed one has an end time and a result and no
    error; a failed one has an end time and an error and no result. *)
Definition well_formed (id : string) (e : entry Result) : Prop :=
  task_id e = id
  /\ (exists now, id = make_task_id (code e) now)
  /\ match status_of e with
     | running => end_time e = None /\ result e = None /\ error e = None
     | completed =>
         is_Some (end_time e) /\ is_Some (result e) /\ error e = None
     | failed => is_Some (end_time e) /\ result e = None /\ is_Some (error e)
     end.

(** What the ledger and the pool of a service look like together. *)
Record orderly (s : t Result) : Prop := {
  entries_well_formed :
    forall id e, _tasks s !! id = Some e -> well_formed id e;
  running_is_in_flight :
    forall id e, _tasks s !! id = Some e -> status_of e = running ->
                 exists j, j ∈ in_flight s /\ job_task_id j = id;
  jobs_as_submitted :
    forall j, j ∈ queued s \/ j ∈ in_flight s -> job_as_submitted j;
  workers_bounded : (length (in_flight s) <= _max_workers s)%nat
}.

End Ledger.

End TaskLedger.

(** ** NotificationService.send_to_wechat (src/notification.py) *)

Module WechatSender.
Import Utf8 PyText Notification.
Local Open Scope string_scope.

(** [self._wechat_url] as [if not self._wechat_url] reads it. *)
Definition url_configured (url : option string) : bool :=
  match url with
  | Some u => negb (String.eqb u "")
  | None => false
  end.

(** The size a message is held to: text messages are capped at 2000
    octets whatever WECHAT_MAX_BYTES says. *)
Definition wechat_limit (_wechat_msg_type : string) (_wechat_max_bytes : Z) : Z :=
  if String.eqb _wechat_msg_type "text" then Z.min _wechat_max_bytes 2000
  else _wechat_max_bytes.

(** [send_to_wechat]: the payloads handed to [_send_wechat_message];
    [None] is the UnicodeEncodeError of measuring the content, which is
    raised outside the [try]. *)
Definition send_to_wechat (_wechat_url : option string)
    (_wechat_msg_type : string) (_wechat_max_bytes : Z) (content : pystr)
  : option (list pystr) :=
  if negb (url_configured _wechat_url) then Some []
  else
    let max_bytes := wechat_limit _wechat_msg_type _wechat_max_bytes in
    match get_bytes content with
    | None => None
    | Some content_bytes =>
        if (max_bytes <? content_bytes)%Z
        then _send_wechat_chunked content max_bytes
        else Some [content]
    end.

(** Content that [_send_wechat_chunked] can cut at a rule, a heading or
    a bold line. *)
Definition has_wechat_separator (content : pystr) : bool :=
  contains sep_rule content || contains sep_h3 content
  || contains sep_h2 content || contains sep_bold content.

End WechatSender.

(** ** Short texts used to exercise the chunkers *)

Module Examples.
Import Utf8 PyText Notification.

(** "h你好" *)
Definition h_ni_hao : pystr := [104; 20320; 22909].
Definition h_ni_hao_encoded : pybytes := [104; 228; 189; 160; 229; 165; 189].

(** "ab\n---\n你" *)
Definition ab_rule_ni : pystr := lit "ab" ++ sep_rule ++ [20320].
Definition ab_rule_ni_encoded : pybytes :=
  [97; 98; 10; 45; 45; 45; 10; 228; 189; 160].

(** "ab\n## 你" *)
Definition ab_h2_ni : pystr := lit "ab" ++ sep_h2 ++ [20320].
Definition ab_h2_ni_encoded : pybytes :=
  [97; 98; 10; 35; 35; 32; 228; 189; 160].

(** "ab\n你" *)
Definition ab_lf_ni : pystr := lit "ab" ++ [LF] ++ [20320].
Definition ab_lf_ni_encoded : pybytes := [97; 98; 10; 228; 189; 160].

(** "ab\n\ncd" *)
Definition ab_blank_cd : pystr := lit "ab" ++ [LF; LF] ++ lit "cd".

(** A channel that keeps what it is given, in order, and refuses a text
    of more than [limit] characters by raising. *)
Definition outbox (limit : nat) (text : pystr) : Py.io (list pystr) bool :=
  fun w =>
    if Nat.ltb limit (length text) then (Py.Raise "ConnectionError", w)
    else (Py.Ret true, (w ++ [text])%list).

End Examples.

(** * Properties of the embedded code *)

Module Utf8Facts.
Import Utf8.

Ltac zdecide :=
  repeat match goal with
  | |- context [?a <? ?b] =>
      first [ replace (a <? b) with true by (symmetry; apply Z.ltb_lt; lia)
            | replace (a <? b) with false by (symmetry; apply Z.ltb_ge; lia) ]
  | |- context [?a <=? ?b] =>
      first [ replace (a <=? b) with true by (symmetry; apply Z.leb_le; lia)
            | replace (a <=? b) with false by (symmetry; apply Z.leb_gt; lia) ]
  end.

Lemma scalar_range (c : Z) :
  is_scalar c = true <-> (0 <= c < 0xD800 \/ 0xE000 <= c <= 0x10FFFF).
Proof.
  unfold is_scalar.
  rewrite orb_true_iff, !andb_true_iff, !Z.leb_le, !Z.ltb_lt. lia.
Qed.

Lemma cont_range (b : Z) : is_cont b = true <-> 0x80 <= b <= 0xBF.
Proof. unfold is_cont. rewrite andb_true_iff, !Z.leb_le. lia. Qed.

Lemma decode_unfold (bs : pybytes) :
  decode bs =
  match bs with
  | [] => Some []
  | b0 :: r =>
      if (0 <=? b0) && (b0 <? 0x80) then
        match decode r with Some s => Some (b0 :: s) | None => None end
      else if (0xC2 <=? b0) && (b0 <=? 0xDF) then
        match r with
        | b1 :: r1 =>
            if is_cont b1 then
              match decode r1 with
              | Some s => Some ((b0 - 0xC0) * 64 + (b1 - 0x80) :: s)
              | None => None
              end
            else None
        | _ => None
        end
      else if (0xE0 <=? b0) && (b0 <=? 0xEF) then
        match r with
        | b1 :: b2 :: r2 =>
            let c := (b0 - 0xE0) * 4096 + (b1 - 0x80) * 64 + (b2 - 0x80) in
            if is_cont b1 && is_cont b2 && (0x800 <=? c) && is_scalar c then
              match decode r2 with
              | Some s => Some (c :: s)
              | None => None
              end
            else None
        | _ => None
        end
      else if (0xF0 <=? b0) && (b0 <=? 0xF4) then
        match r with
        | b1 :: b2 :: b3 :: r3 =>
            let c := (b0 - 0xF0) * 262144 + (b1 - 0x80) * 4096
                     + (b2 - 0x80) * 64 + (b3 - 0x80) in
            if is_cont b1 && is_cont b2 && is_cont b3
               && (0x10000 <=? c) && (c <=? 0x10FFFF) then
              match decode r3 with
              | Some s => Some (c :: s)
              | None => None
              end
            else None
        | _ => None
        end
      else None
  end.
Proof. destruct bs; reflexivity. Qed.

Lemma decode_encode_cp (c : Z) (bs : pybytes) :
  is_scalar c = true ->
  decode (encode_cp c ++ bs) =
  match decode bs with Some s => Some (c :: s) | None => None end.
Proof.
  intros Hc. pose proof Hc as Hr. apply scalar_range in Hr. unfold encode_cp.
  assert (H1 := Z.div_mod c 64 ltac:(lia)).
  assert (H2 := Z.mod_pos_bound c 64 ltac:(lia)).
  assert (H3 := Z.div_mod (c / 64) 64 ltac:(lia)).
  assert (H4 := Z.mod_pos_bound (c / 64) 64 ltac:(lia)).
  assert (H5 : c / 4096 = c / 64 / 64) by (rewrite Z.div_div by lia; reflexivity).
  assert (H6 := Z.div_mod (c / 4096) 64 ltac:(lia)).
  assert (H7 := Z.mod_pos_bound (c / 4096) 64 ltac:(lia)).
  assert (H8 : c / 262144 = c / 4096 / 64) by (rewrite Z.div_div by lia; reflexivity).
  destruct (Z.ltb_spec c 0x80); [|destruct (Z.ltb_spec c 0x800); [|destruct (Z.ltb_spec c 0x10000)]].
  - cbn [app]. rewrite decode_unfold. zdecide. reflexivity.
  - cbn [app]. rewrite decode_unfold.
    replace (is_cont (128 + c mod 64)) with true by (symmetry; apply cont_range; lia).
    replace ((192 + c / 64 - 192) * 64 + (128 + c mod 64 - 128)) with c by lia.
    zdecide. reflexivity.
  - cbn [app]. rewrite decode_unfold. cbv zeta.
    replace (is_cont (128 + c mod 64)) with true by (symmetry; apply cont_range; lia).
    replace (is_cont (128 + (c / 64) mod 64)) with true by (symmetry; apply cont_range; lia).
    replace ((224 + c / 4096 - 224) * 4096 + (128 + (c / 64) mod 64 - 128) * 64
             + (128 + c mod 64 - 128)) with c by lia.
    rewrite Hc. zdecide. reflexivity.
  - cbn [app]. rewrite decode_unfold. cbv zeta.
    replace (is_cont (128 + c mod 64)) with true by (symmetry; apply cont_range; lia).
    replace (is_cont (128 + (c / 64) mod 64)) with true by (symmetry; apply cont_range; lia).
    replace (is_cont (128 + (c / 4096) mod 64)) with true by (symmetry; apply cont_range; lia).
    replace ((240 + c / 262144 - 240) * 262144 + (128 + (c / 4096) mod 64 - 128) * 4096
             + (128 + (c / 64) mod 64 - 128) * 64
             + (128 + c mod 64 - 128)) with c by lia.
    zdecide. reflexivity.
Qed.

Lemma decode_encode_app (s : pystr) (enc k : pybytes) :
  encode s = Some enc ->
  decode (enc ++ k) =
  match decode k with Some t => Some (s ++ t) | None => None end.
Proof.
  revert enc. induction s as [|c s IH]; intros enc He; simpl in He.
  - injection He as <-. simpl. destruct (decode k); reflexivity.
  - destruct (is_scalar c) eqn:Hc; [|discriminate].
    destruct (encode s) as [bs|] eqn:Hs; [|discriminate].
    injection He as <-. rewrite <- app_assoc, decode_encode_cp by exact Hc.
    rewrite (IH bs eq_refl). destruct (decode k); reflexivity.
Qed.

Lemma decode_encode (s : pystr) (enc : pybytes) :
  encode s = Some enc -> decode enc = Some s.
Proof.
  intros He. pose proof (decode_encode_app s enc [] He) as H.
  rewrite app_nil_r in H. rewrite H. simpl. by rewrite app_nil_r.
Qed.

Lemma encode_cp_1 c : 0 <= c < 0x80 -> encode_cp c = [c].
Proof. intros. unfold encode_cp. zdecide. reflexivity. Qed.

Lemma encode_cp_2 b0 b1 :
  0xC2 <= b0 <= 0xDF -> 0x80 <= b1 <= 0xBF ->
  encode_cp ((b0 - 0xC0) * 64 + (b1 - 0x80)) = [b0; b1].
Proof.
  intros. unfold encode_cp. zdecide.
  set (c := (b0 - 192) * 64 + (b1 - 128)).
  assert (c / 64 = b0 - 192) by (symmetry; apply (Z.div_unique c 64 _ (b1 - 128)); lia).
  assert (c mod 64 = b1 - 128) by (symmetry; apply (Z.mod_unique c 64 (b0 - 192)); lia).
  f_equal; [lia|]. f_equal. lia.
Qed.

Lemma encode_cp_3 b0 b1 b2 :
  0xE0 <= b0 <= 0xEF -> 0x80 <= b1 <= 0xBF -> 0x80 <= b2 <= 0xBF ->
  0x800 <= (b0 - 0xE0) * 4096 + (b1 - 0x80) * 64 + (b2 - 0x80) ->
  encode_cp ((b0 - 0xE0) * 4096 + (b1 - 0x80) * 64 + (b2 - 0x80)) = [b0; b1; b2].
Proof.
  intros. unfold encode_cp. zdecide.
  set (c := (b0 - 224) * 4096 + (b1 - 128) * 64 + (b2 - 128)) in *.
  assert (E1 : c / 64 = (b0 - 224) * 64 + (b1 - 128))
    by (symmetry; apply (Z.div_unique c 64 _ (b2 - 128)); lia).
  assert (c mod 64 = b2 - 128)
    by (symmetry; apply (Z.mod_unique c 64 ((b0 - 224) * 64 + (b1 - 128))); lia).
  assert (c / 4096 = b0 - 224)
    by (symmetry; apply (Z.div_unique c 4096 _ ((b1 - 128) * 64 + (b2 - 128))); lia).
  assert ((c / 64) mod 64 = b1 - 128)
    by (rewrite E1; symmetry; apply (Z.mod_unique _ 64 (b0 - 224)); lia).
  repeat (f_equal; try lia).
Qed.

Lemma encode_cp_4 b0 b1 b2 b3 :
  0xF0 <= b0 <= 0xF4 -> 0x80 <= b1 <= 0xBF -> 0x80 <= b2 <= 0xBF ->
  0x80 <= b3 <= 0xBF ->
  0x10000 <= (b0 - 0xF0) * 262144 + (b1 - 0x80) * 4096
             + (b2 - 0x80) * 64 + (b3 - 0x80) ->
  encode_cp ((b0 - 0xF0) * 262144 + (b1 - 0x80) * 4096
             + (b2 - 0x80) * 64 + (b3 - 0x80)) = [b0; b1; b2; b3].
Proof.
  intros. unfold encode_cp. zdecide.
  set (c := (b0 - 240) * 262144 + (b1 - 128) * 4096 + (b2 - 128) * 64 + (b3 - 128)) in *.
  assert (E1 : c / 64 = (b0 - 240) * 4096 + (b1 - 128) * 64 + (b2 - 128))
    by (symmetry; apply (Z.div_unique c 64 _ (b3 - 128)); lia).
  assert (c mod 64 = b3 - 128)
    by (symmetry; apply (Z.mod_unique c 64 ((b0 - 240) * 4096 + (b1 - 128) * 64 + (b2 - 128))); lia).
  assert (E2 : c / 4096 = (b0 - 240) * 64 + (b1 - 128))
    by (symmetry; apply (Z.div_unique c 4096 _ ((b2 - 128) * 64 + (b3 - 128))); lia).
  assert (c / 262144 = b0 - 240)
    by (symmetry; apply (Z.div_unique c 262144 _ ((b1 - 128) * 4096 + (b2 - 128) * 64 + (b3 - 128))); lia).
  assert ((c / 64) mod 64 = b2 - 128)
    by (rewrite E1; symmetry; apply (Z.mod_unique _ 64 ((b0 - 240) * 64 + (b1 - 128))); lia).
  assert ((c / 4096) mod 64 = b1 - 128)
    by (rewrite E2; symmetry; apply (Z.mod_unique _ 64 (b0 - 240)); lia).
  repeat (f_equal; try lia).
Qed.

Lemma decode_sound_len (n : nat) :
  forall (bs : pybytes) (s : pystr),
    (length bs < n)%nat -> decode bs = Some s -> encode s = Some bs.
Proof.
  induction n as [|n IH]; intros bs s Hn Hd; [lia|].
  rewrite decode_unfold in Hd.
  destruct bs as [|b0 r]; [by injection Hd as <-|].
  simpl in Hn.
  destruct ((0 <=? b0) && (b0 <? 128)) eqn:T1.
  { apply andb_true_iff in T1 as [?%Z.leb_le ?%Z.ltb_lt].
    destruct (decode r) as [t|] eqn:Hr; [|discriminate]. injection Hd as <-.
    simpl. replace (is_scalar b0) with true by (symmetry; apply scalar_range; lia).
    rewrite (IH r t) by (lia || done). by rewrite encode_cp_1 by lia. }
  destruct ((194 <=? b0) && (b0 <=? 223)) eqn:T2.
  { apply andb_true_iff in T2 as [?%Z.leb_le ?%Z.leb_le].
    destruct r as [|b1 r1]; [discriminate|].
    destruct (is_cont b1) eqn:K1; [|discriminate]. apply cont_range in K1.
    destruct (decode r1) as [t|] eqn:Hr; [|discriminate]. injection Hd as <-.
    simpl in Hn. simpl.
    replace (is_scalar _) with true by (symmetry; apply scalar_range; lia).
    rewrite (IH r1 t) by (lia || done). by rewrite encode_cp_2 by lia. }
  destruct ((224 <=? b0) && (b0 <=? 239)) eqn:T3.
  { apply andb_true_iff in T3 as [?%Z.leb_le ?%Z.leb_le].
    destruct r as [|b1 [|b2 r2]]; try discriminate. cbv zeta in Hd.
    destruct (is_cont b1 && is_cont b2 && _ && _) eqn:C; [|discriminate].
    rewrite !andb_true_iff in C. destruct C as [[[K1 K2] K3] K4].
    apply cont_range in K1, K2. apply Z.leb_le in K3.
    destruct (decode r2) as [t|] eqn:Hr; [|discriminate]. injection Hd as <-.
    simpl in Hn. simpl. rewrite K4.
    rewrite (IH r2 t) by (lia || done). by rewrite encode_cp_3 by lia. }
  destruct ((240 <=? b0) && (b0 <=? 244)) eqn:T4; [|discriminate].
  { apply andb_true_iff in T4 as [?%Z.leb_le ?%Z.leb_le].
    destruct r as [|b1 [|b2 [|b3 r3]]]; try discriminate. cbv zeta in Hd.
    destruct (is_cont b1 && is_cont b2 && is_cont b3 && _ && _) eqn:C; [|discriminate].
    rewrite !andb_true_iff in C. destruct C as [[[[K1 K2] K3] K4] K5].
    apply cont_range in K1, K2, K3. apply Z.leb_le in K4, K5.
    destruct (decode r3) as [t|] eqn:Hr; [|discriminate]. injection Hd as <-.
    simpl in Hn. simpl.
    replace (is_scalar _) with true by (symmetry; apply scalar_range; lia).
    rewrite (IH r3 t) by (lia || done). by rewrite encode_cp_4 by lia. }
Qed.

Lemma decode_sound (bs : pybytes) (s : pystr) :
  decode bs = Some s -> encode s = Some bs.
Proof. apply (decode_sound_len (S (length bs))). lia. Qed.

End Utf8Facts.

Module TruncateFacts.
Import Utf8 Truncate Utf8Facts.

Lemma walk_back_decodes (encoded : pybytes) (n : nat) :
  exists k, (k <= n)%nat /\ decode (take k encoded) = Some (walk_back encoded n).
Proof.
  induction n as [|n [k [Hk IH]]].
  - exists 0%nat. split; [lia|]. reflexivity.
  - cbn [walk_back].
    destruct (decode (take (S n) encoded)) as [s|] eqn:Hd.
    + exists (S n). split; [lia|]. exact Hd.
    + exists k. split; [lia|]. exact IH.
Qed.

Lemma decoded_prefix (text : pystr) (encoded : pybytes) (k : nat) (r : pystr) :
  encode text = Some encoded ->
  decode (take k encoded) = Some r ->
  r `prefix_of` text /\ encode r = Some (take k encoded).
Proof.
  intros He Hd. pose proof (decode_sound _ _ Hd) as Hr. split; [|exact Hr].
  pose proof (decode_encode_app r (take k encoded) (drop k encoded) Hr) as Happ.
  rewrite take_drop, (decode_encode _ _ He) in Happ.
  destruct (decode (drop k encoded)) as [t|]; [|discriminate].
  injection Happ as ->. by exists t.
Qed.

(** C8. For text that has a UTF-8 encoding and a non-negative budget,
    [_truncate_to_bytes] returns a prefix of the text (whole characters
    only); the encoding of the result is a prefix of the encoding of the
    text, decodes back to the result, and is at most [max_bytes] octets
    long; text that already fits is returned unchanged. *)
Theorem truncate_to_bytes_prefix_within_budget
    (text : pystr) (encoded : pybytes) (max_bytes : Z) :
  0 <= max_bytes ->
  encode text = Some encoded ->
  exists (r : pystr) (r_encoded : pybytes),
    _truncate_to_bytes text max_bytes = Some r
    /\ r `prefix_of` text
    /\ encode r = Some r_encoded
    /\ decode r_encoded = Some r
    /\ r_encoded `prefix_of` encoded
    /\ Z.of_nat (length r_encoded) <= max_bytes
    /\ (Z.of_nat (length encoded) <= max_bytes -> r = text).
Proof.
  intros Hmax He. unfold _truncate_to_bytes. rewrite He.
  destruct (Z.leb_spec (Z.of_nat (length encoded)) max_bytes) as [Hfit|Hbig].
  - exists text, encoded. repeat split; try done.
    by apply decode_encode.
  - unfold PySlice.slice_to.
    replace (max_bytes <? 0) with false by (symmetry; apply Z.ltb_ge; lia).
    destruct (walk_back_decodes encoded (length (take (Z.to_nat max_bytes) encoded)))
      as [k [Hk Hd]].
    rewrite length_take in Hk.
    destruct (decoded_prefix text encoded k _ He Hd) as [Hp Hr].
    eexists _, (take k encoded). repeat split; try done.
    + apply prefix_take.
    + rewrite length_take. lia.
    + lia.
Qed.

Lemma truncate_to_bytes_witness :
  0 <= 4
  /\ encode [0x4E2D; 0x6587; 65] = Some [228; 184; 173; 230; 150; 135; 65]
  /\ exists (r : pystr) (r_encoded : pybytes),
      _truncate_to_bytes [0x4E2D; 0x6587; 65] 4 = Some r
      /\ r `prefix_of` [0x4E2D; 0x6587; 65]
      /\ encode r = Some r_encoded
      /\ decode r_encoded = Some r
      /\ r_encoded `prefix_of` [228; 184; 173; 230; 150; 135; 65]
      /\ Z.of_nat (length r_encoded) <= 4
      /\ (Z.of_nat (length [228; 184; 173; 230; 150; 135; 65]) <= 4
          -> r = [0x4E2D; 0x6587; 65]).
Proof.
  split; [lia|]. split; [reflexivity|].
  apply (truncate_to_bytes_prefix_within_budget [0x4E2D; 0x6587; 65]
           [228; 184; 173; 230; 150; 135; 65] 4).
  - lia.
  - reflexivity.
Defined.

End TruncateFacts.

Module RegexFacts.
Import Regex.

Lemma nullable_lang (r : regex) : nullable r = true <-> lang r [].
Proof.
  induction r as [| |lo hi|r1 IH1 r2 IH2|r1 IH1 r2 IH2]; simpl.
  - split; [discriminate|]. inversion 1.
  - split; [constructor|done].
  - split; [discriminate|]. inversion 1.
  - rewrite andb_true_iff, IH1, IH2. split.
    + intros [H1 H2]. by apply (lang_cat _ _ [] []).
    + intros H. inversion H as [| |? ? u v Hu Hv [Heq1 Heq2] Heq| |]; subst.
      apply app_eq_nil in Heq as [-> ->]. done.
  - rewrite orb_true_iff, IH1, IH2. split.
    + intros [H|H]; [by apply lang_alt_l|by apply lang_alt_r].
    + inversion 1; subst; auto.
Qed.

Lemma deriv_lang (c : ascii) (r : regex) (w : list ascii) :
  lang (deriv c r) w <-> lang r (c :: w).
Proof.
  revert w.
  induction r as [| |lo hi|r1 IH1 r2 IH2|r1 IH1 r2 IH2]; intros w; simpl.
  - split; inversion 1.
  - split; inversion 1.
  - destruct (Nat.leb lo (PyStr.ord c) && Nat.leb (PyStr.ord c) hi) eqn:E.
    + apply andb_true_iff in E as [?%Nat.leb_le ?%Nat.leb_le]. split.
      * inversion 1; subst. by constructor.
      * inversion 1; subst. constructor.
    + split; [inversion 1|].
      inversion 1; subst.
      assert (Nat.leb lo (PyStr.ord c) && Nat.leb (PyStr.ord c) hi = true)
        by (apply andb_true_iff; split; by apply Nat.leb_le).
      congruence.
  - assert (Hcat : lang (Cat (deriv c r1) r2) w ->
                   lang (Cat r1 r2) (c :: w)).
    { intros H. inversion H as [| |? ? u v Hu Hv [Heq1 Heq2] Heq| |]; subst.
      apply IH1 in Hu. by apply (lang_cat _ _ (c :: u) v). }
    assert (Hback : lang (Cat r1 r2) (c :: w) ->
                    lang (Cat (deriv c r1) r2) w \/ (lang r1 [] /\ lang r2 (c :: w))).
    { intros H. inversion H as [| |? ? u v Hu Hv [Heq1 Heq2] Heq| |]; subst.
      destruct u as [|a u]; simpl in Heq.
      - subst v. by right.
      - injection Heq as -> <-. left. apply lang_cat; [by apply IH1|done]. }
    destruct (nullable r1) eqn:N.
    + split.
      * inversion 1; subst; [by apply Hcat|].
        apply (lang_cat _ _ [] (c :: w)); [by apply nullable_lang|by apply IH2].
      * intros H. destruct (Hback H) as [H'|[_ H']].
        -- by apply lang_alt_l.
        -- apply lang_alt_r. by apply IH2.
    + split; [apply Hcat|].
      intros H. destruct (Hback H) as [H'|[H' _]]; [done|].
      apply nullable_lang in H'. congruence.
  - split.
    + inversion 1; subst; [apply lang_alt_l; by apply IH1|apply lang_alt_r; by apply IH2].
    + inversion 1; subst; [apply lang_alt_l; by apply IH1|apply lang_alt_r; by apply IH2].
Qed.

Lemma fullmatch_lang (r : regex) (w : list ascii) :
  fullmatch r w = true <-> lang r w.
Proof.
  revert r. induction w as [|c w IH]; intros r; simpl.
  - apply nullable_lang.
  - rewrite IH. apply deriv_lang.
Qed.

End RegexFacts.

Module PyStrFacts.
Import PyStr.

Lemma chars_of_chars (l : list ascii) : chars (of_chars l) = l.
Proof. apply list_ascii_of_string_of_list_ascii. Qed.

Lemma lstrip_head (l : list ascii) :
  match lstrip_chars l with
  | [] => True
  | c :: _ => is_space c = false
  end.
Proof.
  induction l as [|c l IH]; simpl; [done|].
  destruct (is_space c) eqn:E; [exact IH|exact E].
Qed.

Lemma upper_char_not_lf (c : ascii) :
  is_space c = false -> Nat.eqb (ord (upper_char c)) 10 = false.
Proof.
  unfold is_space, upper_char. intros Hs.
  destruct (Nat.leb 97 (ord c) && Nat.leb (ord c) 122) eqn:E.
  - apply andb_true_iff in E as [?%Nat.leb_le ?%Nat.leb_le].
    unfold ord at 1. rewrite nat_ascii_embedding by lia.
    apply Nat.eqb_neq. lia.
  - apply Nat.eqb_neq. intros H10. rewrite H10 in Hs. discriminate.
Qed.

(** After [strip] and [upper] the text does not end in a line feed, so
    [$] can only match at its very end. *)
Lemma anchored_after_strip_upper (r : Regex.regex) (s : string) :
  Regex.match_anchored r (upper (strip s))
  = Regex.fullmatch r (chars (upper (strip s))).
Proof.
  unfold Regex.match_anchored, upper, strip. rewrite !chars_of_chars.
  unfold strip_chars. rewrite <- map_rev, rev_involutive.
  pose proof (lstrip_head (rev (lstrip_chars (chars s)))) as Hh.
  destruct (lstrip_chars (rev (lstrip_chars (chars s)))) as [|c l]; simpl.
  - by rewrite orb_false_r.
  - rewrite (upper_char_not_lf c Hh). simpl. by rewrite orb_false_r.
Qed.

End PyStrFacts.

Module ClassifierFacts.
Import Regex Classifier RegexFacts PyStrFacts.

Lemma lang_chr_iff lo hi w :
  lang (Chr lo hi) w <-> exists c, w = [c] /\ in_range lo hi c.
Proof.
  split.
  - inversion 1; subst. eexists. by split.
  - intros [c [-> [? ?]]]. by constructor.
Qed.

Lemma lang_cat_iff r1 r2 w :
  lang (Cat r1 r2) w <-> exists u v, w = (u ++ v)%list /\ lang r1 u /\ lang r2 v.
Proof.
  split.
  - inversion 1; subst. eauto.
  - intros [u [v [-> [? ?]]]]. by constructor.
Qed.

Lemma lang_opt_iff r w : lang (Opt r) w <-> w = [] \/ lang r w.
Proof.
  unfold Opt. split.
  - intros H. inversion H as [| | |? ? ? Hl|? ? ? Hr]; subst.
    + inversion Hl. by left.
    + by right.
  - intros [->|H]; [apply lang_alt_l; constructor|by apply lang_alt_r].
Qed.

Lemma lang_times lo hi k w :
  lang (Times k (Chr lo hi)) w <-> length w = k /\ Forall (in_range lo hi) w.
Proof.
  revert w. induction k as [|k IH]; intros w; simpl.
  - split.
    + inversion 1. by split.
    + intros [Hl _]. destruct w; [constructor|discriminate].
  - rewrite lang_cat_iff. split.
    + intros [u [v [-> [Hu Hv]]]]. apply lang_chr_iff in Hu as [c [-> Hc]].
      apply IH in Hv as [<- Hv]. split; [done|]. by constructor.
    + intros [Hl Hf]. destruct w as [|c w]; [discriminate|].
      inversion Hf; subst. exists [c], w. split; [done|]. split.
      * apply lang_chr_iff. eauto.
      * apply IH. simpl in Hl. split; [lia|done].
Qed.

Lemma lang_upto lo hi k w :
  lang (UpTo k (Chr lo hi)) w <-> (length w <= k)%nat /\ Forall (in_range lo hi) w.
Proof.
  revert w. induction k as [|k IH]; intros w; simpl.
  - split.
    + inversion 1. simpl. by split.
    + intros [Hl _]. destruct w; [constructor|simpl in Hl; lia].
  - rewrite lang_opt_iff, lang_cat_iff. split.
    + intros [->|[u [v [-> [Hu Hv]]]]]; [simpl; split; [lia|constructor]|].
      apply lang_chr_iff in Hu as [c [-> Hc]].
      apply IH in Hv as [Hl Hv]. simpl. split; [lia|]. by constructor.
    + intros [Hl Hf]. destruct w as [|c w]; [by left|right].
      inversion Hf; subst. exists [c], w. split; [done|]. split.
      * apply lang_chr_iff. eauto.
      * apply IH. simpl in Hl. split; [lia|done].
Qed.

Lemma lang_between lo hi m n w :
  (m <= n)%nat ->
  lang (Between m n (Chr lo hi)) w
  <-> (m <= length w)%nat /\ (length w <= n)%nat /\ Forall (in_range lo hi) w.
Proof.
  intros Hmn. unfold Between. rewrite lang_cat_iff. split.
  - intros [u [v [-> [Hu Hv]]]].
    apply lang_times in Hu as [Hlu Hfu]. apply lang_upto in Hv as [Hlv Hfv].
    rewrite length_app. repeat split; try lia. by apply Forall_app.
  - intros [H1 [H2 Hf]]. exists (take m w), (drop m w).
    split; [by rewrite take_drop|]. split.
    + apply lang_times. split; [rewrite length_take; lia|by apply Forall_take].
    + apply lang_upto. split; [rewrite length_drop; lia|by apply Forall_drop].
Qed.

Lemma dot_only c : in_range 46 46 c <-> c = "."%char.
Proof.
  unfold in_range, PyStr.ord. split.
  - intros [Hlo Hhi]. assert (H46 : nat_of_ascii c = 46%nat) by lia.
    rewrite <- (ascii_nat_embedding c), H46. reflexivity.
  - intros ->. vm_compute. lia.
Qed.

Lemma us_pattern_shape (w : list ascii) : lang us_pattern w <-> us_shape w.
Proof.
  unfold us_pattern, us_shape, upper_letter, dot, capital.
  rewrite lang_cat_iff. split.
  - intros [u [v [-> [Hu Hv]]]]. apply lang_between in Hu as [? [? ?]]; [|lia].
    exists u, v. repeat split; try done.
    apply lang_opt_iff in Hv as [->|Hv]; [by left|right].
    apply lang_cat_iff in Hv as [a [b [-> [Ha Hb]]]].
    apply lang_chr_iff in Ha as [d [-> Hd%dot_only]].
    apply lang_chr_iff in Hb as [c [-> Hc]]. subst d. by exists c.
  - intros [u [v [-> [[? ?] [Hf Hs]]]]]. exists u, v. split; [done|]. split.
    + apply (proj2 (lang_between 65 90 1 5 u ltac:(lia))). done.
    + apply lang_opt_iff. destruct Hs as [->|[c [-> Hc]]]; [by left|right].
      apply (lang_cat _ _ ["."%char] [c]); apply lang_chr_iff; eexists; split; try done.
Qed.

Lemma is_us_code_shape (raw : string) :
  _is_us_code raw = true
  <-> us_shape (PyStr.chars (PyStr.upper (PyStr.strip raw))).
Proof.
  unfold _is_us_code. rewrite anchored_after_strip_upper, fullmatch_lang.
  apply us_pattern_shape.
Qed.


End ClassifierFacts.

Module SortFacts.
Import Pandas.

Section Sorting.
Context {A : Type} (leb : A -> A -> bool).
Hypothesis leb_total : forall a b, leb a b = true \/ leb b a = true.

Local Abbreviation R := (fun a b : A => leb a b = true).

Lemma insert_sorted_perm (x : A) (l : list A) :
  Permutation (insert_sorted leb x l) (x :: l).
Proof.
  induction l as [|y l IH]; simpl; [done|].
  destruct (leb x y); [done|].
  rewrite IH. apply perm_swap.
Qed.

Lemma sort_by_perm (l : list A) : Permutation (sort_by leb l) l.
Proof.
  induction l as [|x l IH]; simpl; [done|].
  rewrite insert_sorted_perm. by constructor.
Qed.

Lemma insert_sorted_hd (x a : A) (l : list A) :
  R a x -> HdRel R a l -> HdRel R a (insert_sorted leb x l).
Proof.
  intros Hax Hl. destruct l as [|y l]; simpl; [by constructor|].
  destruct (leb x y); constructor; [done|]. by inversion Hl.
Qed.

Lemma insert_sorted_sorted (x : A) (l : list A) :
  Sorted R l -> Sorted R (insert_sorted leb x l).
Proof.
  induction 1 as [|y l Hs IH Hhd]; simpl; [by repeat constructor|].
  destruct (leb x y) eqn:E.
  - constructor; [by constructor|]. by constructor.
  - constructor; [exact IH|]. apply insert_sorted_hd; [|done].
    destruct (leb_total x y) as [H|H]; [congruence|exact H].
Qed.

Lemma sort_by_sorted (l : list A) : Sorted R (sort_by leb l).
Proof.
  induction l as [|x l IH]; simpl; [constructor|].
  by apply insert_sorted_sorted.
Qed.

End Sorting.

End SortFacts.

Module ManagerFacts.
Import Py Pandas DataFetcherManager.
Local Open Scope string_scope.

Ltac io_unfold :=
  unfold mbind, io_bind, mret, io_ret, Py.bind, Py.ret, Py.raise,
    Py.try_except, Py.lift, call, log in *.

Section Facts.
Context {W Quote Chip : Type}.
Variable has_basic_data : Quote -> bool.
Abbreviation fetcher := (Fetcher.t W Quote Chip).
Abbreviation state := (DataFetcherManager.state W Quote Chip).
Abbreviation event := (DataFetcherManager.event Quote Chip).
Abbreviation attempt := (DataFetcherManager.attempt W Quote Chip).

Lemma find_fetcher_name (n : string) (fs : list fetcher) (f : fetcher) :
  find_fetcher n fs = Some f -> Fetcher.name f = n.
Proof.
  unfold find_fetcher. intros H. apply find_some in H as [_ H].
  by apply String.eqb_eq.
Qed.

(** C10. With [enable_realtime_quote] off, [get_realtime_quote] returns
    [None] for every stock code and leaves the world and the record of
    calls as they were: no fetcher, cache or breaker is consulted. *)
Theorem realtime_quote_disabled
    (config : Config.t) (self : list fetcher) (stock_code : string) (s : state) :
  Config.enable_realtime_quote config = false ->
  get_realtime_quote has_basic_data config self stock_code s = (Ret None, s).
Proof. intros H. unfold get_realtime_quote. rewrite H. reflexivity. Qed.

Lemma quote_from_trace fs n v code (s : state) :
  exists evs, trace (quote_from fs n v code s).2 = (trace s ++ evs)%list
              /\ forallb is_call_quote evs = true.
Proof.
  unfold quote_from.
  destruct (find_fetcher n fs) as [f|]; [|exists []; by rewrite app_nil_r].
  destruct (Fetcher.get_realtime_quote f) as [m|]; [|exists []; by rewrite app_nil_r].
  io_unfold. destruct (m code v (world s)) as [r w] eqn:E. simpl.
  by eexists [_].
Qed.

Lemma quote_loop_trace fs code (sources : list string) (s : state) :
  exists r evs,
    (quote_loop has_basic_data fs code sources s).1 = Ret r
    /\ trace (quote_loop has_basic_data fs code sources s).2 = (trace s ++ evs)%list
    /\ forallb is_call_quote evs = true.
Proof.
  revert s. induction sources as [|source rest IH]; intros s.
  - exists None, []. simpl. by rewrite app_nil_r.
  - cbn [quote_loop].
    set (src := PyStr.lower (PyStr.strip source)).
    assert (Hq : exists evs,
               trace ((match source_route src with
                       | Some (fetcher_name, variant) => quote_from fs fetcher_name variant code
                       | None => ret None
                       end) s).2 = (trace s ++ evs)%list
               /\ forallb is_call_quote evs = true).
    { destruct (source_route src) as [[n v]|]; [apply quote_from_trace|].
      exists []. by rewrite app_nil_r. }
    destruct Hq as [evs [Ht Hall]].
    io_unfold.
    destruct ((match source_route src with
               | Some (fetcher_name, variant) => quote_from fs fetcher_name variant code
               | None => fun s0 => (Ret None, s0)
               end) s) as [r1 s1] eqn:E1.
    simpl in Ht.
    assert (Hrest : forall s1', trace s1' = trace s1 ->
              exists r evs',
                (quote_loop has_basic_data fs code rest s1').1 = Ret r
                /\ trace (quote_loop has_basic_data fs code rest s1').2
                   = (trace s ++ evs')%list
                /\ forallb is_call_quote evs' = true).
    { intros s1' Hs1. destruct (IH s1') as [r [evs' [Hr [Ht' Hall']]]].
      exists r, (evs ++ evs')%list. split; [done|]. split.
      - rewrite Ht', Hs1, Ht. by rewrite app_assoc.
      - rewrite forallb_app. by rewrite Hall, Hall'. }
    destruct r1 as [[q|]|msg]; simpl.
    + destruct (has_basic_data q); simpl.
      * exists (Some q), evs. done.
      * by apply Hrest.
    + by apply Hrest.
    + by apply Hrest.
Qed.

Lemma get_realtime_quote_trace config fs code (s : state) :
  exists r evs,
    (get_realtime_quote has_basic_data config fs code s).1 = Ret r
    /\ trace (get_realtime_quote has_basic_data config fs code s).2
       = (trace s ++ evs)%list
    /\ forallb is_call_quote evs = true.
Proof.
  unfold get_realtime_quote.
  destruct (negb (Config.enable_realtime_quote config)).
  { exists None, []. simpl. by rewrite app_nil_r. }
  destruct (Classifier._is_us_code code); [|apply quote_loop_trace].
  destruct (find_fetcher "YfinanceFetcher" fs) as [f|];
    [|exists None, []; simpl; by rewrite app_nil_r].
  destruct (Fetcher.get_realtime_quote f) as [m|];
    [|exists None, []; simpl; by rewrite app_nil_r].
  io_unfold. destruct (m code None (world s)) as [r w] eqn:E. simpl.
  destruct r as [q|msg]; simpl; by eexists _, [_].
Qed.


(** *** get_daily_data *)

Lemma daily_loop_spec fs code st en days errors (s : state) :
  let res := daily_loop fs code st en days errors s in
  exists attempts : list attempt,
    trace res.2 = (trace s ++ map (attempt_event code) attempts)%list
    /\ map fst attempts `prefix_of` fs
    /\ answered code st en days (world s) attempts (world res.2)
    /\ match res.1 with
       | Ret (df, n) =>
           exists failed_ones f,
             attempts = (failed_ones ++ [(f, Ret (Some df))])%list
             /\ Forall failed_attempt failed_ones
             /\ empty df = false
             /\ n = Fetcher.name f
       | Raise msg =>
           map fst attempts = fs
           /\ Forall failed_attempt attempts
           /\ msg = error_summary code (errors ++ omap attempt_error attempts)%list
       end.
Proof.
  revert errors s. induction fs as [|f rest IH]; intros errors s; cbn zeta.
  - exists []. simpl. rewrite !app_nil_r. repeat split; try done.
  - cbn [daily_loop]. io_unfold.
    destruct (Fetcher.get_daily_data f code st en days (world s)) as [r w] eqn:E.
    set (s1 := {| world := w; trace := (trace s ++ [CallDaily (Fetcher.name f) code r])%list |}).
    assert (Hnext : forall errors',
      failed_attempt (f, r) ->
      errors' = (errors ++ from_option (fun x => [x]) [] (attempt_error (f, r)))%list ->
      let res := daily_loop rest code st en days errors' s1 in
      exists attempts : list attempt,
        trace res.2 = (trace s ++ map (attempt_event code) attempts)%list
        /\ map fst attempts `prefix_of` f :: rest
        /\ answered code st en days (world s) attempts (world res.2)
        /\ match res.1 with
           | Ret (df, n) =>
               exists failed_ones f0,
                 attempts = (failed_ones ++ [(f0, Ret (Some df))])%list
                 /\ Forall failed_attempt failed_ones
                 /\ empty df = false
                 /\ n = Fetcher.name f0
           | Raise msg =>
               map fst attempts = f :: rest
               /\ Forall failed_attempt attempts
               /\ msg = error_summary code (errors ++ omap attempt_error attempts)%list
           end).
    { intros errors' Hfail ->. cbn zeta.
      destruct (IH (errors ++ from_option (fun x => [x]) [] (attempt_error (f, r)))%list s1)
        as [attempts [Ht [Hp [Hw Hres]]]].
      exists ((f, r) :: attempts). split; [|split; [|split]].
      - rewrite Ht. subst s1. simpl. by rewrite <- app_assoc.
      - simpl. by apply prefix_cons.
      - simpl. exists w. split; [exact E|exact Hw].
      - destruct (daily_loop rest code st en days _ s1).1 as [[df n]|msg].
        + destruct Hres as [failed_ones [f0 [-> [Hf [He Hn]]]]].
          exists ((f, r) :: failed_ones), f0. repeat split; try done.
          by constructor.
        + destruct Hres as [Hm [Hf ->]]. split; [|split].
          * simpl. by rewrite Hm.
          * by constructor.
          * f_equal. rewrite <- app_assoc. f_equal.
            unfold attempt_error at 2. simpl.
            destruct r as [o|e]; reflexivity. }
    destruct r as [[d|]|e]; simpl.
    + destruct (empty d) eqn:Hd; simpl.
      * apply (Hnext errors); [exact Hd|]. simpl. by rewrite app_nil_r.
      * exists [(f, Ret (Some d))]. simpl. split; [done|]. split.
        -- apply prefix_cons, prefix_nil.
        -- split; [by exists w|]. exists [], f. repeat split; try done.
    + apply (Hnext errors); [exact I|]. simpl. by rewrite app_nil_r.
    + apply (Hnext (errors ++ [failure_line f e])%list); [exact I|]. reflexivity.
Qed.

Lemma by_priority_total (a b : fetcher) :
  by_priority a b = true \/ by_priority b a = true.
Proof. unfold by_priority. rewrite !Z.leb_le. lia. Qed.



(** *** get_realtime_quote for US tickers *)


(** *** prefetch_realtime_quotes *)

(** C7, as the code has it.  Unless real-time quotes are enabled, one of
    the first two entries of the priority list is a bulk source and at
    least five codes are given, [prefetch_realtime_quotes] returns 0 and
    does nothing.  Otherwise it makes exactly one [get_realtime_quote]
    request, for the first code, and returns the number of codes when
    that request yields a quote and 0 when it does not. *)
Theorem prefetch_needs_bulk_source_among_first_two
    (config : Config.t) (self : list fetcher) (stock_codes : list string)
    (s : state) :
  PyStr.ascii_only (Config.realtime_source_priority config) = true ->
  let res := prefetch_realtime_quotes has_basic_data config self stock_codes s in
  if prefetch_applies config stock_codes then
    exists first_code rest quote evs s1,
      stock_codes = first_code :: rest
      /\ get_realtime_quote has_basic_data config self first_code
           {| world := world s;
              trace := (trace s ++ [QuoteRequested first_code])%list |}
         = (Ret quote, s1)
      /\ trace s1 = (trace s ++ QuoteRequested first_code :: evs)%list
      /\ forallb is_call_quote evs = true
      /\ res = (Ret (match quote with
                     | Some _ => Z.of_nat (length stock_codes)
                     | None => 0%Z
                     end), s1)
  else res = (Ret 0%Z, s).
Proof.
  intros _ res. subst res. unfold prefetch_applies, prefetch_realtime_quotes.
  destruct (Config.enable_realtime_quote config); cbn [negb andb]; [|done].
  destruct (first_bulk_source_index _) as [i|]; cbn [andb]; [|done].
  rewrite (Nat.leb_antisym i 2). destruct (Nat.ltb i 2); cbn [negb andb]; [|done].
  rewrite (Nat.ltb_antisym 5 (length stock_codes)).
  destruct (Nat.leb 5 (length stock_codes)) eqn:Hlen; cbn [negb]; [|done].
  destruct stock_codes as [|first_code rest]; [discriminate|].
  io_unfold.
  set (s0 := {| world := world s; trace := (trace s ++ [QuoteRequested first_code])%list |}).
  destruct (get_realtime_quote_trace config self first_code s0) as [q [evs [Hr [Ht Hall]]]].
  destruct (get_realtime_quote has_basic_data config self first_code s0) as [r s1] eqn:E.
  simpl in Hr, Ht. subst r.
  exists first_code, rest, q, evs, s1. repeat split; try done.
  - rewrite Ht. subst s0. simpl. by rewrite <- app_assoc.
  - destruct q; reflexivity.
Qed.


(** *** get_chip_distribution *)

Lemma chip_loop_spec (cb : CircuitBreaker W) (fs : list fetcher) (code : string)
    (sources : list (string * string)) (s : state) :
  breaker_total cb ->
  let res := chip_loop cb fs code sources s in
  exists chip evs,
    res.1 = Ret chip
    /\ trace res.2 = (trace s ++ evs)%list
    /\ chip_protocol cb fs code sources (world s) evs (world res.2) chip.
Proof.
  intros [Hask [Hok Hfail]]. revert s.
  induction sources as [|[n k] rest IH]; intros s; cbn zeta.
  - exists None, []. simpl. rewrite app_nil_r. repeat split; try done. constructor.
  - cbn [chip_loop]. unfold ask_breaker, note_success, note_failure. io_unfold.
    destruct (Hask k (world s)) as [a [w0 Ea]]. rewrite Ea.
    set (s0 := {| world := w0;
                  trace := (trace s ++ [BreakerAsked k (Ret a)])%list |}).
    assert (Hgo : forall (s1 : state) (mid : list event),
      trace s1 = (trace s0 ++ mid)%list ->
      (forall evs w' r,
          chip_protocol cb fs code rest (world s1) evs w' r ->
          chip_protocol cb fs code ((n, k) :: rest) (world s)
            (BreakerAsked k (Ret a) :: mid ++ evs) w' r) ->
      let res := chip_loop cb fs code rest s1 in
      exists chip evs,
        res.1 = Ret chip
        /\ trace res.2 = (trace s ++ evs)%list
        /\ chip_protocol cb fs code ((n, k) :: rest) (world s) evs
             (world res.2) chip).
    { intros s1 mid Ht Hp. cbn zeta.
      destruct (IH s1) as [chip [evs [Hr [Ht' Hp']]]].
      exists chip, (BreakerAsked k (Ret a) :: mid ++ evs)%list. repeat split.
      - done.
      - rewrite Ht', Ht. subst s0. simpl. rewrite <- !app_assoc. done.
      - by apply Hp. }
    destruct a; simpl.
    + destruct (find_fetcher n fs) as [f|] eqn:Hf; simpl.
      * destruct (Fetcher.get_chip_distribution f) as [m|] eqn:Hm; simpl.
        -- destruct (m code w0) as [r w1] eqn:Em. simpl.
           destruct r as [[c|]|e]; simpl.
           ++ destruct (Hok k w1) as [w2 Eok]. rewrite Eok. simpl.
              eexists (Some c), [_; _; _]. repeat split.
              ** simpl. rewrite <- !app_assoc. reflexivity.
              ** simpl. by apply (protocol_found cb fs code n k rest f m c
                                    (world s) w0 w1 w2).
           ++ apply (Hgo {| world := w1;
                            trace := (trace s0
                                      ++ [CallChip (Fetcher.name f) code
                                            (Ret None)])%list |}
                         [CallChip (Fetcher.name f) code (Ret None)]); [done|].
              intros evs w' r Hrun. simpl in Hrun.
              by apply (protocol_nothing cb fs code n k rest f m
                          (world s) w0 w1).
           ++ destruct (Hfail k e w1) as [w2 Efail]. rewrite Efail. simpl.
              apply (Hgo {| world := w2;
                            trace := ((trace s0
                                       ++ [CallChip (Fetcher.name f) code
                                             (Raise e)])
                                      ++ [BreakerFailure k e (Ret tt)])%list |}
                         [CallChip (Fetcher.name f) code (Raise e);
                          BreakerFailure k e (Ret tt)]);
                [simpl; by rewrite <- app_assoc|].
              intros evs w' r Hrun. simpl in Hrun.
              by apply (protocol_raised cb fs code n k rest f m e
                          (world s) w0 w1 w2).
        -- apply (Hgo s0 []); [by rewrite app_nil_r|].
           intros evs w' r Hrun. simpl in Hrun. simpl.
           apply (protocol_no_method cb fs code n k rest (world s) w0);
             [done| |done]. by rewrite Hf.
      * apply (Hgo s0 []); [by rewrite app_nil_r|].
        intros evs w' r Hrun. simpl in Hrun. simpl.
        apply (protocol_no_method cb fs code n k rest (world s) w0);
          [done| |done]. by rewrite Hf.
    + apply (Hgo s0 []); [by rewrite app_nil_r|].
      intros evs w' r Hrun. simpl in Hrun. simpl.
      by apply (protocol_unavailable cb fs code n k rest (world s) w0).
Qed.

Lemma chip_loop_guarded (cb : CircuitBreaker W) (fs : list fetcher) (code : string)
    (sources : list (string * string)) (s : state) :
  breaker_total cb ->
  Forall akshare_chip_method fs ->
  Classifier._is_us_code code = true \/ Classifier._is_etf_code code = true ->
  (chip_loop cb fs code sources s).1 = Ret None.
Proof.
  intros [Hask [Hok Hfail]] Hall Hcode. revert s.
  induction sources as [|[n k] rest IH]; intros s; [done|].
  cbn [chip_loop]. unfold ask_breaker, note_success, note_failure. io_unfold.
  destruct (Hask k (world s)) as [a [w0 Ea]]. rewrite Ea.
  destruct a; simpl; [|apply IH].
  destruct (find_fetcher n fs) as [f|] eqn:Hf; simpl; [|apply IH].
  assert (Hg : akshare_chip_method f).
  { apply find_some in Hf as [Hin _]. rewrite List.Forall_forall in Hall. by apply Hall. }
  unfold akshare_chip_method in Hg.
  destruct (Fetcher.get_chip_distribution f) as [m|]; simpl; [|apply IH].
  destruct Hg as [imp [latest ->]].
  unfold AkshareFetcher.get_chip_distribution. io_unfold.
  destruct (imp w0) as [[[]|e] w1]; simpl.
  - destruct Hcode as [Hus|Hetf].
    + rewrite Hus. simpl. apply IH.
    + rewrite Hetf. destruct (Classifier._is_us_code code); simpl; apply IH.
  - destruct (Hfail k e w1) as [w2 Efail]. rewrite Efail. simpl. apply IH.
Qed.

(** X23. What [get_chip_distribution] does keep.  As long as the chip
    breaker's own methods do not raise, it never raises.  With the
    feature flag off it returns [None] and touches nothing.  With the
    flag on it goes through the three chip sources in order, on the
    world: each source is called only after the breaker has reported
    its key available, a call that raises is followed at once by
    [record_failure] on that key with the message raised, before the
    next source is considered, and a call that yields a distribution is
    followed by [record_success] and ends the search.  For a US ticker
    or an ETF code (ASCII) the chip method of AkshareFetcher, the only
    one the data providers define, yields nothing, so the result is
    [None]. *)
Theorem chip_distribution_gated_and_total
    (config : Config.t) (cb : CircuitBreaker W) (self : list fetcher)
    (stock_code : string) (s : state) :
  breaker_total cb ->
  let res := get_chip_distribution config cb self stock_code s in
  (exists chip, res.1 = Ret chip)
  /\ (Config.enable_chip_distribution config = false -> res = (Ret None, s))
  /\ (Config.enable_chip_distribution config = true ->
      exists chip evs,
        res.1 = Ret chip
        /\ trace res.2 = (trace s ++ evs)%list
        /\ chip_protocol cb self stock_code chip_sources (world s) evs
             (world res.2) chip)
  /\ (PyStr.ascii_only stock_code = true ->
      Classifier._is_us_code stock_code = true
      \/ Classifier._is_etf_code stock_code = true ->
      Forall akshare_chip_method self ->
      res.1 = Ret None).
Proof.
  intros Htot. cbn zeta. unfold get_chip_distribution.
  destruct (Config.enable_chip_distribution config) eqn:Hflag; cbn [negb].
  - destruct (chip_loop_spec cb self stock_code chip_sources s Htot)
      as [chip [evs [Hr [Ht Hp]]]].
    split; [by exists chip|]. split; [done|]. split; [by exists chip, evs|].
    intros _ Hcode Hall. by apply chip_loop_guarded.
  - split; [by exists None|]. split; [done|]. split; [done|done].
Qed.

End Facts.

(** *** The theorems at concrete inputs *)

Import Scenario.

Lemma chip_distribution_gated_witness :
  breaker_total breaker
  /\ PyStr.ascii_only "TSLA" = true
  /\ (Classifier._is_us_code "TSLA" = true
      \/ Classifier._is_etf_code "TSLA" = true)
  /\ Forall akshare_chip_method fetchers
  /\ (get_chip_distribution Config.default breaker fetchers "TSLA" start).1
     = Ret None.
Proof.
  assert (Htot : breaker_total breaker).
  { split; [|split]; intros; simpl; by eauto. }
  assert (Hascii : PyStr.ascii_only "TSLA" = true) by reflexivity.
  assert (Hcode : Classifier._is_us_code "TSLA" = true
                  \/ Classifier._is_etf_code "TSLA" = true)
    by (left; reflexivity).
  assert (Hall : Forall akshare_chip_method fetchers).
  { repeat constructor. unfold akshare_chip_method. simpl. eauto. }
  split; [exact Htot|]. split; [exact Hascii|]. split; [exact Hcode|].
  split; [exact Hall|].
  exact (proj2 (proj2 (proj2
           (chip_distribution_gated_and_total
              Config.default breaker fetchers "TSLA" start Htot)))
           Hascii Hcode Hall).
Defined.

(** C6 at the index code 399001, with the feature on, AkshareFetcher
    among the fetchers and the breaker reporting its key available.  The
    docstring of [AkshareFetcher.get_chip_distribution] says that an ETF
    or an index returns [None] directly, but the guards are
    [_is_us_code] and [_is_etf_code], and the code is neither a US
    ticker nor one of the ETF prefixes: the upstream is asked as for any
    stock code (the world counts one request), and when it answers the
    manager returns that distribution, not [None]. *)
Lemma index_code_reaches_the_upstream :
  Classifier._is_us_code "399001" = false
  /\ Classifier._is_etf_code "399001" = false
  /\ get_chip_distribution Config.default breaker fetchers "399001" start
     = (Ret (Some "chips:399001"),
        {| world := 1%nat;
           trace := [BreakerAsked "akshare_chip" (Ret true);
                     CallChip "AkshareFetcher" "399001"
                       (Ret (Some "chips:399001"));
                     BreakerSuccess "akshare_chip" (Ret tt)] |}).
Proof. split; [|split]; vm_compute; reflexivity. Qed.

(** Why the breaker must not raise: it is asked outside the [try], so
    what it raises leaves [get_chip_distribution]. *)
Lemma raising_breaker_is_not_caught :
  get_chip_distribution Config.default
    {| is_available := fun _ w => (Raise "breaker down", w);
       record_success := fun _ w => (Ret tt, w);
       record_failure := fun _ _ w => (Ret tt, w) |}
    fetchers "600519" start
  = (Raise "breaker down",
     {| world := 0%nat;
        trace := [BreakerAsked "akshare_chip" (Raise "breaker down")] |}).
Proof. vm_compute. reflexivity. Qed.

Lemma realtime_quote_disabled_witness :
  Config.enable_realtime_quote quotes_off = false
  /\ get_realtime_quote has_basic_data quotes_off fetchers "600519" start
     = (Ret None, start).
Proof.
  split; [reflexivity|].
  apply (realtime_quote_disabled has_basic_data quotes_off fetchers "600519" start).
  reflexivity.
Defined.


Lemma prefetch_witness :
  PyStr.ascii_only (Config.realtime_source_priority tencent_then_efinance) = true
  /\ exists first_code rest quote evs s1,
      five_codes = first_code :: rest
      /\ get_realtime_quote has_basic_data tencent_then_efinance fetchers first_code
           {| world := world start;
              trace := (trace start ++ [QuoteRequested first_code])%list |}
         = (Ret quote, s1)
      /\ trace s1 = (trace start ++ QuoteRequested first_code :: evs)%list
      /\ forallb is_call_quote evs = true
      /\ prefetch_realtime_quotes has_basic_data tencent_then_efinance fetchers
           five_codes start
         = (Ret (match quote with
                 | Some _ => Z.of_nat (length five_codes)
                 | None => 0%Z
                 end), s1).
Proof.
  split; [reflexivity|].
  apply (prefetch_needs_bulk_source_among_first_two has_basic_data
           tencent_then_efinance fetchers five_codes start).
  reflexivity.
Defined.

(** Against C7 as stated: the preferred (first) source of the priority
    list "tencent,efinance" is not a bulk source, and with five codes
    [prefetch_realtime_quotes] still requests a quote and returns 5. *)
Lemma prefetch_with_bulk_source_second :
  option_map is_bulk_source
    (head (map PyStr.strip
             (PyStr.split ","%char
                (PyStr.lower (Config.realtime_source_priority
                                tencent_then_efinance)))))
  = Some false
  /\ prefetch_realtime_quotes has_basic_data tencent_then_efinance fetchers
       five_codes start
     = (Ret 5%Z,
        {| world := 1%nat;
           trace := [QuoteRequested "600519";
                     CallQuote "EfinanceFetcher" "600519" None
                       (Ret (Some "quote:600519"))] |}).
Proof. split; reflexivity. Qed.

End ManagerFacts.

Module BaseFetcherFacts.
Import Py Pandas BaseFetcher.
Local Open Scope string_scope.

Lemma date_leb_total (a b : date_cell) :
  date_leb a b = true \/ date_leb b a = true.
Proof.
  destruct a, b; simpl; auto. rewrite !Z.leb_le. lia.
Qed.

Lemma clean_data_rows (df cleaned : DataFrame) :
  _clean_data df = Ret cleaned ->
  rows cleaned
  = sort_by row_leb
      (List.filter (fun r => notna (close r) && notna (volume r)) (rows df))
  /\ columns cleaned = columns df
  /\ has_column "date" df = true
  /\ has_column "close" df = true
  /\ has_column "volume" df = true.
Proof.
  unfold _clean_data.
  destruct (has_column "date" df) eqn:Hd.
  - destruct (first_unparsable (rows df)); [discriminate|].
    cbn [List.filter].
    destruct (has_column "close" df) eqn:Hc, (has_column "volume" df) eqn:Hv;
      cbn [negb]; try discriminate.
    intros H. injection H as <-. simpl. done.
  - destruct (List.filter _ ["close"; "volume"]); discriminate.
Qed.

Lemma calculate_indicators_rows (lib : numeric) (df out : DataFrame) :
  _calculate_indicators lib df = Ret out ->
  rows out
  = imap (fun t r =>
            set_ma r
              (default None
                 (round2 lib (rolling_mean lib 5 (map close (rows df))) !! t))
              (default None
                 (round2 lib (rolling_mean lib 10 (map close (rows df))) !! t))
              (default None
                 (round2 lib (rolling_mean lib 20 (map close (rows df))) !! t)))
         (rows df).
Proof.
  unfold _calculate_indicators.
  destruct (has_column "close" df); [|discriminate].
  destruct (has_column "volume" df); [|discriminate].
  simpl. intros H. by injection H as <-.
Qed.

Section Subclass.
Context {W Raw : Type}.
Variable date_range :
  option string -> option string -> Z -> io W (string * string).
Variable lib : numeric.

(** What a returned series went through. *)
Lemma get_daily_data_returns (self : hooks) (code : string)
    (st en : option string) (days : Z) (w w' : W) (df : DataFrame) :
  get_daily_data date_range lib self code st en days w = (Ret df, w') ->
  exists (raw : Raw) (normalized cleaned : DataFrame),
    _normalize_data self raw code = Ret normalized
    /\ _clean_data normalized = Ret cleaned
    /\ _calculate_indicators lib cleaned = Ret df.
Proof.
  unfold get_daily_data, mbind, io_bind, mret, io_ret, Py.bind, Py.ret,
    Py.raise, Py.try_except, Py.lift.
  destruct (date_range st en days w) as [[[s e]|msg] w0]; [|discriminate].
  destruct (_fetch_raw_data self code s e w0) as [[[raw|]|msg] w1];
    try discriminate.
  destruct (raw_empty self raw); [discriminate|].
  destruct (_normalize_data self raw code) as [n|] eqn:Hn; [|discriminate].
  destruct (_clean_data n) as [c|] eqn:Hc; [|discriminate].
  destruct (_calculate_indicators lib c) as [d|] eqn:Hi; [|discriminate].
  intros H. injection H as <- <-. by exists raw, n, c.
Qed.

End Subclass.

Lemma imap_set_ma_date (f g h : nat -> num_cell) (rs : list Row) :
  map date (imap (fun t r => set_ma r (f t) (g t) (h t)) rs) = map date rs.
Proof.
  revert f g h. induction rs as [|r rs IH]; intros f g h; [done|].
  simpl. f_equal. apply (IH (f ∘ S) (g ∘ S) (h ∘ S)).
Qed.

Lemma Sorted_map_date (rs : list Row) :
  Sorted (fun a b => row_leb a b = true) rs ->
  Sorted (fun a b => date_leb a b = true) (map date rs).
Proof.
  induction 1 as [|r rs Hs IH Hhd]; simpl; constructor; [done|].
  destruct Hhd; simpl; by constructor.
Qed.


Lemma date_leb_trans (a b c : date_cell) :
  date_leb a b = true -> date_leb b c = true -> date_leb a c = true.
Proof.
  destruct a, b, c; simpl; try done. rewrite !Z.leb_le. lia.
Qed.

Section Claims.
Context {W Raw : Type}.
Variable date_range :
  option string -> option string -> Z -> io W (string * string).
Variable lib : numeric.

(** C3, as the code has it.  In every series that [get_daily_data]
    returns, the rows are in ascending order of date: the date of a row
    is less than or equal to the date of every later row.  Rows that
    share a date are kept, so the order need not be strict. *)
Theorem daily_data_dates_ascending (self : hooks) (stock_code : string)
    (start_date end_date : option string) (days : Z) (w w' : W)
    (df : DataFrame) :
  get_daily_data (Raw := Raw) date_range lib self stock_code start_date
    end_date days w = (Ret df, w') ->
  StronglySorted (fun a b => date_leb a b = true) (map date (rows df)).
Proof.
  intros H. apply get_daily_data_returns in H as [raw [n [c [_ [Hc Hi]]]]].
  apply calculate_indicators_rows in Hi. apply clean_data_rows in Hc as [Hc _].
  rewrite Hi, imap_set_ma_date, Hc.
  apply Sorted_StronglySorted.
  - intros x y z. apply date_leb_trans.
  - apply Sorted_map_date.
    apply (SortFacts.sort_by_sorted row_leb).
    intros a b. apply date_leb_total.
Qed.

End Claims.

Import Scenario.

Lemma daily_data_dates_witness :
  get_daily_data fixed_range exact_arithmetic (replay repeated_day)
    "600519" None None 30 0%nat
  = (Ret {| columns := STANDARD_COLUMNS ++ ["ma5"; "ma10"; "ma20"; "volume_ratio"];
            rows := [set_ma (candle 1 (inject_Z 9)) (Some (900 # 100)%Q)
                       (Some (900 # 100)%Q) (Some (900 # 100)%Q);
                     set_ma (candle 2 (inject_Z 10)) (Some (950 # 100)%Q)
                       (Some (950 # 100)%Q) (Some (950 # 100)%Q);
                     set_ma (candle 2 (inject_Z 11)) (Some (1000 # 100)%Q)
                       (Some (1000 # 100)%Q) (Some (1000 # 100)%Q)] |}, 1%nat)
  /\ StronglySorted (fun a b => date_leb a b = true)
       [Timestamp 1; Timestamp 2; Timestamp 2].
Proof.
  assert (H : get_daily_data fixed_range exact_arithmetic
                (replay repeated_day) "600519" None None 30 0%nat
              = (Ret {| columns := STANDARD_COLUMNS
                                   ++ ["ma5"; "ma10"; "ma20"; "volume_ratio"];
                        rows := [set_ma (candle 1 (inject_Z 9)) (Some (900 # 100)%Q)
                                   (Some (900 # 100)%Q) (Some (900 # 100)%Q);
                                 set_ma (candle 2 (inject_Z 10)) (Some (950 # 100)%Q)
                                   (Some (950 # 100)%Q) (Some (950 # 100)%Q);
                                 set_ma (candle 2 (inject_Z 11)) (Some (1000 # 100)%Q)
                                   (Some (1000 # 100)%Q) (Some (1000 # 100)%Q)] |},
                 1%nat))
    by (vm_compute; reflexivity).
  split; [exact H|].
  exact (daily_data_dates_ascending fixed_range exact_arithmetic
           (replay repeated_day) "600519" None None 30 0%nat 1%nat _ H).
Defined.

(** Against C3 as stated: an upstream answer in which a trading day
    comes twice is returned with both rows, so the dates of the returned
    series are not strictly increasing. *)
Lemma daily_data_keeps_repeated_dates :
  exists df w',
    get_daily_data fixed_range exact_arithmetic (replay repeated_day)
      "600519" None None 30 0%nat
    = (Ret df, w')
    /\ map date (rows df) = [Timestamp 1; Timestamp 2; Timestamp 2]
    /\ ~ NoDup (map date (rows df)).
Proof.
  eexists _, _. split; [vm_compute; reflexivity|]. split; [reflexivity|].
  simpl. intros Hnd. apply NoDup_cons in Hnd as [_ Hnd].
  apply NoDup_cons in Hnd as [Hin _]. apply Hin. by left.
Qed.

End BaseFetcherFacts.

Module TaskServiceFacts.
Import TaskService.
Local Open Scope string_scope.

Section Facts.
Context {Result : Type}.
Abbreviation service := (TaskService.t Result).
Abbreviation action := (TaskService.action Result).

Lemma submitted_app (a b : list action) :
  submitted (a ++ b) = (submitted a ++ submitted b)%list.
Proof. unfold submitted. apply omap_app. Qed.

Lemma run_snoc (acts : list action) (a : action) (s : service) :
  run (acts ++ [a]) s
  = match run acts s with Some s' => step a s' | None => None end.
Proof.
  revert s. induction acts as [|b acts IH]; intros s; simpl.
  - by destruct (step a s).
  - destruct (step b s); [apply IH|done].
Qed.

Lemma advances_refl (o : option status) : advances o o.
Proof. by destruct o as [[]|]. Qed.

Lemma remove_job_spec (id : string) (js rest : list job) :
  remove_job id js = Some rest ->
  exists pre j post,
    js = (pre ++ j :: post)%list /\ job_task_id j = id
    /\ rest = (pre ++ post)%list.
Proof.
  revert rest. induction js as [|j js IH]; intros rest; simpl; [done|].
  destruct (String.eqb (job_task_id j) id) eqn:E.
  - intros [= <-]. apply String.eqb_eq in E. by exists [], j, js.
  - destruct (remove_job id js) as [r|]; [|done]. intros [= <-].
    destruct (IH r eq_refl) as [pre [j' [post [-> [Hid ->]]]]].
    by exists (j :: pre), j', post.
Qed.

Lemma consistent_new (n : nat) : consistent (Result := Result) [] (new n).
Proof.
  split; simpl; try (intros ? H; by apply elem_of_nil in H); try constructor.
  intros id [e He]. by rewrite lookup_empty in He.
Qed.

Lemma step_consistent (acts : list action) (a : action) (s s' : service) :
  NoDup (submitted (acts ++ [a])) ->
  consistent acts s ->
  step a s = Some s' ->
  consistent (acts ++ [a]) s'
  /\ forall id, advances (ledger_status s id) (ledger_status s' id).
Proof.
  intros Hnd [I1 I2 I3 I3' I4 I4'] Hstep. rewrite submitted_app in Hnd.
  destruct a as [code rt now|now|id a now]; simpl in Hstep.
  - (* Submit *)
    unfold submit_analysis in Hstep.
    destruct (Nat.eqb (_max_workers s) 0); [done|]. simpl in Hstep.
    injection Hstep as <-. simpl in Hnd.
    apply NoDup_app in Hnd as [_ [Hfresh _]].
    assert (Hnew : make_task_id code now ∉ submitted acts).
    { intros Hin. apply (Hfresh _ Hin). by left. }
    split; [|intros id; apply advances_refl].
    split; simpl.
    + intros j [Hj|Hj]%elem_of_app; [by apply I1|].
      apply list_elem_of_singleton in Hj as ->. simpl.
      destruct (_tasks s !! make_task_id code now) eqn:E; [|done].
      exfalso. apply Hnew, I2. by eexists.
    + intros id Hid. rewrite submitted_app. apply elem_of_app. left. by apply I2.
    + intros j [Hj|Hj]%elem_of_app; rewrite submitted_app; apply elem_of_app.
      * left. by apply I3.
      * right. apply list_elem_of_singleton in Hj as ->. simpl. by left.
    + rewrite fmap_app. apply NoDup_app. split; [done|]. split.
      * intros x Hx [->|[]%elem_of_nil]%elem_of_cons.
        apply list_elem_of_fmap in Hx as [j [Hj1 Hj2]].
        apply Hnew. simpl in Hj1. rewrite Hj1. by apply I3.
      * simpl. apply NoDup_singleton.
    + exact I4.
    + exact I4'.
  - (* Begin *)
    destruct (queued s) as [|j rest] eqn:Hq; [done|].
    destruct (Nat.ltb (length (in_flight s)) (_max_workers s)); [|done].
    injection Hstep as <-.
    assert (Hj : _tasks s !! job_task_id j = None) by (apply I1; by left).
    simpl in I3'. apply NoDup_cons in I3' as [Hjrest I3'].
    split.
    + split; simpl.
      * intros j' Hj'. rewrite lookup_insert_ne; [apply I1; by right|].
        intros Heq. apply Hjrest. rewrite Heq. apply list_elem_of_fmap. eauto.
      * intros id Hid. rewrite submitted_app. apply elem_of_app. left.
        destruct (decide (job_task_id j = id)) as [<-|Hne].
        -- apply I3. by left.
        -- rewrite lookup_insert_ne in Hid by done. by apply I2.
      * intros j' Hj'. rewrite submitted_app. apply elem_of_app. left.
        apply I3. by right.
      * exact I3'.
      * intros j' [Hj'|Hj']%elem_of_app; unfold ledger_status, get_task_status; simpl.
        -- assert (Hne : job_task_id j ≠ job_task_id j').
           { intros Heq. specialize (I4 j' Hj').
             unfold ledger_status, get_task_status in I4.
             rewrite <- Heq, Hj in I4. discriminate. }
           rewrite lookup_insert_ne by done. by apply I4.
        -- apply list_elem_of_singleton in Hj' as ->. by rewrite lookup_insert_eq.
      * rewrite fmap_app. apply NoDup_app. split; [done|]. split.
        -- intros x Hx [->|[]%elem_of_nil]%elem_of_cons.
           apply list_elem_of_fmap in Hx as [j' [Hx1 Hx2]].
           specialize (I4 j' Hx2). unfold ledger_status, get_task_status in I4.
           rewrite <- Hx1, Hj in I4. discriminate.
        -- apply NoDup_singleton.
    + intros id. unfold ledger_status, get_task_status. simpl.
      destruct (decide (job_task_id j = id)) as [<-|Hne].
      * by rewrite Hj, lookup_insert_eq.
      * rewrite lookup_insert_ne by done. apply advances_refl.
  - (* Finish *)
    destruct (remove_job id (in_flight s)) as [rest|] eqn:Hrm; [|done].
    injection Hstep as <-.
    destruct (remove_job_spec _ _ _ Hrm) as [pre [j [post [Hfl [Hid ->]]]]].
    rewrite Hfl in I4, I4'.
    rewrite fmap_app, fmap_cons in I4'.
    apply NoDup_app in I4' as [Hpre [Hdisj Hpost]].
    apply NoDup_cons in Hpost as [Hjpost Hpost].
    assert (Hrun : ledger_status s id = Some running).
    { rewrite <- Hid. apply I4. apply elem_of_app. right. by left. }
    split.
    + split; simpl.
      * intros j' Hj'. rewrite lookup_alter. case_decide as Hd; [|by apply I1].
        rewrite Hd, (I1 j' Hj'). done.
      * intros id' Hid'. rewrite submitted_app. apply elem_of_app. left.
        apply I2. rewrite lookup_alter in Hid'. case_decide as Hd; [|done].
        rewrite <- Hd. by apply fmap_is_Some in Hid'.
      * intros j' Hj'. rewrite submitted_app. apply elem_of_app. left. by apply I3.
      * exact I3'.
      * intros j' Hj'. unfold ledger_status, get_task_status. simpl.
        assert (Hne : id ≠ job_task_id j').
        { intros Heq. apply elem_of_app in Hj' as [Hj'|Hj'].
          - apply (Hdisj (job_task_id j')).
            + apply list_elem_of_fmap. eauto.
            + rewrite <- Heq, <- Hid. by left.
          - apply Hjpost. rewrite Hid, Heq. apply list_elem_of_fmap. eauto. }
        rewrite lookup_alter_ne by done. apply I4.
        apply elem_of_app in Hj' as [Hj'|Hj']; apply elem_of_app; [by left|].
        right. by right.
      * rewrite fmap_app. apply NoDup_app. split; [done|]. split; [|done].
        intros x Hx Hx'. apply (Hdisj x Hx). by right.
    + intros id'. unfold ledger_status, get_task_status in *. simpl.
      rewrite lookup_alter. case_decide; [|apply advances_refl].
      subst id'. destruct (_tasks s !! id) as [e|]; [|done].
      simpl in Hrun. injection Hrun as Hrun. simpl. rewrite Hrun.
      by destruct a.
Qed.

Lemma run_consistent (n : nat) (acts : list action) (s : service) :
  NoDup (submitted acts) ->
  run acts (new n) = Some s ->
  consistent acts s.
Proof.
  revert s. induction acts as [|a acts IH] using rev_ind; intros s Hnd Hrun.
  - injection Hrun as <-. apply consistent_new.
  - rewrite run_snoc in Hrun.
    destruct (run acts (new n)) as [s0|] eqn:E; [|done].
    assert (Hnd0 : NoDup (submitted acts)).
    { rewrite submitted_app in Hnd. by apply NoDup_app in Hnd as [? _]. }
    by apply (step_consistent acts a s0 s Hnd (IH s0 Hnd0 eq_refl)).
Qed.


(** C9, as the code has it.  [submit_analysis] returns a task id of the
    form [{code}_{timestamp}] and leaves the ledger as it was: it only
    queues the job.  The entry is written, in state running, when a
    worker begins the job.  In a run whose submissions received distinct
    task ids, every step leaves the state of every ledger entry
    unchanged or moves it from absent to running or from running to
    completed or failed; it never returns to running. *)
Theorem ledger_entry_written_by_worker_then_monotone :
  (forall (self self' : service) (code report_type now : string)
          (info : task_info),
     submit_analysis self code report_type now = Some (info, self') ->
     info_task_id info = make_task_id code now
     /\ _tasks self' = _tasks self
     /\ queued self'
        = (queued self ++ [{| job_code := code;
                              job_task_id := make_task_id code now;
                              job_report_type := report_type |}])%list)
  /\ (forall (self self' : service) (now : string) (j : job) (rest : list job),
        queued self = j :: rest ->
        step (Begin now) self = Some self' ->
        ledger_status self' (job_task_id j) = Some running)
  /\ (forall (max_workers : nat) (acts : list action) (a : action)
             (s s' : service),
        NoDup (submitted (acts ++ [a])) ->
        run acts (new max_workers) = Some s ->
        step a s = Some s' ->
        forall task_id,
          advances (ledger_status s task_id) (ledger_status s' task_id)).
Proof.
  split; [|split].
  - intros self self' code rt now info H. unfold submit_analysis in H.
    destruct (Nat.eqb (_max_workers self) 0); [done|].
    by injection H as <- <-.
  - intros self self' now j rest Hq H. simpl in H. rewrite Hq in H.
    destruct (Nat.ltb (length (in_flight self)) (_max_workers self)); [|done].
    injection H as <-. unfold ledger_status, get_task_status. simpl.
    by rewrite lookup_insert_eq.
  - intros n acts a s s' Hnd Hrun Hstep.
    assert (Hnd0 : NoDup (submitted acts)).
    { rewrite submitted_app in Hnd. by apply NoDup_app in Hnd as [? _]. }
    apply (step_consistent acts a s s' Hnd (run_consistent n acts s Hnd0 Hrun) Hstep).
Qed.

End Facts.

Import Scenario.

Lemma ledger_lifecycle_witness :
  NoDup (submitted (morning_run ++ [Finish "600519_20240102_093000_000001"
                                      (Analysed "hold") "2024-01-02T09:31:07"]))
  /\ run morning_run (new 1) = Some one_running
  /\ step (Finish "600519_20240102_093000_000001" (Analysed "hold")
             "2024-01-02T09:31:07") one_running
     = Some one_completed
  /\ forall task_id,
       advances (ledger_status one_running task_id)
                (ledger_status one_completed task_id).
Proof.
  assert (Hnd : NoDup (submitted
                         (morning_run
                          ++ [Finish "600519_20240102_093000_000001"
                                (Analysed "hold") "2024-01-02T09:31:07"])))
    by (vm_compute; apply NoDup_singleton).
  assert (Hrun : run morning_run (new 1) = Some one_running)
    by (vm_compute; reflexivity).
  assert (Hstep : step (Finish "600519_20240102_093000_000001" (Analysed "hold")
                          "2024-01-02T09:31:07") one_running
                  = Some one_completed)
    by (vm_compute; reflexivity).
  split; [exact Hnd|]. split; [exact Hrun|]. split; [exact Hstep|].
  exact (proj2 (proj2 ledger_entry_written_by_worker_then_monotone)
           1%nat morning_run _ one_running one_completed Hnd Hrun Hstep).
Defined.

(** Against C9 as stated: with one worker busy on an earlier task, a
    second submission returns its task id while the ledger has no entry
    for it, and none can be written until the worker is free. *)
Lemma submitted_task_absent_from_ledger :
  exists (info : task_info) (s : TaskService.t string),
    run morning_run (new 1) = Some one_running
    /\ submit_analysis one_running "000001" "simple" "20240102_093005_000002"
       = Some (info, s)
    /\ info_task_id info = "000001_20240102_093005_000002"
    /\ get_task_status s (info_task_id info) = None
    /\ step (Begin "2024-01-02T09:30:06") s = None.
Proof.
  eexists _, _. split; [vm_compute; reflexivity|].
  split; [vm_compute; reflexivity|]. repeat split; vm_compute; reflexivity.
Qed.

End TaskServiceFacts.

Module NotificationFacts.
Import Utf8 PyText Notification.

Lemma encode_app (a b : pystr) (x y : pybytes) :
  encode a = Some x -> encode b = Some y -> encode (a ++ b) = Some (x ++ y).
Proof.
  revert x. induction a as [|c a IH]; intros x Ha Hb; simpl in *.
  - by injection Ha as <-.
  - destruct (is_scalar c); [|done].
    destruct (encode a) as [bs|]; [|done]. injection Ha as <-.
    rewrite (IH bs eq_refl Hb). by rewrite app_assoc.
Qed.

Lemma encode_letters (n : nat) : encode (repeat 97 n) = Some (repeat 97 n).
Proof. induction n as [|n IH]; simpl; [done|]. by rewrite IH. Qed.

Lemma get_bytes_letters (n : nat) : get_bytes (repeat 97 n) = Some (Z.of_nat n).
Proof. unfold get_bytes. by rewrite encode_letters, repeat_length. Qed.

Lemma byte_len_letters_then (n : nat) (tail : pystr) (enc : pybytes) :
  encode tail = Some enc ->
  byte_len (repeat 97 n ++ tail) = Z.of_nat n + Z.of_nat (length enc).
Proof.
  intros H. unfold byte_len.
  rewrite (encode_app _ _ _ _ (encode_letters n) H), length_app, repeat_length.
  lia.
Qed.

Lemma contains_after_letters (sep tail : pystr) (n : nat) :
  contains sep (sep ++ tail) = true ->
  contains sep (repeat 97 n ++ sep ++ tail) = true.
Proof.
  intros H. induction n as [|n IH]; [done|].
  simpl. rewrite IH. apply orb_true_r.
Qed.

Lemma no_line_feed_in_letters (rest : pystr) (n : nat) :
  contains (LF :: rest) (repeat 97 n) = false.
Proof. induction n as [|n IH]; [done|]. simpl. exact IH. Qed.

Lemma split_letters_rule (n : nat) (cur : pystr) :
  split_scan sep_rule (repeat 97 n ++ sep_rule ++ [98]) 0 cur
  = [rev cur ++ repeat 97 n; [98]].
Proof.
  revert cur. induction n as [|n IH]; intros cur.
  - simpl. by rewrite app_nil_r.
  - cbn [repeat app]. cbn [split_scan].
    replace (is_prefix sep_rule (97 :: repeat 97 n ++ sep_rule ++ [98]))
      with false by reflexivity.
    rewrite IH. cbn [rev]. by rewrite <- List.app_assoc.
Qed.

Lemma split_letters_lf (n : nat) (cur : pystr) :
  split_scan [LF] (repeat 97 n) 0 cur = [rev cur ++ repeat 97 n].
Proof.
  revert cur. induction n as [|n IH]; intros cur.
  - simpl. by rewrite app_nil_r.
  - cbn [repeat]. cbn [split_scan].
    replace (is_prefix [LF] (97 :: repeat 97 n)) with false by reflexivity.
    rewrite IH. cbn [rev]. by rewrite <- List.app_assoc.
Qed.

(** The Feishu sender at the budget [n + 5], for every [n >= 1]: a
    section of [n] letters, the rule separator and a one-letter section
    are sent as two chunks, and the first one, page marker included, is
    [n + 12] octets long. *)
Lemma feishu_marker_not_reserved (n : nat) :
  (1 <= n)%nat ->
  option_map (map byte_len)
    (_send_feishu_chunked (repeat 97 n ++ sep_rule ++ [98]) (Z.of_nat n + 5))
  = Some [Z.of_nat n + 12; 13].
Proof.
  intros Hn. unfold _send_feishu_chunked.
  rewrite (contains_after_letters sep_rule [98] n eq_refl).
  unfold split. rewrite (split_letters_rule n []). simpl rev. cbn [app].
  unfold pack. cbn [pack_sections]. unfold pack_section at 1.
  rewrite get_bytes_letters. change (get_bytes sep_rule) with (Some 5).
  cbn [current_bytes current_chunk chunks].
  replace (Z.of_nat n + 5 <? Z.of_nat n + 5) with false
    by (symmetry; apply Z.ltb_ge; lia).
  replace (Z.of_nat n + 5 <? 0 + (Z.of_nat n + 5)) with false
    by (symmetry; apply Z.ltb_ge; lia).
  unfold pack_section. change (get_bytes [98]) with (Some 1).
  change (get_bytes sep_rule) with (Some 5).
  cbn [current_bytes current_chunk chunks app].
  replace (Z.of_nat n + 5 <? 1 + 5) with false
    by (symmetry; apply Z.ltb_ge; lia).
  replace (Z.of_nat n + 5 <? 0 + (Z.of_nat n + 5) + (1 + 5)) with true
    by (symmetry; apply Z.ltb_lt; lia).
  unfold flush. cbn [current_chunk chunks join app].
  unfold paginate. cbn [length imap orb Nat.ltb Nat.leb app]. cbn [option_map map].
  rewrite (byte_len_letters_then n (feishu_page_marker 0 2)
             [10; 10; 240; 159; 147; 132; 32; 40; 49; 47; 50; 41] eq_refl).
  reflexivity.
Qed.

(** The WeChat sender on a single line of [n] letters, whatever the
    budget: there is no separator, heading or line break to cut at, and
    the line-based fallback sends the line whole. *)
Lemma wechat_long_line_sent_whole (n : nat) (max_bytes : Z) :
  (1 <= n)%nat ->
  _send_wechat_chunked (repeat 97 n) max_bytes = Some [repeat 97 n].
Proof.
  intros Hn. unfold _send_wechat_chunked.
  unfold sep_rule, sep_h3, sep_h2, sep_bold.
  rewrite !no_line_feed_in_letters.
  unfold _send_wechat_force_chunked, split. rewrite (split_letters_lf n []).
  simpl rev. cbn [app force_lines]. rewrite get_bytes_letters.
  destruct n as [|n]; [lia|].
  destruct (max_bytes - 100 <? Z.of_nat (S n)); reflexivity.
Qed.

(** C2 at two messages the senders can receive with their default
    budgets.  Feishu, 20000 octets: a section of 19995 octets, the rule
    separator and a one-letter section (20001 octets in all) are sent as
    two chunks, the first of 20007 octets.  WeChat, 4000 octets: a
    single line of 5000 octets without separator or heading is sent as
    one chunk of 5000 octets. *)
Lemma chunk_over_budget :
  byte_len (repeat 97 (Z.to_nat 19995) ++ sep_rule ++ [98]) = 20001
  /\ option_map (map byte_len)
       (_send_feishu_chunked
          (repeat 97 (Z.to_nat 19995) ++ sep_rule ++ [98]) 20000)
     = Some [20007; 13]
  /\ option_map (map byte_len)
       (_send_wechat_chunked (repeat 97 (Z.to_nat 5000)) 4000)
     = Some [5000].
Proof.
  assert (H1 : Z.of_nat (Z.to_nat 19995) = 19995) by (apply Z2Nat.id; lia).
  assert (H2 : Z.of_nat (Z.to_nat 5000) = 5000) by (apply Z2Nat.id; lia).
  assert (L1 : (1 <= Z.to_nat 19995)%nat) by lia.
  assert (L2 : (1 <= Z.to_nat 5000)%nat) by lia.
  generalize dependent (Z.to_nat 19995). intros a Ha La.
  generalize dependent (Z.to_nat 5000). intros b Hb Lb.
  split; [|split].
  - rewrite (byte_len_letters_then a (sep_rule ++ [98]) [10; 45; 45; 45; 10; 98] eq_refl).
    simpl length. lia.
  - pose proof (feishu_marker_not_reserved a La) as H.
    rewrite Ha in H. exact H.
  - rewrite (wechat_long_line_sent_whole b 4000 Lb). cbn [option_map map].
    replace (repeat 97 b) with (repeat 97 b ++ []) by apply app_nil_r.
    rewrite (byte_len_letters_then b [] [] eq_refl). simpl length.
    f_equal. f_equal. lia.
Qed.

End NotificationFacts.

Module TruncateMore.
Import Utf8 Truncate Utf8Facts TruncateFacts SplitByBytes Measure.

Lemma encode_cp_nonempty (c : Z) : encode_cp c <> [].
Proof.
  unfold encode_cp.
  destruct (c <? 128); [done|]. destruct (c <? 2048); [done|].
  by destruct (c <? 65536).
Qed.

Lemma encode_cp_length (c : Z) : (1 <= length (encode_cp c) <= 4)%nat.
Proof.
  unfold encode_cp.
  destruct (c <? 128); [simpl; lia|]. destruct (c <? 2048); [simpl; lia|].
  destruct (c <? 65536); simpl; lia.
Qed.

Lemma encode_app_inv (a b : pystr) (enc : pybytes) :
  encode (a ++ b) = Some enc ->
  exists ea eb, encode a = Some ea /\ encode b = Some eb /\ enc = (ea ++ eb)%list.
Proof.
  revert enc. induction a as [|c a IH]; intros enc H; simpl in *.
  - by exists [], enc.
  - destruct (is_scalar c); [|done].
    destruct (encode (a ++ b)) as [r|] eqn:E; [|done]. injection H as <-.
    destruct (IH r eq_refl) as [ea [eb [-> [-> ->]]]].
    exists (encode_cp c ++ ea)%list, eb. by rewrite app_assoc.
Qed.

Lemma encode_length_ge (s : pystr) (enc : pybytes) :
  encode s = Some enc -> (length s <= length enc)%nat.
Proof.
  revert enc. induction s as [|c s IH]; intros enc H; simpl in *.
  - injection H as <-. simpl. lia.
  - destruct (is_scalar c); [|done].
    destruct (encode s) as [r|]; [|done]. injection H as <-.
    rewrite length_app. pose proof (encode_cp_length c). specialize (IH r eq_refl).
    simpl. lia.
Qed.

(** [walk_back] stops at the longest decodable cut. *)
Lemma walk_back_longest (encoded : pybytes) (n : nat) :
  exists k, (k <= n)%nat
    /\ decode (take k encoded) = Some (walk_back encoded n)
    /\ forall j, (j <= n)%nat -> is_Some (decode (take j encoded)) -> (j <= k)%nat.
Proof.
  induction n as [|n [k [Hk [Hd Hmax]]]].
  - exists 0%nat. split; [lia|]. split; [reflexivity|]. intros j Hj _. lia.
  - cbn [walk_back].
    destruct (decode (take (S n) encoded)) as [s|] eqn:E.
    + exists (S n). split; [lia|]. split; [exact E|]. intros j Hj _. lia.
    + exists k. split; [lia|]. split; [exact Hd|].
      intros j Hj Hs. destruct (decide (j = S n)) as [->|Hne].
      * rewrite E in Hs. by destruct Hs.
      * apply Hmax; [lia|done].
Qed.

Lemma truncate_unfold (text : pystr) (encoded : pybytes) (max_bytes : Z) :
  encode text = Some encoded ->
  _truncate_to_bytes text max_bytes
  = Some (if Z.of_nat (length encoded) <=? max_bytes then text
          else walk_back encoded (cut_at encoded max_bytes)).
Proof.
  intros He. unfold _truncate_to_bytes, cut_at. rewrite He.
  by destruct (Z.of_nat (length encoded) <=? max_bytes).
Qed.

(** Every prefix of the text whose encoding is at most [n] octets long
    is a prefix of [walk_back encoded n]. *)
Lemma walk_back_covers (text p : pystr) (encoded : pybytes) (n : nat) :
  encode text = Some encoded ->
  p `prefix_of` text ->
  (Z.to_nat (byte_len p) <= n)%nat ->
  p `prefix_of` walk_back encoded n.
Proof.
  intros He [t ->] Hfit.
  destruct (encode_app_inv _ _ _ He) as [ep [et [Hp [Ht ->]]]].
  unfold byte_len in Hfit. rewrite Hp, Nat2Z.id in Hfit.
  destruct (walk_back_longest (ep ++ et) n) as [k [Hk [Hd Hmax]]].
  assert (Hpk : (length ep <= k)%nat).
  { apply Hmax; [done|]. rewrite take_app_length. rewrite (decode_encode _ _ Hp). by eexists. }
  destruct (decoded_prefix _ _ k _ He Hd) as [Hr Hre].
  destruct (prefix_weak_total _ _ _ (ex_intro _ t eq_refl : p `prefix_of` p ++ t) Hr)
    as [Hpr|[u Hu]]; [done|].
  (* the result is a prefix of [p]: their encodings have the same length *)
  rewrite Hu in Hp. destruct (encode_app_inv _ _ _ Hp) as [er [eu [Her [Heu Hep]]]].
  rewrite Hre in Her. injection Her as <-.
  assert (Hu0 : length eu = 0%nat).
  { apply (f_equal length) in Hep. rewrite length_app, length_take, length_app in Hep. lia. }
  pose proof (encode_length_ge _ _ Heu) as Hlu. rewrite Hu0 in Hlu.
  destruct u; [|simpl in Hlu; lia]. rewrite app_nil_r in Hu. by rewrite Hu.
Qed.


Lemma slice_to_length (encoded : pybytes) (max_bytes : Z) :
  Z.of_nat (length encoded) > max_bytes ->
  Z.of_nat (cut_at encoded max_bytes)
  = if max_bytes <? 0 then Z.max 0 (Z.of_nat (length encoded) + max_bytes)
    else max_bytes.
Proof.
  intros Hgt. unfold cut_at, PySlice.slice_to.
  destruct (max_bytes <? 0) eqn:E; rewrite length_take.
  - apply Z.ltb_lt in E. lia.
  - apply Z.ltb_ge in E. lia.
Qed.

Lemma truncate_nonneg (text : pystr) (encoded : pybytes) (max_bytes : Z) :
  0 <= max_bytes ->
  encode text = Some encoded ->
  exists r, _truncate_to_bytes text max_bytes = Some r
            /\ r `prefix_of` text /\ byte_len r <= max_bytes.
Proof.
  intros Hm He. rewrite (truncate_unfold _ _ _ He).
  eexists. split; [reflexivity|].
  destruct (Z.of_nat (length encoded) <=? max_bytes) eqn:E.
  - apply Z.leb_le in E. split; [done|]. unfold byte_len. by rewrite He.
  - apply Z.leb_gt in E.
    assert (Hc := slice_to_length encoded max_bytes ltac:(lia)).
    replace (max_bytes <? 0) with false in Hc by (symmetry; apply Z.ltb_ge; lia).
    destruct (walk_back_decodes encoded (cut_at encoded max_bytes)) as [k [Hk Hd]].
    destruct (decoded_prefix _ _ k _ He Hd) as [Hr Hre].
    split; [exact Hr|]. unfold byte_len. rewrite Hre, length_take. lia.
Qed.

Lemma truncate_to_bytes_covers (text r p : pystr) (max_bytes : Z) :
  0 <= max_bytes ->
  _truncate_to_bytes text max_bytes = Some r ->
  p `prefix_of` text ->
  byte_len p <= max_bytes ->
  p `prefix_of` r.
Proof.
  intros Hm Ht Hp Hfit.
  destruct (encode text) as [encoded|] eqn:He;
    [|unfold _truncate_to_bytes in Ht; by rewrite He in Ht].
  rewrite (truncate_unfold _ _ _ He) in Ht. injection Ht as <-.
  destruct (Z.of_nat (length encoded) <=? max_bytes) eqn:E; [done|].
  apply Z.leb_gt in E.
  apply (walk_back_covers text p encoded _ He Hp).
  assert (Hc := slice_to_length encoded max_bytes ltac:(lia)).
  replace (max_bytes <? 0) with false in Hc by (symmetry; apply Z.ltb_ge; lia).
  assert (0 <= byte_len p).
  { unfold byte_len. destruct (encode p); lia. }
  lia.
Qed.

(** X1. With a budget of at least zero, [_truncate_to_bytes] keeps as
    much as fits and no more: a prefix of the text is a prefix of the
    result exactly when its UTF-8 encoding is at most [max_bytes] octets
    long.  So the result is the longest prefix of the text that fits. *)
Theorem truncate_to_bytes_keeps_every_fitting_prefix
    (text r p : pystr) (max_bytes : Z) :
  0 <= max_bytes ->
  _truncate_to_bytes text max_bytes = Some r ->
  p `prefix_of` text ->
  (byte_len p <= max_bytes <-> p `prefix_of` r).
Proof.
  intros Hm Ht Hp. split; [by apply (truncate_to_bytes_covers text)|].
  intros [t Hr].
  destruct (encode text) as [encoded|] eqn:He;
    [|unfold _truncate_to_bytes in Ht; by rewrite He in Ht].
  destruct (truncate_nonneg text encoded max_bytes Hm He) as [r' [Hr' [Hpre Hb]]].
  rewrite Ht in Hr'. injection Hr' as <-.
  destruct Hpre as [rest Hrest]. rewrite Hrest, Hr in He.
  destruct (encode_app_inv _ _ _ He) as [epr [_ [Hepr _]]].
  destruct (encode_app_inv _ _ _ Hepr) as [ep [et [Hep [_ ->]]]].
  unfold byte_len in Hb |- *. rewrite Hr, Hepr in Hb. rewrite Hep.
  rewrite length_app in Hb. lia.
Qed.

Lemma truncate_to_bytes_keeps_every_fitting_prefix_witness :
  0 <= 4
  /\ _truncate_to_bytes Examples.h_ni_hao 4 = Some [104; 20320]
  /\ [104; 20320] `prefix_of` Examples.h_ni_hao
  /\ (byte_len [104; 20320] <= 4 <-> [104; 20320] `prefix_of` [104; 20320]).
Proof.
  assert (H0 : 0 <= 4) by lia.
  assert (H1 : _truncate_to_bytes Examples.h_ni_hao 4 = Some [104; 20320])
    by (vm_compute; reflexivity).
  assert (H2 : [104; 20320] `prefix_of` Examples.h_ni_hao)
    by (exists [22909]; reflexivity).
  split; [exact H0|]. split; [exact H1|]. split; [exact H2|].
  exact (truncate_to_bytes_keeps_every_fitting_prefix _ _ _ 4 H0 H1 H2).
Defined.

(** X2. A negative budget is read as Python reads a negative slice
    bound: the last [-max_bytes] octets of the encoding are cut off, then
    any broken character.  The result is the longest prefix of the text
    that fits in [len + max_bytes] octets, [len] being the length of the
    encoding, and it is empty when that number is not positive. *)
Theorem truncate_to_bytes_negative_budget
    (text : pystr) (encoded : pybytes) (max_bytes : Z) :
  max_bytes < 0 ->
  encode text = Some encoded ->
  exists r,
    _truncate_to_bytes text max_bytes = Some r
    /\ r `prefix_of` text
    /\ byte_len r <= Z.max 0 (Z.of_nat (length encoded) + max_bytes)
    /\ forall p, p `prefix_of` text ->
                 byte_len p <= Z.of_nat (length encoded) + max_bytes ->
                 p `prefix_of` r.
Proof.
  intros Hm He. rewrite (truncate_unfold _ _ _ He).
  replace (Z.of_nat (length encoded) <=? max_bytes) with false
    by (symmetry; apply Z.leb_gt; lia).
  eexists. split; [reflexivity|].
  assert (Hc := slice_to_length encoded max_bytes ltac:(lia)).
  replace (max_bytes <? 0) with true in Hc by (symmetry; apply Z.ltb_lt; lia).
  destruct (walk_back_decodes encoded (cut_at encoded max_bytes)) as [k [Hk Hd]].
  destruct (decoded_prefix _ _ k _ He Hd) as [Hr Hre].
  split; [exact Hr|]. split.
  - unfold byte_len. rewrite Hre, length_take. lia.
  - intros p Hp Hfit. apply (walk_back_covers text p encoded _ He Hp).
    assert (0 <= byte_len p) by (unfold byte_len; destruct (encode p); lia).
    lia.
Qed.

Lemma truncate_to_bytes_negative_budget_witness :
  -1 < 0
  /\ encode Examples.h_ni_hao = Some Examples.h_ni_hao_encoded
  /\ _truncate_to_bytes Examples.h_ni_hao (-1) = Some [104; 20320]
  /\ exists r,
       _truncate_to_bytes Examples.h_ni_hao (-1) = Some r
       /\ r `prefix_of` Examples.h_ni_hao
       /\ byte_len r
          <= Z.max 0 (Z.of_nat (length Examples.h_ni_hao_encoded) + -1)
       /\ forall p, p `prefix_of` Examples.h_ni_hao ->
                    byte_len p
                    <= Z.of_nat (length Examples.h_ni_hao_encoded) + -1 ->
                    p `prefix_of` r.
Proof.
  assert (H0 : -1 < 0) by lia.
  assert (H1 : encode Examples.h_ni_hao = Some Examples.h_ni_hao_encoded)
    by (vm_compute; reflexivity).
  split; [exact H0|]. split; [exact H1|]. split; [vm_compute; reflexivity|].
  exact (truncate_to_bytes_negative_budget _ _ (-1) H0 H1).
Defined.

End TruncateMore.

Module SplitByBytesFacts.
Import Utf8 Truncate Utf8Facts TruncateFacts SplitByBytes Measure TruncateMore.

Lemma split_loop_spec (limit : Z) (fuel : nat) :
  4 <= limit ->
  forall (text : pystr) (encoded : pybytes),
    (length text <= fuel)%nat ->
    encode text = Some encoded ->
    exists parts,
      split_loop fuel text limit = Some parts
      /\ concat parts = text
      /\ Forall (fun p => p <> [] /\ byte_len p <= limit) parts.
Proof.
  intros Hl. induction fuel as [|fuel IH]; intros text encoded Hf He.
  - destruct text; [|simpl in Hf; lia]. exists []. by repeat split.
  - destruct text as [|c text']; [exists []; by repeat split|].
    set (text := c :: text') in *.
    destruct (truncate_nonneg text encoded limit ltac:(lia) He) as [r [Hr [[rest Hp] Hb]]].
    assert (Hc : [c] `prefix_of` r).
    { apply (truncate_to_bytes_covers text r [c] limit ltac:(lia) Hr).
      - by exists text'.
      - unfold byte_len. simpl. simpl in He.
        destruct (is_scalar c); [|done]. rewrite app_nil_r.
        pose proof (encode_cp_length c). lia. }
    destruct r as [|c0 r']; [by destruct Hc as [? ?]|].
    cbn [split_loop]. subst text. rewrite Hr.
    assert (Hdrop : drop (length (c0 :: r')) (c :: text') = rest).
    { rewrite Hp. by rewrite drop_app_length. }
    rewrite Hdrop.
    rewrite Hp in He. destruct (encode_app_inv _ _ _ He) as [er [erest [_ [Herest _]]]].
    destruct (IH rest erest) as [parts [Hs [Hcat Hall]]].
    { apply (f_equal length) in Hp. rewrite length_app in Hp. simpl in *. lia. }
    { exact Herest. }
    rewrite Hs. eexists. split; [reflexivity|]. split.
    + simpl. by rewrite Hcat, Hp.
    + constructor; [|exact Hall]. split; [done|exact Hb].
Qed.

(** X3. [split_by_bytes], the splitter inside
    [_chunk_markdown_by_bytes]: for text that has a UTF-8 encoding and a
    limit of at least 4 octets, the parts are non-empty, each is at most
    [limit] octets long once encoded, and put end to end they are the
    text: nothing is lost and no character is broken. *)
Theorem split_by_bytes_lossless_within_limit
    (text : pystr) (encoded : pybytes) (limit : Z) :
  4 <= limit ->
  encode text = Some encoded ->
  exists parts,
    split_by_bytes text limit = Some parts
    /\ concat parts = text
    /\ Forall (fun p => p <> [] /\ byte_len p <= limit) parts.
Proof.
  intros Hl He. by apply (split_loop_spec limit (length text) Hl text encoded).
Qed.

Lemma split_by_bytes_witness :
  4 <= 4
  /\ encode Examples.h_ni_hao = Some Examples.h_ni_hao_encoded
  /\ split_by_bytes Examples.h_ni_hao 4 = Some [[104; 20320]; [22909]]
  /\ exists parts,
       split_by_bytes Examples.h_ni_hao 4 = Some parts
       /\ concat parts = Examples.h_ni_hao
       /\ Forall (fun p => p <> [] /\ byte_len p <= 4) parts.
Proof.
  assert (H0 : 4 <= 4) by lia.
  assert (H1 : encode Examples.h_ni_hao = Some Examples.h_ni_hao_encoded)
    by (vm_compute; reflexivity).
  split; [exact H0|]. split; [exact H1|]. split; [vm_compute; reflexivity|].
  exact (split_by_bytes_lossless_within_limit _ _ 4 H0 H1).
Defined.

(** Below 4 octets the splitter can stop early: a character wider than
    the limit ends the loop and the rest of the text is dropped. *)
Lemma split_by_bytes_small_limit_drops_text :
  split_by_bytes Examples.h_ni_hao 2 = Some [[104]].
Proof. vm_compute. reflexivity. Qed.

End SplitByBytesFacts.

Module TextFacts.
Import Utf8 PyText Notification Measure.

Lemma is_prefix_spec (p s : pystr) :
  is_prefix p s = true -> s = (p ++ drop (length p) s)%list.
Proof.
  revert s. induction p as [|x p IH]; intros s H; [done|].
  destruct s as [|y s]; [done|]. simpl in H.
  apply andb_true_iff in H as [Hx Hp]. apply Z.eqb_eq in Hx as ->.
  simpl. f_equal. by apply IH.
Qed.

Lemma split_scan_skip (sep u rest cur : pystr) :
  split_scan sep (u ++ rest) (length u) cur = split_scan sep rest 0 cur.
Proof. induction u as [|c u IH]; [done|]. exact IH. Qed.

Lemma split_scan_nonempty (sep s : pystr) (skip : nat) (cur : pystr) :
  split_scan sep s skip cur <> [].
Proof.
  revert skip cur. induction s as [|c s IH]; intros skip cur; [done|].
  cbn [split_scan]. destruct skip; [|apply IH].
  destruct (is_prefix sep (c :: s)); [done|apply IH].
Qed.

Lemma join_cons (sep p : pystr) (l : list pystr) :
  l <> [] -> join sep (p :: l) = (p ++ sep ++ join sep l)%list.
Proof. by destruct l. Qed.

Lemma join_app (sep : pystr) (l1 l2 : list pystr) :
  l1 <> [] -> l2 <> [] ->
  join sep (l1 ++ l2) = (join sep l1 ++ sep ++ join sep l2)%list.
Proof.
  intros H1 H2. induction l1 as [|p l1 IH]; [done|].
  destruct l1 as [|q l1].
  - simpl app. by rewrite join_cons.
  - change ((p :: q :: l1) ++ l2)%list with (p :: ((q :: l1) ++ l2))%list.
    rewrite join_cons by done. rewrite IH by done.
    rewrite (join_cons sep p (q :: l1)) by done.
    by rewrite <- !List.app_assoc.
Qed.

Lemma split_scan_join (sep : pystr) (n : nat) :
  sep <> [] ->
  forall s cur, (length s <= n)%nat ->
    join sep (split_scan sep s 0 cur) = (rev cur ++ s)%list.
Proof.
  intros Hsep. induction n as [n IH] using lt_wf_ind. intros s cur Hn.
  destruct s as [|c r]; [simpl; by rewrite app_nil_r|].
  cbn [split_scan]. destruct (is_prefix sep (c :: r)) eqn:E.
  - apply is_prefix_spec in E.
    destruct sep as [|x sep']; [done|].
    simpl in E. injection E as -> Hr.
    rewrite join_cons by apply split_scan_nonempty.
    replace (length (x :: sep') - 1)%nat with (length sep') by (simpl; lia).
    rewrite Hr at 1. rewrite split_scan_skip.
    rewrite (IH (length (drop (length sep') r))).
    + simpl. rewrite <- Hr. done.
    + simpl in Hn. rewrite length_drop. lia.
    + lia.
  - destruct n; [simpl in Hn; lia|].
    rewrite (IH n); [|lia|simpl in Hn; lia].
    simpl. by rewrite <- List.app_assoc.
Qed.

(** [sep.join(s.split(sep)) == s] *)
Lemma join_split (sep s : pystr) : sep <> [] -> join sep (split sep s) = s.
Proof. intros H. unfold split. by rewrite (split_scan_join sep (length s) H). Qed.

Lemma split_nonempty (sep s : pystr) : split sep s <> [].
Proof. apply split_scan_nonempty. Qed.

(** Joining the joined groups is joining everything. *)
Lemma join_groups (sep : pystr) (groups : list (list pystr)) :
  Forall (fun g => g <> []) groups ->
  join sep (map (join sep) groups) = join sep (concat groups).
Proof.
  induction 1 as [|g groups Hg Hgs IH]; [done|].
  destruct groups as [|g' groups].
  - simpl. by rewrite app_nil_r.
  - change (map (join sep) (g :: g' :: groups))
      with (join sep g :: map (join sep) (g' :: groups)).
    rewrite join_cons by done. rewrite IH.
    change (concat (g :: g' :: groups)) with (g ++ concat (g' :: groups))%list.
    rewrite join_app; [done|done|].
    inversion Hgs as [|? ? Hg' _]; subst. simpl. by destruct g'.
Qed.

Lemma join_head_app (sep a p : pystr) (l : list pystr) :
  join sep ((a ++ p) :: l) = (a ++ join sep (p :: l))%list.
Proof. destruct l; [done|]. simpl. by rewrite <- List.app_assoc. Qed.

Lemma join_rehead (mark : pystr) (p : pystr) (rest : list pystr) :
  join [LF] (p :: map (fun q => mark ++ q) rest)%list
  = join (LF :: mark) (p :: rest).
Proof.
  revert p. induction rest as [|q rest IH]; intros p; [done|].
  change (map (fun q0 => mark ++ q0) (q :: rest))%list
    with ((mark ++ q) :: map (fun q0 => mark ++ q0) rest)%list.
  rewrite (join_cons [LF] p) by done. rewrite (join_cons (LF :: mark) p) by done.
  rewrite IH, join_head_app. reflexivity.
Qed.

(** Cutting at ["\n" + mark] and putting the mark back loses nothing. *)
Lemma join_reheaded (mark s : pystr) :
  join [LF] (reheaded mark (split (LF :: mark) s)) = s.
Proof.
  pose proof (join_split (LF :: mark) s ltac:(done)) as H.
  destruct (split (LF :: mark) s) as [|p rest] eqn:E.
  - by destruct (split_nonempty _ _ E).
  - unfold reheaded. by rewrite join_rehead.
Qed.

(** *** Measuring *)

Lemma encodable_app (a b : pystr) :
  encodable (a ++ b) <-> encodable a /\ encodable b.
Proof.
  split.
  - intros [enc H]. destruct (TruncateMore.encode_app_inv _ _ _ H)
      as [ea [eb [Ha [Hb _]]]]. split; by eexists.
  - intros [[ea Ha] [eb Hb]]. eexists.
    apply (NotificationFacts.encode_app _ _ _ _ Ha Hb).
Qed.

Lemma byte_len_app (a b : pystr) :
  encodable a -> encodable b -> byte_len (a ++ b) = byte_len a + byte_len b.
Proof.
  intros [ea Ha] [eb Hb]. unfold byte_len.
  rewrite (NotificationFacts.encode_app _ _ _ _ Ha Hb), Ha, Hb, length_app. lia.
Qed.

Lemma get_bytes_encodable (s : pystr) :
  encodable s -> get_bytes s = Some (byte_len s).
Proof. intros [e H]. unfold get_bytes, byte_len. by rewrite H. Qed.

Lemma get_bytes_Some (s : pystr) (n : Z) :
  get_bytes s = Some n -> encodable s /\ n = byte_len s.
Proof.
  unfold get_bytes, byte_len, encodable. destruct (encode s); [|done].
  intros [= <-]. split; [by eexists|done].
Qed.

Lemma byte_len_nonneg (s : pystr) : 0 <= byte_len s.
Proof. unfold byte_len. destruct (encode s); lia. Qed.

Lemma encodable_join (sep : pystr) (l : list pystr) :
  encodable sep -> Forall encodable l -> encodable (join sep l).
Proof.
  intros Hs. induction 1 as [|p l Hp Hl IH]; [by eexists|].
  destruct l as [|q l]; [done|].
  rewrite join_cons by done. apply encodable_app. split; [done|].
  apply encodable_app. by split.
Qed.

Lemma encodable_join_inv (sep : pystr) (l : list pystr) :
  encodable (join sep l) -> Forall encodable l.
Proof.
  induction l as [|p l IH]; intros H; [constructor|].
  destruct l as [|q l]; [by repeat constructor|].
  rewrite join_cons in H by done.
  apply encodable_app in H as [Hp H]. apply encodable_app in H as [_ H].
  constructor; [done|by apply IH].
Qed.

Lemma encodable_sublist (a b c : pystr) :
  encodable (a ++ b ++ c) -> encodable b.
Proof. intros H. apply encodable_app in H as [_ H]. by apply encodable_app in H as [H _]. Qed.

End TextFacts.

Module ChunkerFacts.
Import Py Utf8 PyText Notification SplitByBytes Chunkers Measure PackingInvariants TextFacts.

(** *** Grouping: what every packing loop does to the sections *)

Lemma grouped_init (sep : pystr) :
  grouped sep {| chunks := []; current_chunk := []; current_bytes := 0 |} [].
Proof. exists []. by repeat split. Qed.

Lemma grouped_append (sep : pystr) (st : packing) seen section cb :
  grouped sep st seen ->
  grouped sep {| chunks := chunks st;
                 current_chunk := current_chunk st ++ [section];
                 current_bytes := cb |} (seen ++ [section]).
Proof.
  intros [groups [Hc [Hg Hs]]]. exists groups. simpl.
  split; [done|]. split; [done|]. by rewrite List.app_assoc, Hs.
Qed.

Lemma flush_groups (sep : pystr) (st : packing) seen :
  grouped sep st seen ->
  exists groups, flush sep st = map (join sep) groups
                 /\ Forall (fun g => g <> []) groups
                 /\ concat groups = seen.
Proof.
  intros [groups [Hc [Hg Hs]]]. unfold flush.
  destruct (current_chunk st) as [|p cur] eqn:E.
  - exists groups. rewrite app_nil_r in Hs. by repeat split.
  - exists (groups ++ [p :: cur])%list. rewrite Hc, map_app. split; [done|].
    split; [apply Forall_app; split; [done|by repeat constructor]|].
    rewrite concat_app. simpl. by rewrite app_nil_r.
Qed.

Lemma grouped_restart (sep : pystr) (st : packing) seen section cb :
  grouped sep st seen ->
  grouped sep {| chunks := flush sep st;
                 current_chunk := [section];
                 current_bytes := cb |} (seen ++ [section]).
Proof.
  intros H. destruct (flush_groups sep st seen H) as [groups [Hf [Hg Hs]]].
  exists groups. simpl. by rewrite Hs.
Qed.

Lemma grouped_flush (sep : pystr) (st : packing) seen :
  grouped sep st seen -> join sep (flush sep st) = join sep seen.
Proof.
  intros H. destruct (flush_groups sep st seen H) as [groups [Hf [Hg Hs]]].
  rewrite Hf, <- Hs. by apply join_groups.
Qed.

Lemma fold_grouped (sep : pystr) (f : packing -> pystr -> packing) :
  (forall st seen s, grouped sep st seen -> grouped sep (f st s) (seen ++ [s])) ->
  forall sections st seen,
    grouped sep st seen ->
    grouped sep (fold_left f sections st) (seen ++ sections).
Proof.
  intros Hf. induction sections as [|s sections IH]; intros st seen H.
  - by rewrite app_nil_r.
  - simpl. replace (seen ++ s :: sections)%list with ((seen ++ [s]) ++ sections)%list
      by (by rewrite <- List.app_assoc).
    apply IH. by apply Hf.
Qed.

Lemma join_length (sep : pystr) (p : pystr) (l : list pystr) :
  l <> [] ->
  length (join sep (l ++ [p])) = (length (join sep l) + length sep + length p)%nat.
Proof.
  intros H. rewrite join_app by done. simpl. rewrite !length_app. lia.
Qed.

(** *** Telegram *)

Section Telegram.
Import TelegramSender.
Context {W : Type}.
Variable send : pystr -> io W bool.

Lemma sent_snoc (w0 : W) msgs w m r w' :
  sent send w0 msgs w -> send m w = (r, w') ->
  sent send w0 (msgs ++ [(m, r)]) w'.
Proof.
  revert w0. induction msgs as [|x msgs IH]; intros w0; simpl.
  - intros -> H. exists w'. split; [exact H|reflexivity].
  - intros [w1 [H1 H2]] H. exists w1. split; [exact H1|]. by apply IH.
Qed.

Lemma forallb_snoc (answers : list bool) (b : bool) :
  forallb id (answers ++ [b]) = (if b then forallb id answers else false).
Proof.
  rewrite forallb_app. cbn [forallb]. change (id b) with b.
  destruct b; [by rewrite !andb_true_r|by rewrite andb_false_r].
Qed.

(** Sending the current chunk: the loop goes on with nothing pending, or
    the send raises and the run is over. *)
Lemma send_current_packed (max_length : Z) (w0 : W) st w seen :
  packed send max_length w0 st w seen ->
  match send_current send st w with
  | (Ret b, w') =>
      packed send max_length w0
        {| current_chunk := []; current_length := 0; all_success := b |}
        w' seen
  | (Raise e, w') =>
      forall rest, cut_short send max_length w0 e w' (seen ++ rest)
  end.
Proof.
  intros [groups [msgs [answers [Hg [Hs [Hm [Ha [Hsent [Hall Hb]]]]]]]]].
  unfold send_current.
  destruct (TelegramSender.current_chunk st) as [|p cur] eqn:Ecur.
  - simpl. exists groups, msgs, answers. simpl.
    repeat (split; [done|]). intros Hseen.
    destruct (Hb Hseen) as [Hmsgs _]. by repeat split.
  - unfold mbind, io_bind, Py.bind, ret.
    destruct (send (join sep_rule (p :: cur)) w) as [[ok|e] w'] eqn:Esend.
    + exists (groups ++ [p :: cur])%list,
             (msgs ++ [(join sep_rule (p :: cur), Ret ok)])%list,
             (answers ++ [ok])%list.
      cbn [TelegramSender.current_chunk TelegramSender.current_length
           TelegramSender.all_success].
      split; [apply Forall_app; split; [done|by repeat constructor]|].
      split; [rewrite concat_app, app_nil_r; simpl; by rewrite app_nil_r|].
      split; [by rewrite !map_app, Hm|].
      split; [by rewrite !map_app, Ha|].
      split; [by eapply sent_snoc|].
      split; [by rewrite forallb_snoc, Hall|].
      intros Hseen. destruct (Hb Hseen) as [Hmsgs [_ Hcur]].
      split; [|done].
      apply Forall_app. split; [done|]. repeat constructor. cbn [fst].
      destruct Hcur as [Hl Hle]; [done|]. lia.
    + intros rest.
      exists (groups ++ [p :: cur])%list, rest,
             (msgs ++ [(join sep_rule (p :: cur), Raise e)])%list, answers.
      split; [apply Forall_app; split; [done|by repeat constructor]|].
      split; [rewrite concat_app; simpl; rewrite app_nil_r; by rewrite Hs|].
      split; [by rewrite !map_app, Hm|].
      split; [by rewrite !map_app, Ha|].
      split; [by eapply sent_snoc|].
      intros Hseen. apply Forall_app in Hseen as [Hseen _].
      destruct (Hb Hseen) as [Hmsgs [_ Hcur]].
      apply Forall_app. split; [done|]. repeat constructor. cbn [fst].
      destruct Hcur as [Hl Hle]; [done|]. lia.
Qed.

Lemma telegram_section_packed (max_length : Z) (w0 : W) st w seen s :
  packed send max_length w0 st w seen ->
  match telegram_section send max_length st s w with
  | (Ret st', w') => packed send max_length w0 st' w' (seen ++ [s])
  | (Raise e, w') =>
      forall rest, cut_short send max_length w0 e w' (seen ++ s :: rest)
  end.
Proof.
  intros Hp. unfold telegram_section.
  destruct (max_length
            <? TelegramSender.current_length st + (Z.of_nat (length s) + 5))
    eqn:E.
  - pose proof (send_current_packed max_length w0 st w seen Hp) as H.
    unfold mbind, io_bind, Py.bind, ret.
    destruct (send_current send st w) as [[b|e] w'].
    + destruct H as [groups [msgs [answers [Hg [Hs [Hm [Ha [Hsent [Hall Hb]]]]]]]]].
      cbn [TelegramSender.current_chunk TelegramSender.current_length
           TelegramSender.all_success] in *.
      exists groups, msgs, answers.
      cbn [TelegramSender.current_chunk TelegramSender.current_length
           TelegramSender.all_success].
      split; [done|]. split; [by rewrite <- Hs, app_nil_r|].
      repeat (split; [done|]).
      intros Hseen. apply Forall_app in Hseen as [Hseen Hlast].
      destruct (Hb Hseen) as [Hmsgs _].
      split; [done|]. split; [done|]. intros _.
      inversion Hlast as [|? ? Hls _]; subst.
      change (join sep_rule [s]) with s. lia.
    + intros rest. exact (H (s :: rest)).
  - apply Z.ltb_ge in E. simpl.
    destruct Hp as [groups [msgs [answers [Hg [Hs [Hm [Ha [Hsent [Hall Hb]]]]]]]]].
    exists groups, msgs, answers.
    cbn [TelegramSender.current_chunk TelegramSender.current_length
         TelegramSender.all_success].
    split; [done|]. split; [by rewrite List.app_assoc, Hs|].
    repeat (split; [done|]).
    intros Hseen. apply Forall_app in Hseen as [Hseen Hlast].
    destruct (Hb Hseen) as [Hmsgs [Hnil Hcur]].
    split; [done|]. split; [by destruct (TelegramSender.current_chunk st)|].
    intros _.
    destruct (TelegramSender.current_chunk st) as [|p cur] eqn:Ecur.
    + rewrite Hnil in * by done.
      change (join sep_rule ([] ++ [s])) with s. lia.
    + destruct Hcur as [Hcb Hle]; [done|].
      rewrite (join_length sep_rule s (p :: cur)) by done.
      simpl length in *. lia.
Qed.

Lemma telegram_sections_packed (max_length : Z) (w0 : W) sections :
  forall st w seen,
    packed send max_length w0 st w seen ->
    match telegram_sections send max_length st sections w with
    | (Ret st', w') => packed send max_length w0 st' w' (seen ++ sections)
    | (Raise e, w') => cut_short send max_length w0 e w' (seen ++ sections)
    end.
Proof.
  induction sections as [|s sections IH]; intros st w seen Hp.
  - simpl. by rewrite app_nil_r.
  - cbn [telegram_sections]. unfold mbind, io_bind, Py.bind.
    pose proof (telegram_section_packed max_length w0 st w seen s Hp) as H.
    destruct (telegram_section send max_length st s w) as [[st'|e] w'].
    + specialize (IH st' w' (seen ++ [s])%list H).
      by rewrite <- List.app_assoc in IH.
    + apply H.
Qed.

(** The whole run, by its two ends. *)
Lemma telegram_run (content : pystr) (max_length : Z) (w : W) :
  match _send_telegram_chunked send content max_length w with
  | (Ret b, w') =>
      packed send max_length w
        {| current_chunk := []; current_length := 0; all_success := b |}
        w' (split sep_rule content)
  | (Raise e, w') =>
      cut_short send max_length w e w' (split sep_rule content)
  end.
Proof.
  unfold _send_telegram_chunked, mbind, io_bind, Py.bind.
  pose proof (telegram_sections_packed max_length w (split sep_rule content)
                {| current_chunk := []; current_length := 0;
                   all_success := true |} w []) as H.
  simpl app in H.
  destruct (telegram_sections send max_length _ (split sep_rule content) w)
    as [[st|e] w'].
  - assert (Hp : packed send max_length w st w' (split sep_rule content)).
    { apply H. exists [], [], []. simpl. by repeat split. }
    pose proof (send_current_packed max_length w st w' _ Hp) as Hc.
    destruct (send_current send st w') as [[b|e] w''].
    + done.
    + specialize (Hc []). by rewrite app_nil_r in Hc.
  - apply H. exists [], [], []. simpl. by repeat split.
Qed.

(** X4. [_send_telegram_chunked] cuts at the rule ["\n---\n"] and sends
    as it goes.  The texts it hands to [_send_telegram_message], each on
    the world the send before left, are the joins by the rule of
    consecutive non-empty groups of the sections of the content, in
    order, whatever the length limit.  When no send raises, every
    section is sent: the messages joined again by the rule are the
    content, there is at least one, and the result tells whether every
    send answered [True].  When a send raises, no send before it did,
    nothing is sent after it, and the error leaves the method. *)
Theorem telegram_chunks_rejoin_to_content (content : pystr) (max_length : Z)
    (w : W) :
  let res := _send_telegram_chunked send content max_length w in
  exists (groups : list (list pystr)) (rest : list pystr)
         (msgs : list (pystr * outcome bool)) (answers : list bool),
    sent send w msgs res.2
    /\ Forall (fun g => g <> []) groups
    /\ (concat groups ++ rest)%list = split sep_rule content
    /\ map fst msgs = map (join sep_rule) groups
    /\ ((res.1 = Ret (forallb id answers)
         /\ map snd msgs = map Ret answers
         /\ rest = []
         /\ msgs <> []
         /\ join sep_rule (map fst msgs) = content)
        \/ (exists e, res.1 = Raise e
                      /\ map snd msgs = (map Ret answers ++ [Raise e])%list)).
Proof.
  cbv zeta. pose proof (telegram_run content max_length w) as H.
  destruct (_send_telegram_chunked send content max_length w) as [[b|e] w'].
  - destruct H as [groups [msgs [answers [Hg [Hs [Hm [Ha [Hsent [Hall _]]]]]]]]].
    simpl in Hs, Hall. rewrite app_nil_r in Hs.
    exists groups, [], msgs, answers. simpl.
    split; [done|]. split; [done|]. split; [by rewrite app_nil_r|].
    split; [done|]. left.
    split; [by rewrite Hall|]. split; [done|]. split; [done|]. split.
    + intros ->. destruct groups; [|done]. simpl in Hs.
      by destruct (split_nonempty sep_rule content).
    + rewrite Hm, join_groups by done. rewrite Hs. by apply join_split.
  - destruct H as [groups [rest [msgs [answers [Hg [Hs [Hm [Ha [Hsent _]]]]]]]]].
    exists groups, rest, msgs, answers. simpl.
    repeat (split; [done|]). right. by exists e.
Qed.

(** X5. [_send_telegram_chunked] counts five characters for every
    section, so when every section between two rules has at most
    [max_length - 5] characters, every text handed to
    [_send_telegram_message], the one on which a send raised included,
    has at most [max_length - 5] characters. *)
Theorem telegram_chunks_within_length (content : pystr) (max_length : Z)
    (w : W) :
  Forall (fun s => Z.of_nat (length s) + 5 <= max_length)
         (split sep_rule content) ->
  let res := _send_telegram_chunked send content max_length w in
  exists (groups : list (list pystr)) (rest : list pystr)
         (msgs : list (pystr * outcome bool)) (answers : list bool),
    sent send w msgs res.2
    /\ Forall (fun g => g <> []) groups
    /\ (concat groups ++ rest)%list = split sep_rule content
    /\ map fst msgs = map (join sep_rule) groups
    /\ ((res.1 = Ret (forallb id answers)
         /\ map snd msgs = map Ret answers
         /\ rest = [])
        \/ (exists e, res.1 = Raise e
                      /\ map snd msgs = (map Ret answers ++ [Raise e])%list))
    /\ Forall (fun m => Z.of_nat (length m.1) + 5 <= max_length) msgs.
Proof.
  intros Hlen. cbv zeta. pose proof (telegram_run content max_length w) as H.
  destruct (_send_telegram_chunked send content max_length w) as [[b|e] w'].
  - destruct H as [groups [msgs [answers [Hg [Hs [Hm [Ha [Hsent [Hall Hb]]]]]]]]].
    simpl in Hs, Hall. rewrite app_nil_r in Hs.
    exists groups, [], msgs, answers. simpl.
    split; [done|]. split; [done|]. split; [by rewrite app_nil_r|].
    split; [done|]. split; [left; by rewrite Hall|].
    by destruct (Hb Hlen).
  - destruct H as [groups [rest [msgs [answers [Hg [Hs [Hm [Ha [Hsent Hb]]]]]]]]].
    exists groups, rest, msgs, answers. simpl.
    repeat (split; [done|]). split; [right; by exists e|]. by apply Hb.
Qed.

End Telegram.

Lemma telegram_chunks_within_length_witness :
  Forall (fun s => Z.of_nat (length s) + 5 <= 8)
         (split sep_rule Examples.ab_rule_ni)
  /\ TelegramSender._send_telegram_chunked (Examples.outbox 4096)
       Examples.ab_rule_ni 8 []
     = (Ret true, [lit "ab"; [20320]])
  /\ (let res := TelegramSender._send_telegram_chunked (Examples.outbox 4096)
                   Examples.ab_rule_ni 8 [] in
      exists (groups : list (list pystr)) (rest : list pystr)
             (msgs : list (pystr * outcome bool)) (answers : list bool),
        TelegramSender.sent (Examples.outbox 4096) [] msgs res.2
        /\ Forall (fun g => g <> []) groups
        /\ (concat groups ++ rest)%list = split sep_rule Examples.ab_rule_ni
        /\ map fst msgs = map (join sep_rule) groups
        /\ ((res.1 = Ret (forallb id answers)
             /\ map snd msgs = map Ret answers
             /\ rest = [])
            \/ (exists e, res.1 = Raise e
                          /\ map snd msgs
                             = (map Ret answers ++ [Raise e])%list))
        /\ Forall (fun m => Z.of_nat (length m.1) + 5 <= 8) msgs).
Proof.
  assert (H : Forall (fun s => Z.of_nat (length s) + 5 <= 8)
                (split sep_rule Examples.ab_rule_ni)).
  { vm_compute. repeat constructor; discriminate. }
  split; [exact H|]. split; [vm_compute; reflexivity|].
  exact (telegram_chunks_within_length (Examples.outbox 4096) _ 8 [] H).
Defined.

(** A section longer than that is sent whole, as one message over the
    limit. *)
Lemma telegram_long_section_sent_whole :
  TelegramSender._send_telegram_chunked (Examples.outbox 4096)
    (lit "abcdefgh" ++ sep_rule ++ lit "i") 6 []
  = (Ret true, [lit "abcdefgh"; lit "i"]).
Proof. vm_compute. reflexivity. Qed.

(** A send that raises ends the run: the sections after it are not
    sent. *)
Lemma telegram_raising_send_ends_the_run :
  TelegramSender._send_telegram_chunked (Examples.outbox 4)
    (lit "ab" ++ sep_rule ++ lit "abcdefgh" ++ sep_rule ++ lit "i") 8 []
  = (Raise "ConnectionError", [lit "ab"]).
Proof. vm_compute. reflexivity. Qed.

(** *** Pushover *)

Lemma pushover_grouped (sep : pystr) (max_length : Z) st seen s :
  grouped sep st seen ->
  grouped sep (pushover_section sep max_length st s) (seen ++ [s]).
Proof.
  intros H. unfold pushover_section.
  destruct (max_length <? _); [by apply grouped_restart|by apply grouped_append].
Qed.

Lemma pushover_separator_nonempty (content : pystr) :
  pushover_separator content <> [].
Proof. unfold pushover_separator. by destruct (contains sep_line content). Qed.

Lemma pushover_step_ok (sep : pystr) (max_length : Z) st s :
  Z.of_nat (length s) <= max_length ->
  pushover_ok sep max_length st ->
  pushover_ok sep max_length (pushover_section sep max_length st s).
Proof.
  intros Hs [Hc Hcur]. unfold pushover_section.
  destruct (current_chunk st) as [|p cur] eqn:Ecur.
  - destruct (max_length <? Z.of_nat (length s)) eqn:E.
    + split; cbn [chunks current_chunk current_bytes]; [|intros _; simpl; lia].
      unfold flush. by rewrite Ecur.
    + apply Z.ltb_ge in E.
      split; cbn [chunks current_chunk current_bytes]; [done|intros _].
      simpl. lia.
  - destruct Hcur as [Hcb Hle]; [done|].
    destruct (max_length <? _) eqn:E.
    + split; cbn [chunks current_chunk current_bytes]; [|intros _; simpl; lia].
      unfold flush. rewrite Ecur.
      apply Forall_app. split; [done|]. repeat constructor. lia.
    + apply Z.ltb_ge in E.
      split; cbn [chunks current_chunk current_bytes]; [done|intros _].
      rewrite (join_length sep s (p :: cur)) by done.
      simpl length in *. lia.
Qed.

Lemma pushover_fold_ok (sep : pystr) (max_length : Z) sections : forall st,
  Forall (fun s => Z.of_nat (length s) <= max_length) sections ->
  pushover_ok sep max_length st ->
  pushover_ok sep max_length
    (fold_left (pushover_section sep max_length) sections st).
Proof.
  induction sections as [|s sections IH]; intros st Hs Hok; [done|].
  inversion Hs; subst. simpl. apply IH; [done|]. by apply pushover_step_ok.
Qed.

Lemma fst_imap {A B} (f : nat -> A -> A * B) (l : list A) :
  (forall i x, fst (f i x) = x) -> map fst (imap f l) = l.
Proof.
  revert f. induction l as [|x l IH]; intros f Hf; [done|].
  simpl. rewrite Hf. f_equal. apply IH. intros i y. apply Hf.
Qed.

(** The payloads of [_send_pushover_chunked] carry the chunks, in order. *)
Lemma pushover_payload_chunks (content title : pystr) (max_length : Z) :
  map fst (_send_pushover_chunked content title max_length)
  = pushover_chunks content max_length.
Proof. unfold _send_pushover_chunked. by apply fst_imap. Qed.

(** X6. [_send_pushover_chunked] loses nothing, and its length
    accounting is exact: the messages joined by the separator it chose
    are the content, and when every section has at most [max_length]
    characters so has every message. *)
Theorem pushover_chunks_rejoin_and_fit
    (content title : pystr) (max_length : Z) :
  let messages := map fst (_send_pushover_chunked content title max_length) in
  join (pushover_separator content) messages = content
  /\ (Forall (fun s => Z.of_nat (length s) <= max_length)
             (split (pushover_separator content) content) ->
      Forall (fun m => Z.of_nat (length m) <= max_length) messages).
Proof.
  cbv zeta. rewrite pushover_payload_chunks.
  unfold pushover_chunks. set (sep := pushover_separator content). split.
  - pose proof (fold_grouped sep (pushover_section sep max_length)
                  (pushover_grouped sep max_length) (split sep content) _ []
                  (grouped_init sep)) as H.
    simpl in H. rewrite (grouped_flush _ _ _ H).
    apply join_split, pushover_separator_nonempty.
  - intros Hs.
    destruct (pushover_fold_ok sep max_length (split sep content)
                {| chunks := []; current_chunk := []; current_bytes := 0 |} Hs)
      as [Hc Hcur]; [by split|].
    unfold flush. destruct (current_chunk _) as [|p cur]; [done|].
    apply Forall_app. split; [done|]. repeat constructor.
    destruct Hcur; [done|]. lia.
Qed.

Lemma pushover_chunks_witness :
  map fst (_send_pushover_chunked Examples.ab_blank_cd (lit "t") 3)
  = [lit "ab"; lit "cd"]
  /\ (let messages :=
        map fst (_send_pushover_chunked Examples.ab_blank_cd (lit "t") 3) in
      join (pushover_separator Examples.ab_blank_cd) messages
      = Examples.ab_blank_cd
      /\ (Forall (fun s => Z.of_nat (length s) <= 3)
                 (split (pushover_separator Examples.ab_blank_cd)
                    Examples.ab_blank_cd) ->
          Forall (fun m => Z.of_nat (length m) <= 3) messages)).
Proof.
  split; [vm_compute; reflexivity|].
  exact (pushover_chunks_rejoin_and_fit Examples.ab_blank_cd (lit "t") 3).
Defined.

(** *** [_chunk_markdown_by_bytes] *)

Lemma lstrip_suffix (s : pystr) : exists a, s = (a ++ lstrip s)%list.
Proof.
  induction s as [|c s [a IH]]; [by exists []|].
  simpl. destruct (is_whitespace c).
  - exists (c :: a). simpl. by rewrite <- IH.
  - by exists [].
Qed.

Lemma strip_infix (s : pystr) : exists a b, s = (a ++ strip s ++ b)%list.
Proof.
  unfold strip, rstrip. destruct (lstrip_suffix s) as [a Ha].
  destruct (lstrip_suffix (rev (lstrip s))) as [b Hb].
  exists a, (rev b). rewrite Ha at 1. f_equal.
  rewrite <- rev_app_distr, <- Hb. by rewrite rev_involutive.
Qed.

Lemma strip_fits (s : pystr) (n : Z) :
  encodable s -> byte_len s <= n -> encodable (strip s) /\ byte_len (strip s) <= n.
Proof.
  intros He Hn. destruct (strip_infix s) as [a [b Hs]].
  rewrite Hs in He. pose proof He as He'.
  apply encodable_app in He' as [Ha He']. apply encodable_app in He' as [Hm Hb].
  split; [done|].
  rewrite Hs, byte_len_app, byte_len_app in Hn by (done || by apply encodable_app).
  pose proof (byte_len_nonneg a). pose proof (byte_len_nonneg b). lia.
Qed.

Lemma flush_fits (sep : pystr) (max_bytes : Z) (st : packing) :
  encodable sep -> md_ok sep max_bytes st ->
  Forall (fits max_bytes) (flush sep st).
Proof.
  intros Hsep [Hc [He [_ Hcur]]]. unfold flush.
  destruct (current_chunk st) as [|p cur] eqn:E; [done|].
  apply Forall_app. split; [done|]. repeat constructor.
  - by apply encodable_join.
  - destruct Hcur; [done|]. lia.
Qed.

Lemma byte_len_join_snoc (sep s : pystr) (l : list pystr) :
  l <> [] -> encodable sep -> encodable s -> Forall encodable l ->
  byte_len (join sep (l ++ [s]))
  = byte_len (join sep l) + byte_len sep + byte_len s.
Proof.
  intros Hl Hsep Hs Hall. rewrite join_app by done. simpl.
  rewrite byte_len_app, byte_len_app; [lia|done|done| |].
  - by apply encodable_join.
  - by apply encodable_app.
Qed.

Lemma split_parts_fit (section : pystr) (limit max_bytes : Z) :
  4 <= limit -> limit <= max_bytes -> encodable section ->
  exists parts, split_by_bytes section limit = Some parts
                /\ Forall (fits max_bytes) parts.
Proof.
  intros H4 Hle [enc He].
  destruct (SplitByBytesFacts.split_loop_spec limit (length section) H4
              section enc ltac:(lia) He) as [parts [Hs [Hcat Hall]]].
  exists parts. split; [exact Hs|].
  assert (Hen : encodable (concat parts)) by (rewrite Hcat; by eexists).
  clear Hs Hcat He. induction Hall as [|p parts [_ Hp] _ IH]; [constructor|].
  simpl in Hen. apply encodable_app in Hen as [H1 H2].
  constructor; [split; [done|lia]|by apply IH].
Qed.

Lemma chunk_section_ok (sep : pystr) (max_bytes : Z) st section :
  200 <= max_bytes -> encodable sep -> encodable section ->
  md_ok sep max_bytes st ->
  exists st', chunk_section sep (byte_len sep) max_bytes st section = Some st'
              /\ md_ok sep max_bytes st'.
Proof.
  intros Hm Hsep Hs Hok. pose proof Hok as [Hc [He [Hnil Hcur]]].
  unfold chunk_section. rewrite (get_bytes_encodable _ Hs).
  pose proof (byte_len_nonneg sep) as Hsep0.
  pose proof (byte_len_nonneg section) as Hs0.
  set (extra := match current_chunk st with [] => 0 | _ => byte_len sep end).
  assert (Hextra : 0 <= extra) by (unfold extra; destruct (current_chunk st); lia).
  destruct (max_bytes <? byte_len section + extra) eqn:E1.
  - destruct (split_parts_fit section (Z.max 200 (max_bytes - 200)) max_bytes)
      as [parts [Hp Hfit]]; [lia|lia|done|].
    rewrite Hp. eexists. split; [reflexivity|].
    split; [|split; [|split]]; cbn [chunks current_chunk current_bytes].
    + apply Forall_app. split; [by apply flush_fits|done].
    + constructor.
    + intros _. destruct (current_chunk st); [by apply Hnil|done].
    + done.
  - apply Z.ltb_ge in E1.
    destruct (max_bytes <? current_bytes st + byte_len section + extra) eqn:E2.
    + eexists. split; [reflexivity|].
      split; [|split; [|split]]; cbn [chunks current_chunk current_bytes].
      * apply Forall_app. split; [done|]. repeat constructor.
        -- by apply encodable_join.
        -- destruct (current_chunk st) eqn:Ec; [simpl; unfold byte_len; simpl; lia|].
           destruct Hcur; [done|]. lia.
      * by repeat constructor.
      * done.
      * intros _. simpl. lia.
    + apply Z.ltb_ge in E2. eexists. split; [reflexivity|].
      split; [|split; [|split]]; cbn [chunks current_chunk current_bytes].
      * done.
      * apply Forall_app. split; [done|by repeat constructor].
      * by destruct (current_chunk st).
      * intros _. unfold extra in *.
        destruct (current_chunk st) as [|p cur] eqn:Ec.
        -- rewrite Hnil by done. simpl. lia.
        -- destruct Hcur as [Hcb Hle]; [done|].
           rewrite byte_len_join_snoc by done. lia.
Qed.

Lemma chunk_sections_ok (sep : pystr) (max_bytes : Z) sections : forall st,
  200 <= max_bytes -> encodable sep -> Forall encodable sections ->
  md_ok sep max_bytes st ->
  exists st', chunk_sections sep (byte_len sep) max_bytes st sections = Some st'
              /\ md_ok sep max_bytes st'.
Proof.
  induction sections as [|s sections IH]; intros st Hm Hsep Hall Hok.
  - by exists st.
  - inversion Hall as [|? ? Hs Hrest]; subst.
    destruct (chunk_section_ok sep max_bytes st s) as [st1 [Hst1 Hok1]]; try done.
    simpl. rewrite Hst1. by apply IH.
Qed.

Lemma md_ok_init (sep : pystr) (max_bytes : Z) :
  md_ok sep max_bytes {| chunks := []; current_chunk := []; current_bytes := 0 |}.
Proof. by repeat split. Qed.

Lemma encodable_lit_ascii (l : pystr) :
  forallb (fun c => (0 <=? c) && (c <? 128)) l = true -> encodable l.
Proof.
  induction l as [|c l IH]; intros H; [by eexists|].
  simpl in H. apply andb_true_iff in H as [Hc Hl].
  destruct (IH Hl) as [e He]. unfold encodable. simpl. rewrite He.
  replace (is_scalar c) with true; [by eexists|].
  unfold is_scalar. apply andb_true_iff in Hc as [H0 H1].
  apply Z.leb_le in H0. apply Z.ltb_lt in H1.
  symmetry. apply orb_true_iff. left. apply andb_true_iff.
  split; [apply Z.leb_le|apply Z.ltb_lt]; lia.
Qed.

Lemma md_finish (sep : pystr) (max_bytes : Z) (st : packing) :
  encodable sep -> md_ok sep max_bytes st ->
  Forall (fun c => c <> [] /\ byte_len c <= max_bytes)
         (List.filter nonempty (map strip (flush sep st))).
Proof.
  intros Hsep Hok. pose proof (flush_fits _ _ _ Hsep Hok) as H.
  induction H as [|c cs [Hc Hb] _ IH]; [constructor|].
  simpl. destruct (strip_fits c max_bytes Hc Hb) as [_ Hfit].
  destruct (strip c) eqn:E; simpl; [exact IH|].
  constructor; [|exact IH]. split; [done|exact Hfit].
Qed.

(** X7. [_chunk_markdown_by_bytes], the chunker of the DingTalk sender,
    keeps its budget: for content that has a UTF-8 encoding and a budget
    of at least 200 octets it returns chunks that are non-empty and at
    most [max_bytes] octets long each. *)
Theorem chunk_markdown_within_budget
    (content : pystr) (encoded : pybytes) (max_bytes : Z) :
  200 <= max_bytes ->
  encode content = Some encoded ->
  exists cs,
    _chunk_markdown_by_bytes content max_bytes = Some cs
    /\ Forall (fun c => c <> [] /\ byte_len c <= max_bytes) cs.
Proof.
  intros Hm He. assert (Hc : encodable content) by (by eexists).
  unfold _chunk_markdown_by_bytes.
  assert (Hrule : encodable sep_rule) by (by apply encodable_lit_ascii).
  assert (Hlf : encodable [LF]) by (by apply encodable_lit_ascii).
  assert (Hgo : forall sep sections,
             encodable sep -> join sep sections = content ->
             exists cs,
               match get_bytes sep with
               | Some sep_bytes =>
                   match chunk_sections sep sep_bytes max_bytes
                           {| chunks := []; current_chunk := [];
                              current_bytes := 0 |} sections with
                   | Some st =>
                       Some (List.filter nonempty (map strip (flush sep st)))
                   | None => None
                   end
               | None => None
               end = Some cs
               /\ Forall (fun c => c <> [] /\ byte_len c <= max_bytes) cs).
  { intros sep sections Hsep Hj. rewrite (get_bytes_encodable _ Hsep).
    assert (Hall : Forall encodable sections).
    { apply (encodable_join_inv sep). by rewrite Hj. }
    destruct (chunk_sections_ok sep max_bytes sections _ Hm Hsep Hall
                (md_ok_init sep max_bytes)) as [st [Hst Hok]].
    rewrite Hst. eexists. split; [reflexivity|]. by apply md_finish. }
  destruct (contains sep_rule content).
  - apply Hgo; [done|]. by apply join_split.
  - destruct (contains sep_h3 content).
    + apply Hgo; [done|]. apply (join_reheaded (lit "### ")).
    + apply Hgo; [done|]. by apply join_split.
Qed.

Lemma chunk_markdown_within_budget_witness :
  200 <= 200
  /\ encode Examples.ab_rule_ni = Some Examples.ab_rule_ni_encoded
  /\ _chunk_markdown_by_bytes Examples.ab_rule_ni 200
     = Some [Examples.ab_rule_ni]
  /\ exists cs,
       _chunk_markdown_by_bytes Examples.ab_rule_ni 200 = Some cs
       /\ Forall (fun c => c <> [] /\ byte_len c <= 200) cs.
Proof.
  assert (H0 : 200 <= 200) by lia.
  assert (H1 : encode Examples.ab_rule_ni = Some Examples.ab_rule_ni_encoded)
    by (vm_compute; reflexivity).
  split; [exact H0|]. split; [exact H1|]. split; [vm_compute; reflexivity|].
  exact (chunk_markdown_within_budget _ _ 200 H0 H1).
Defined.

End ChunkerFacts.

Module PackFacts.
Import Utf8 PyText Notification Measure PackingInvariants TextFacts ChunkerFacts.

Lemma pack_flush_fits (sep : pystr) (limit : Z) (st : packing) :
  encodable sep -> pack_ok sep limit st -> Forall (fits limit) (flush sep st).
Proof.
  intros Hsep [Hc [He [_ Hcur]]]. unfold flush.
  destruct (current_chunk st) as [|p cur] eqn:E; [done|].
  apply Forall_app. split; [done|]. repeat constructor.
  - by apply encodable_join.
  - destruct Hcur; [done|]. pose proof (byte_len_nonneg sep). lia.
Qed.

Lemma truncation_note_bytes :
  encodable truncation_note /\ byte_len truncation_note = 34.
Proof. split; [by eexists|]. vm_compute. reflexivity. Qed.

Lemma pack_section_ok (sep : pystr) (limit : Z) st section :
  200 <= limit -> encodable sep -> encodable section ->
  pack_ok sep limit st ->
  exists st', pack_section sep limit (limit - 200) st section = Some st'
              /\ pack_ok sep limit st'.
Proof.
  intros Hm Hsep Hs Hok. pose proof Hok as [Hc [He [Hnil Hcur]]].
  unfold pack_section.
  rewrite (get_bytes_encodable _ Hs), (get_bytes_encodable _ Hsep).
  pose proof (byte_len_nonneg sep) as Hsep0.
  pose proof (byte_len_nonneg section) as Hs0.
  cbv zeta.
  destruct (limit <? byte_len section + byte_len sep) eqn:E1.
  - destruct Hs as [enc Henc].
    destruct (TruncateMore.truncate_nonneg section enc (limit - 200)
                ltac:(lia) Henc) as [r [Hr [[rest Hp] Hb]]].
    rewrite Hr. eexists. split; [reflexivity|].
    assert (Hre : encodable r).
    { assert (H : encodable section) by (by eexists).
      rewrite Hp in H. by apply encodable_app in H as [H _]. }
    destruct truncation_note_bytes as [Hn1 Hn2].
    split; [|split; [|split]]; cbn [chunks current_chunk current_bytes].
    + apply Forall_app. split; [by apply pack_flush_fits|].
      repeat constructor; [by apply encodable_app|].
      rewrite byte_len_app by done. lia.
    + constructor.
    + intros _. destruct (current_chunk st); [by apply Hnil|done].
    + done.
  - apply Z.ltb_ge in E1.
    destruct (limit <? current_bytes st + (byte_len section + byte_len sep)) eqn:E2.
    + eexists. split; [reflexivity|].
      split; [|split; [|split]]; cbn [chunks current_chunk current_bytes].
      * by apply pack_flush_fits.
      * by repeat constructor.
      * done.
      * intros _. simpl. lia.
    + apply Z.ltb_ge in E2. eexists. split; [reflexivity|].
      split; [|split; [|split]]; cbn [chunks current_chunk current_bytes].
      * done.
      * apply Forall_app. split; [done|by repeat constructor].
      * by destruct (current_chunk st).
      * intros _. destruct (current_chunk st) as [|p cur] eqn:Ec.
        -- rewrite Hnil by done. simpl. lia.
        -- destruct Hcur as [Hcb Hle]; [done|].
           rewrite byte_len_join_snoc by done. lia.
Qed.

Lemma pack_sections_ok (sep : pystr) (limit : Z) sections : forall st,
  200 <= limit -> encodable sep -> Forall encodable sections ->
  pack_ok sep limit st ->
  exists st', pack_sections sep limit (limit - 200) st sections = Some st'
              /\ pack_ok sep limit st'.
Proof.
  induction sections as [|s sections IH]; intros st Hm Hsep Hall Hok.
  - by exists st.
  - inversion Hall as [|? ? Hs Hrest]; subst.
    destruct (pack_section_ok sep limit st s) as [st1 [Hst1 Hok1]]; try done.
    simpl. rewrite Hst1. by apply IH.
Qed.

(** The chunks of the shared packing loop stay within the limit they are
    packed against, when the limit leaves room for the 200 octets the
    cut of an oversized section sets aside. *)
Lemma pack_within_limit (sep content : pystr) (limit : Z) sections :
  200 <= limit -> encodable sep -> encodable content ->
  join sep sections = content ->
  exists cs, pack sep limit (limit - 200) sections = Some cs
             /\ Forall (fun c => byte_len c <= limit) cs.
Proof.
  intros Hm Hsep Hc Hj. unfold pack.
  assert (Hall : Forall encodable sections).
  { apply (encodable_join_inv sep). by rewrite Hj. }
  destruct (pack_sections_ok sep limit sections
              {| chunks := []; current_chunk := []; current_bytes := 0 |}
              Hm Hsep Hall) as [st [Hst Hok]]; [by repeat split|].
  rewrite Hst. eexists. split; [reflexivity|].
  pose proof (pack_flush_fits _ _ _ Hsep Hok) as H.
  eapply Forall_impl; [exact H|]. by intros c [_ ?].
Qed.

(** X8. [_send_feishu_chunked], when the content has a rule or a
    level-3 heading to cut at: for content that has a UTF-8 encoding and
    [max_bytes] of at least 200, every chunk is at most [max_bytes]
    octets long before its page marker is appended; the payloads are the
    chunks with their markers. *)
Theorem feishu_chunks_within_budget_before_marker
    (content : pystr) (encoded : pybytes) (max_bytes : Z) :
  200 <= max_bytes ->
  encode content = Some encoded ->
  contains sep_rule content || contains sep_h3 content = true ->
  exists cs,
    _send_feishu_chunked content max_bytes
    = Some (paginate feishu_page_marker cs)
    /\ Forall (fun c => byte_len c <= max_bytes) cs.
Proof.
  intros Hm He Hsep. assert (Hc : encodable content) by (by eexists).
  unfold _send_feishu_chunked. cbv zeta.
  assert (Hrule : encodable sep_rule) by (by apply encodable_lit_ascii).
  assert (Hlf : encodable [LF]) by (by apply encodable_lit_ascii).
  destruct (contains sep_rule content).
  - destruct (pack_within_limit sep_rule content max_bytes
                (split sep_rule content) Hm Hrule Hc) as [cs [Hp Hall]].
    { by apply join_split. }
    rewrite Hp. by exists cs.
  - simpl in Hsep. rewrite Hsep.
    destruct (pack_within_limit [LF] content max_bytes
                (reheaded (lit "### ") (split sep_h3 content)) Hm Hlf Hc)
      as [cs [Hp Hall]].
    { apply (join_reheaded (lit "### ")). }
    rewrite Hp. by exists cs.
Qed.

Lemma feishu_chunks_within_budget_witness :
  200 <= 200
  /\ encode Examples.ab_rule_ni = Some Examples.ab_rule_ni_encoded
  /\ contains sep_rule Examples.ab_rule_ni
     || contains sep_h3 Examples.ab_rule_ni = true
  /\ _send_feishu_chunked Examples.ab_rule_ni 200 = Some [Examples.ab_rule_ni]
  /\ exists cs,
       _send_feishu_chunked Examples.ab_rule_ni 200
       = Some (paginate feishu_page_marker cs)
       /\ Forall (fun c => byte_len c <= 200) cs.
Proof.
  assert (H0 : 200 <= 200) by lia.
  assert (H1 : encode Examples.ab_rule_ni = Some Examples.ab_rule_ni_encoded)
    by (vm_compute; reflexivity).
  assert (H2 : contains sep_rule Examples.ab_rule_ni
               || contains sep_h3 Examples.ab_rule_ni = true)
    by (vm_compute; reflexivity).
  split; [exact H0|]. split; [exact H1|]. split; [exact H2|].
  split; [vm_compute; reflexivity|].
  exact (feishu_chunks_within_budget_before_marker _ _ 200 H0 H1 H2).
Defined.

Lemma wechat_chunked_room (content : pystr) (max_bytes : Z) :
  250 <= max_bytes ->
  encodable content ->
  contains sep_rule content || contains sep_h3 content
  || contains sep_h2 content || contains sep_bold content = true ->
  exists cs,
    _send_wechat_chunked content max_bytes
    = Some (paginate wechat_page_marker cs)
    /\ Forall (fun c => byte_len c <= max_bytes - 50) cs.
Proof.
  intros Hm Hc Hsep.
  unfold _send_wechat_chunked. cbv zeta.
  assert (Hrule : encodable sep_rule) by (by apply encodable_lit_ascii).
  assert (Hlf : encodable [LF]) by (by apply encodable_lit_ascii).
  assert (Hgo : forall sep sections,
             encodable sep -> join sep sections = content ->
             exists cs,
               match pack sep (max_bytes - 50) (max_bytes - 50 - 200) sections with
               | Some cs => Some (paginate wechat_page_marker cs)
               | None => None
               end = Some (paginate wechat_page_marker cs)
               /\ Forall (fun c => byte_len c <= max_bytes - 50) cs).
  { intros sep sections Hs Hj.
    destruct (pack_within_limit sep content (max_bytes - 50) sections
                ltac:(lia) Hs Hc Hj) as [cs [Hp Hall]].
    rewrite Hp. by exists cs. }
  destruct (contains sep_rule content).
  { apply Hgo; [done|]. by apply join_split. }
  destruct (contains sep_h3 content).
  { apply Hgo; [done|]. apply (join_reheaded (lit "### ")). }
  destruct (contains sep_h2 content).
  { apply Hgo; [done|]. apply (join_reheaded (lit "## ")). }
  simpl in Hsep. rewrite Hsep.
  apply Hgo; [done|]. apply (join_reheaded (lit "**")).
Qed.

(** X9. [_send_wechat_chunked], when the content has a rule, a level-3
    or level-2 heading or a bold line to cut at: for content that has a
    UTF-8 encoding and [max_bytes] of at least 250, every chunk is at
    most [max_bytes - 50] octets long before its page marker is
    appended. *)
Theorem wechat_chunks_leave_room_for_marker
    (content : pystr) (encoded : pybytes) (max_bytes : Z) :
  250 <= max_bytes ->
  encode content = Some encoded ->
  contains sep_rule content || contains sep_h3 content
  || contains sep_h2 content || contains sep_bold content = true ->
  exists cs,
    _send_wechat_chunked content max_bytes
    = Some (paginate wechat_page_marker cs)
    /\ Forall (fun c => byte_len c <= max_bytes - 50) cs.
Proof.
  intros Hm He Hsep. apply wechat_chunked_room; [done| |done]. by eexists.
Qed.

Lemma wechat_chunks_witness :
  250 <= 250
  /\ encode Examples.ab_h2_ni = Some Examples.ab_h2_ni_encoded
  /\ contains sep_rule Examples.ab_h2_ni || contains sep_h3 Examples.ab_h2_ni
     || contains sep_h2 Examples.ab_h2_ni
     || contains sep_bold Examples.ab_h2_ni = true
  /\ _send_wechat_chunked Examples.ab_h2_ni 250 = Some [Examples.ab_h2_ni]
  /\ exists cs,
       _send_wechat_chunked Examples.ab_h2_ni 250
       = Some (paginate wechat_page_marker cs)
       /\ Forall (fun c => byte_len c <= 250 - 50) cs.
Proof.
  assert (H0 : 250 <= 250) by lia.
  assert (H1 : encode Examples.ab_h2_ni = Some Examples.ab_h2_ni_encoded)
    by (vm_compute; reflexivity).
  assert (H2 : contains sep_rule Examples.ab_h2_ni
               || contains sep_h3 Examples.ab_h2_ni
               || contains sep_h2 Examples.ab_h2_ni
               || contains sep_bold Examples.ab_h2_ni = true)
    by (vm_compute; reflexivity).
  split; [exact H0|]. split; [exact H1|]. split; [exact H2|].
  split; [vm_compute; reflexivity|].
  exact (wechat_chunks_leave_room_for_marker _ _ 250 H0 H1 H2).
Defined.

(** *** Nothing lost when no section is oversized *)

Lemma pack_section_grouped (sep : pystr) (limit cut_to : Z) st seen section :
  encodable sep -> encodable section ->
  byte_len section + byte_len sep <= limit ->
  grouped sep st seen ->
  exists st', pack_section sep limit cut_to st section = Some st'
              /\ grouped sep st' (seen ++ [section]).
Proof.
  intros Hsep Hs Hfit Hg. unfold pack_section.
  rewrite (get_bytes_encodable _ Hs), (get_bytes_encodable _ Hsep). cbv zeta.
  replace (limit <? byte_len section + byte_len sep) with false
    by (symmetry; apply Z.ltb_ge; lia).
  destruct (limit <? _); eexists; (split; [reflexivity|]).
  - by apply grouped_restart.
  - by apply grouped_append.
Qed.

Lemma pack_sections_grouped (sep : pystr) (limit cut_to : Z) sections :
  forall st seen,
  encodable sep ->
  Forall (fun s => encodable s /\ byte_len s + byte_len sep <= limit) sections ->
  grouped sep st seen ->
  exists st', pack_sections sep limit cut_to st sections = Some st'
              /\ grouped sep st' (seen ++ sections).
Proof.
  induction sections as [|s sections IH]; intros st seen Hsep Hall Hg.
  - exists st. by rewrite app_nil_r.
  - inversion Hall as [|? ? [Hs Hfit] Hrest]; subst.
    destruct (pack_section_grouped sep limit cut_to st seen s)
      as [st1 [Hst1 Hg1]]; try done.
    simpl. rewrite Hst1.
    replace (seen ++ s :: sections)%list with ((seen ++ [s]) ++ sections)%list
      by (by rewrite <- List.app_assoc).
    by apply IH.
Qed.

(** X10. The packing loop shared by [_send_wechat_chunked] and
    [_send_feishu_chunked] loses nothing when no section is oversized:
    if every section, measured with the separator, fits the limit, the
    chunks joined again by the separator are the sections joined by the
    separator, whatever size oversized sections would be cut to. *)
Theorem pack_without_oversized_section_rejoins
    (sep : pystr) (limit cut_to : Z) (sections : list pystr) :
  encodable sep ->
  Forall (fun s => encodable s /\ byte_len s + byte_len sep <= limit) sections ->
  exists cs, pack sep limit cut_to sections = Some cs
             /\ join sep cs = join sep sections.
Proof.
  intros Hsep Hall. unfold pack.
  destruct (pack_sections_grouped sep limit cut_to sections _ [] Hsep Hall
              (grouped_init sep)) as [st [Hst Hg]].
  rewrite Hst. eexists. split; [reflexivity|]. by apply grouped_flush.
Qed.

Lemma pack_rejoins_witness :
  encodable sep_rule
  /\ Forall (fun s => encodable s /\ byte_len s + byte_len sep_rule <= 8)
            [lit "ab"; lit "cd"]
  /\ pack sep_rule 8 0 [lit "ab"; lit "cd"] = Some [lit "ab"; lit "cd"]
  /\ exists cs,
       pack sep_rule 8 0 [lit "ab"; lit "cd"] = Some cs
       /\ join sep_rule cs = join sep_rule [lit "ab"; lit "cd"].
Proof.
  assert (H0 : encodable sep_rule) by (by eexists).
  assert (H1 : Forall (fun s => encodable s /\ byte_len s + byte_len sep_rule <= 8)
                 [lit "ab"; lit "cd"]).
  { repeat constructor; try (by eexists); vm_compute; discriminate. }
  split; [exact H0|]. split; [exact H1|]. split; [vm_compute; reflexivity|].
  exact (pack_without_oversized_section_rejoins sep_rule 8 0 _ H0 H1).
Defined.

End PackFacts.

Module WechatSenderFacts.
Import Utf8 PyText Notification Measure PackingInvariants TextFacts
  ChunkerFacts PackFacts WechatSender.

(** X21. [send_to_wechat] end to end, with a webhook configured and
    content that has a UTF-8 encoding.  The size a message is held to is
    WECHAT_MAX_BYTES, and at most 2000 octets for the text type.
    Content within it is sent as one message, unchanged.  Longer content
    that has a rule, a heading or a bold line to cut at is sent in
    chunks, each at most 50 octets under that size before its page
    marker is appended (the size being at least 250). *)
Theorem send_to_wechat_sizes
    (url : option string) (msg_type : string) (wechat_max_bytes : Z)
    (content : pystr) (encoded : pybytes) :
  url_configured url = true ->
  encode content = Some encoded ->
  let max_bytes := wechat_limit msg_type wechat_max_bytes in
  (msg_type = "text"%string -> max_bytes <= 2000)
  /\ (byte_len content <= max_bytes ->
      send_to_wechat url msg_type wechat_max_bytes content = Some [content])
  /\ (max_bytes < byte_len content ->
      250 <= max_bytes ->
      has_wechat_separator content = true ->
      exists cs,
        send_to_wechat url msg_type wechat_max_bytes content
        = Some (paginate wechat_page_marker cs)
        /\ Forall (fun c => byte_len c <= max_bytes - 50) cs).
Proof.
  intros Hurl He. cbv zeta.
  assert (Hc : encodable content) by (by eexists).
  unfold send_to_wechat. rewrite Hurl. cbn [negb].
  rewrite (get_bytes_encodable _ Hc). split; [|split].
  - intros ->. unfold wechat_limit. simpl. lia.
  - intros Hfit.
    by replace (wechat_limit msg_type wechat_max_bytes <? byte_len content)
      with false by (symmetry; apply Z.ltb_ge; lia).
  - intros Hlong Hm Hsep.
    replace (wechat_limit msg_type wechat_max_bytes <? byte_len content)
      with true by (symmetry; apply Z.ltb_lt; lia).
    by apply wechat_chunked_room.
Qed.

Lemma send_to_wechat_witness :
  url_configured (Some "https://qyapi.example/hook"%string) = true
  /\ encode Examples.ab_h2_ni = Some Examples.ab_h2_ni_encoded
  /\ send_to_wechat (Some "https://qyapi.example/hook"%string) "text"%string
       4000 Examples.ab_h2_ni
     = Some [Examples.ab_h2_ni].
Proof.
  assert (H0 : url_configured (Some "https://qyapi.example/hook"%string) = true)
    by reflexivity.
  assert (H1 : encode Examples.ab_h2_ni = Some Examples.ab_h2_ni_encoded)
    by (vm_compute; reflexivity).
  split; [exact H0|]. split; [exact H1|].
  apply (proj1 (proj2 (send_to_wechat_sizes _ "text"%string 4000 _ _ H0 H1))).
  vm_compute. discriminate.
Defined.

(** *** The line-based fallback *)


Lemma force_lines_fit (max_bytes : Z) (lines : list pystr) :
  forall (cs : list pystr) (current_chunk : pystr),
  Forall (fun line => encodable line /\ byte_len line <= max_bytes - 100) lines ->
  Forall (fits (max_bytes - 100)) cs ->
  fits (max_bytes - 100) current_chunk \/ current_chunk = [] ->
  exists out,
    force_lines max_bytes lines cs current_chunk = Some out
    /\ Forall (fits (max_bytes - 100)) out.
Proof.
  assert (Hlf : encodable [LF]) by (by apply encodable_lit_ascii).
  induction lines as [|line rest IH]; intros cs cur Hlines Hcs Hcur.
  - simpl. eexists. split; [reflexivity|].
    destruct cur as [|c cur]; [done|].
    apply Forall_app. split; [done|]. repeat constructor.
    + by destruct Hcur as [[? _]|?].
    + by destruct Hcur as [[_ ?]|?].
  - inversion Hlines as [|? ? [Hle Hlb] Hrest]; subst.
    cbn [force_lines].
    assert (Hcure : encodable cur).
    { destruct Hcur as [[? _]| ->]; [done|by eexists]. }
    assert (Htest : encodable
                      (cur ++ match cur with [] => [] | _ => [LF] end ++ line)).
    { apply encodable_app. split; [done|]. apply encodable_app. split; [|done].
      destruct cur; [by eexists|done]. }
    rewrite (get_bytes_encodable _ Htest).
    destruct (max_bytes - 100 <? _) eqn:E.
    + apply IH; [done| |left; by split].
      destruct cur as [|c cur]; [done|].
      apply Forall_app. split; [done|]. repeat constructor; [done|].
      by destruct Hcur as [[_ ?]|?].
    + apply Z.ltb_ge in E. apply IH; [done|done|]. left. by split.
Qed.

(** X22. The line-based fallback of the WeChat and Feishu senders,
    [_send_wechat_force_chunked] and [_send_feishu_force_chunked], keeps
    its budget when every single line does: if every line of the content
    is at most [max_bytes - 100] octets long, so is every chunk before
    its page marker is appended. *)
Theorem force_chunked_within_budget_when_lines_fit
    (content : pystr) (encoded : pybytes) (max_bytes : Z) :
  encode content = Some encoded ->
  Forall (fun line => byte_len line <= max_bytes - 100) (split [LF] content) ->
  exists cs,
    _send_wechat_force_chunked content max_bytes
    = Some (paginate wechat_page_marker cs)
    /\ _send_feishu_force_chunked content max_bytes
       = Some (paginate feishu_page_marker cs)
    /\ Forall (fun c => byte_len c <= max_bytes - 100) cs.
Proof.
  intros He Hlines. assert (Hc : encodable content) by (by eexists).
  assert (Hall : Forall (fun line => encodable line
                                     /\ byte_len line <= max_bytes - 100)
                   (split [LF] content)).
  { assert (Hen : Forall encodable (split [LF] content)).
    { apply (encodable_join_inv [LF]). by rewrite join_split. }
    clear -Hlines Hen. induction Hlines as [|l ls Hl _ IH]; [constructor|].
    inversion Hen; subst. constructor; [by split|by apply IH]. }
  destruct (force_lines_fit max_bytes (split [LF] content) [] [] Hall)
    as [cs [Hcs Hfit]]; [constructor|by right|].
  exists cs. unfold _send_wechat_force_chunked, _send_feishu_force_chunked.
  rewrite Hcs. split; [done|]. split; [done|].
  eapply Forall_impl; [exact Hfit|]. by intros c [_ ?].
Qed.

Lemma force_chunked_witness :
  encode Examples.ab_lf_ni = Some Examples.ab_lf_ni_encoded
  /\ Forall (fun line => byte_len line <= 104 - 100)
            (split [LF] Examples.ab_lf_ni)
  /\ exists cs,
       _send_wechat_force_chunked Examples.ab_lf_ni 104
       = Some (paginate wechat_page_marker cs)
       /\ _send_feishu_force_chunked Examples.ab_lf_ni 104
          = Some (paginate feishu_page_marker cs)
       /\ Forall (fun c => byte_len c <= 104 - 100) cs.
Proof.
  assert (H0 : encode Examples.ab_lf_ni = Some Examples.ab_lf_ni_encoded)
    by (vm_compute; reflexivity).
  assert (H1 : Forall (fun line => byte_len line <= 104 - 100)
                 (split [LF] Examples.ab_lf_ni)).
  { replace (split [LF] Examples.ab_lf_ni)
      with [lit "ab"; [20320]] by (vm_compute; reflexivity).
    constructor; [vm_compute; discriminate|].
    constructor; [vm_compute; discriminate|]. constructor. }
  split; [exact H0|]. split; [exact H1|].
  exact (force_chunked_within_budget_when_lines_fit _ _ 104 H0 H1).
Defined.

End WechatSenderFacts.

Module BaseFetcherMore.
Import Py Pandas BaseFetcher BaseFetcherFacts.
Local Open Scope string_scope.

(** X11. What [_clean_data] keeps: when it returns, the columns are those
    of the input, and the rows are, in some order, exactly the input rows
    whose [close] and [volume] are both numbers, each as often as it
    occurs in the input; no row is altered and none is invented. *)
Theorem clean_data_keeps_exactly_the_complete_rows (df cleaned : DataFrame) :
  _clean_data df = Ret cleaned ->
  columns cleaned = columns df
  /\ Permutation (rows cleaned)
       (List.filter (fun r => notna (close r) && notna (volume r)) (rows df))
  /\ Forall (fun r => notna (close r) = true /\ notna (volume r) = true)
       (rows cleaned).
Proof.
  intros H. apply clean_data_rows in H as [Hr [Hc _]].
  split; [exact Hc|].
  assert (Hp : Permutation (rows cleaned)
                 (List.filter (fun r => notna (close r) && notna (volume r))
                    (rows df))).
  { rewrite Hr. apply SortFacts.sort_by_perm. }
  split; [exact Hp|].
  eapply Permutation_Forall; [symmetry; exact Hp|].
  apply List.Forall_forall. intros r Hin. apply filter_In in Hin as [_ Hin].
  by apply andb_true_iff in Hin.
Qed.

Lemma clean_data_keeps_witness :
  _clean_data {| columns := Scenario.STANDARD_COLUMNS;
                 rows := [Scenario.candle 2 (inject_Z 10);
                          set_ma (Scenario.candle 1 (inject_Z 9)) None None None] |}
  = Ret {| columns := Scenario.STANDARD_COLUMNS;
           rows := [Scenario.candle 1 (inject_Z 9);
                    Scenario.candle 2 (inject_Z 10)] |}
  /\ columns {| columns := Scenario.STANDARD_COLUMNS;
                rows := [Scenario.candle 1 (inject_Z 9);
                         Scenario.candle 2 (inject_Z 10)] |}
     = Scenario.STANDARD_COLUMNS.
Proof.
  assert (H : _clean_data
                {| columns := Scenario.STANDARD_COLUMNS;
                   rows := [Scenario.candle 2 (inject_Z 10);
                            set_ma (Scenario.candle 1 (inject_Z 9)) None None None] |}
              = Ret {| columns := Scenario.STANDARD_COLUMNS;
                       rows := [Scenario.candle 1 (inject_Z 9);
                                Scenario.candle 2 (inject_Z 10)] |})
    by (vm_compute; reflexivity).
  split; [exact H|].
  exact (proj1 (clean_data_keeps_exactly_the_complete_rows _ _ H)).
Defined.

Section Subclass.
Context {W Raw : Type}.
Variable date_range :
  option string -> option string -> Z -> io W (string * string).
Variable lib : numeric.

(** X13. How [get_daily_data] fails.  An error of the date range (a
    malformed [end_date]) leaves the method as it is; every other error
    is re-raised with the fetcher's name and the stock code in front.
    When the upstream gives nothing, [None] or an empty frame, the
    message is the labelled "no data" text and the frame is neither
    normalised nor cleaned. *)
Theorem get_daily_data_failures_are_labelled (self : hooks)
    (stock_code : string) (start_date end_date : option string) (days : Z)
    (w : W) :
  (forall msg w',
      get_daily_data (Raw := Raw) date_range lib self stock_code start_date
        end_date days w = (Raise msg, w') ->
      date_range start_date end_date days w = (Raise msg, w')
      \/ exists e, msg = "[" ++ name self ++ "] " ++ stock_code ++ ": " ++ e)
  /\ (forall s e w0 raw w1,
         date_range start_date end_date days w = (Ret (s, e), w0) ->
         _fetch_raw_data self stock_code s e w0 = (Ret raw, w1) ->
         match raw with Some r => raw_empty self r = true | None => True end ->
         get_daily_data (Raw := Raw) date_range lib self stock_code start_date
           end_date days w
         = (Raise ("[" ++ name self ++ "] " ++ stock_code ++ ": "
                   ++ "[" ++ name self ++ "] 未獲取到 " ++ stock_code
                   ++ " 的數據"), w1)).
Proof.
  unfold get_daily_data, mbind, io_bind, mret, io_ret, Py.bind,
    Py.ret, Py.raise, Py.try_except, Py.lift.
  split.
  - intros msg w'.
    destruct (date_range start_date end_date days w) as [[[s e]|m] w0].
    + destruct (_fetch_raw_data self stock_code s e w0) as [[[raw|]|m] w1].
      * destruct (raw_empty self raw).
        { intros [= <- <-]. right. by eexists. }
        destruct (_normalize_data self raw stock_code) as [n|m];
          [|intros [= <- <-]; right; by eexists].
        destruct (_clean_data n) as [c|m];
          [|intros [= <- <-]; right; by eexists].
        destruct (_calculate_indicators lib c) as [d|m];
          [discriminate|intros [= <- <-]; right; by eexists].
      * intros [= <- <-]. right. by eexists.
      * intros [= <- <-]. right. by eexists.
    + intros [= <- <-]. by left.
  - intros s e w0 raw w1 -> ->. destruct raw as [r|]; [|done].
    by intros ->.
Qed.

End Subclass.

Lemma get_daily_data_no_data_witness :
  get_daily_data Scenario.fixed_range Scenario.exact_arithmetic
    (Scenario.replay []) "600519" None None
    30 0%nat
  = (Raise ("[ReplayFetcher] 600519: [ReplayFetcher] 未獲取到 600519 的數據"),
     1%nat).
Proof.
  apply (proj2 (get_daily_data_failures_are_labelled Scenario.fixed_range
                  Scenario.exact_arithmetic
                  (Scenario.replay []) "600519" None None 30 0%nat)
           "2024-01-01" "2024-03-01" 0%nat (Some []) 1%nat);
    reflexivity.
Defined.

End BaseFetcherMore.

Module ManagerMoreFacts.
Import Py Pandas DataFetcherManager ManagerMore ManagerFacts.

Section Facts.
Context {W Quote Chip : Type}.
Variable has_basic_data : Quote -> bool.
Abbreviation fetcher := (Fetcher.t W Quote Chip).
Abbreviation state := (DataFetcherManager.state W Quote Chip).
Abbreviation event := (DataFetcherManager.event Quote Chip).

(** *** add_fetcher *)

Lemma insert_at_front (x : fetcher) (l : list fetcher) :
  Forall (fun g => Fetcher.priority x <= Fetcher.priority g) l ->
  insert_sorted by_priority x l = x :: l.
Proof.
  intros H. destruct H as [|g l Hg _]; [done|].
  simpl. unfold by_priority.
  by replace (Fetcher.priority x <=? Fetcher.priority g) with true
    by (symmetry; apply Z.leb_le; lia).
Qed.

Lemma sort_append_sorted (f : fetcher) (l : list fetcher) :
  StronglySorted (fun a b => Fetcher.priority a <= Fetcher.priority b) l ->
  sort_by by_priority (l ++ [f])
  = (List.filter (fun g => Fetcher.priority g <=? Fetcher.priority f) l
     ++ f :: List.filter (fun g => Fetcher.priority f <? Fetcher.priority g) l)%list.
Proof.
  induction 1 as [|x l Hs IH Hx]; [done|].
  change ((x :: l) ++ [f])%list with (x :: (l ++ [f]))%list.
  cbn [sort_by]. rewrite IH. cbn [List.filter].
  destruct (Fetcher.priority x <=? Fetcher.priority f) eqn:E.
  - apply Z.leb_le in E.
    replace (Fetcher.priority f <? Fetcher.priority x) with false
      by (symmetry; apply Z.ltb_ge; lia).
    change ((x :: ?a) ++ ?b)%list with (x :: (a ++ b))%list.
    apply insert_at_front. apply Forall_app. split.
    + apply List.Forall_forall. intros g Hg. apply filter_In in Hg as [Hg _].
      rewrite List.Forall_forall in Hx. by apply Hx.
    + constructor; [done|].
      apply List.Forall_forall. intros g Hg. apply filter_In in Hg as [Hg _].
      rewrite List.Forall_forall in Hx. by apply Hx.
  - apply Z.leb_gt in E.
    replace (Fetcher.priority f <? Fetcher.priority x) with true
      by (symmetry; apply Z.ltb_lt; lia).
    assert (HA : List.filter (fun g => Fetcher.priority g <=? Fetcher.priority f) l = []).
    { clear IH Hs. induction Hx as [|g l Hg _ IHl]; [done|].
      simpl. by replace (Fetcher.priority g <=? Fetcher.priority f) with false
        by (symmetry; apply Z.leb_gt; lia). }
    assert (HB : List.filter (fun g => Fetcher.priority f <? Fetcher.priority g) l = l).
    { clear IH Hs HA. induction Hx as [|g l Hg _ IHl]; [done|].
      simpl. replace (Fetcher.priority f <? Fetcher.priority g) with true
        by (symmetry; apply Z.ltb_lt; lia). by rewrite IHl. }
    rewrite HA, HB. simpl. unfold by_priority at 1.
    replace (Fetcher.priority x <=? Fetcher.priority f) with false
      by (symmetry; apply Z.leb_gt; lia).
    by rewrite insert_at_front.
Qed.

(** X14. Where [add_fetcher] puts the new fetcher.  On a list that is
    in priority order, as the constructor leaves it, the new fetcher
    goes after every fetcher whose priority number is less than or equal
    to its own and before every fetcher with a greater one; the fetchers
    already there keep their order.  So among fetchers of equal priority
    the one added last is tried last. *)
Theorem add_fetcher_goes_after_equal_priority
    (self : list fetcher) (f : fetcher) :
  StronglySorted (fun a b => Fetcher.priority a <= Fetcher.priority b) self ->
  exists before after,
    self = (before ++ after)%list
    /\ add_fetcher self f = (before ++ f :: after)%list
    /\ Forall (fun g => Fetcher.priority g <= Fetcher.priority f) before
    /\ Forall (fun g => Fetcher.priority f < Fetcher.priority g) after.
Proof.
  intros Hs. unfold add_fetcher. rewrite (sort_append_sorted f self Hs).
  exists (List.filter (fun g => Fetcher.priority g <=? Fetcher.priority f) self),
         (List.filter (fun g => Fetcher.priority f <? Fetcher.priority g) self).
  split; [|split; [done|split]].
  - clear -Hs. induction Hs as [|x l Hs IH Hx]; [done|].
    cbn [List.filter].
    destruct (Fetcher.priority x <=? Fetcher.priority f) eqn:E.
    + apply Z.leb_le in E.
      replace (Fetcher.priority f <? Fetcher.priority x) with false
        by (symmetry; apply Z.ltb_ge; lia).
      simpl. by rewrite <- IH.
    + apply Z.leb_gt in E.
      replace (Fetcher.priority f <? Fetcher.priority x) with true
        by (symmetry; apply Z.ltb_lt; lia).
      assert (HA : List.filter
                     (fun g => Fetcher.priority g <=? Fetcher.priority f) l = []).
      { clear IH Hs. induction Hx as [|g l Hg _ IHl]; [done|].
        simpl. by replace (Fetcher.priority g <=? Fetcher.priority f) with false
          by (symmetry; apply Z.leb_gt; lia). }
      rewrite HA in IH |- *. simpl in *. by rewrite <- IH.
  - apply List.Forall_forall. intros g Hg. apply filter_In in Hg as [_ Hg].
    by apply Z.leb_le.
  - apply List.Forall_forall. intros g Hg. apply filter_In in Hg as [_ Hg].
    by apply Z.ltb_lt.
Qed.

(** *** get_realtime_quote, the configured sources *)

Lemma quote_from_spec fs n v code (s : state) :
  let res := quote_from fs n v code s in
  (res = (Ret None, s))
  \/ exists f : fetcher,
       trace res.2 = (trace s ++ [CallQuote (Fetcher.name f) code v res.1])%list.
Proof.
  cbv zeta. unfold quote_from.
  destruct (find_fetcher n fs) as [f|]; [|by left].
  destruct (Fetcher.get_realtime_quote f) as [m|]; [|by left].
  right. exists f. io_unfold. by destruct (m code v (world s)) as [r w].
Qed.

Lemma quote_loop_failover fs code (sources : list string) (s : state) :
  let res := quote_loop has_basic_data fs code sources s in
  exists r evs,
    res.1 = Ret r
    /\ trace res.2 = (trace s ++ evs)%list
    /\ (length evs <= length sources)%nat
    /\ Forall (quote_call_for code) evs
    /\ match r with
       | Some q =>
           has_basic_data q = true
           /\ exists before n src,
                evs = (before ++ [CallQuote n code src (Ret (Some q))])%list
                /\ Forall (unusable has_basic_data) before
       | None => Forall (unusable has_basic_data) evs
       end.
Proof.
  cbv zeta. revert s. induction sources as [|source rest IH]; intros s.
  - exists None, []. simpl. rewrite app_nil_r. repeat split; try done; constructor.
  - cbn [quote_loop].
    set (src := PyStr.lower (PyStr.strip source)).
    set (ask := match source_route src with
                | Some (fetcher_name, variant) =>
                    quote_from fs fetcher_name variant code
                | None => ret None
                end).
    assert (Hask : ask s = (Ret None, s)
                   \/ exists n v, trace (ask s).2
                                  = (trace s ++ [CallQuote n code v (ask s).1])%list).
    { unfold ask. destruct (source_route src) as [[n v]|]; [|by left].
      destruct (quote_from_spec fs n v code s) as [H|[f H]]; [by left|].
      right. by exists (Fetcher.name f), v. }
    io_unfold. fold ask.
    destruct (ask s) as [r1 s1] eqn:E1. simpl in Hask.
    assert (Hrest : forall ev1,
              trace s1 = (trace s ++ ev1)%list ->
              (length ev1 <= 1)%nat ->
              Forall (quote_call_for code) ev1 ->
              Forall (unusable has_basic_data) ev1 ->
              exists r evs,
                (quote_loop has_basic_data fs code rest s1).1 = Ret r
                /\ trace (quote_loop has_basic_data fs code rest s1).2
                   = (trace s ++ evs)%list
                /\ (length evs <= length (source :: rest))%nat
                /\ Forall (quote_call_for code) evs
                /\ match r with
                   | Some q =>
                       has_basic_data q = true
                       /\ exists before n src0,
                            evs = (before ++ [CallQuote n code src0 (Ret (Some q))])%list
                            /\ Forall (unusable has_basic_data) before
                   | None => Forall (unusable has_basic_data) evs
                   end).
    { intros ev1 Ht Hl Hc Hu.
      destruct (IH s1) as [r [evs [Hr [Ht' [Hlen [Hcalls Hres]]]]]].
      exists r, (ev1 ++ evs)%list. split; [done|]. split.
      { rewrite Ht', Ht. by rewrite app_assoc. }
      split; [rewrite length_app; simpl; lia|].
      split; [by apply Forall_app|].
      destruct r as [q|].
      - destruct Hres as [Hq [before [n [src0 [-> Hb]]]]]. split; [done|].
        exists (ev1 ++ before)%list, n, src0. rewrite app_assoc. split; [done|].
        by apply Forall_app.
      - by apply Forall_app. }
    destruct Hask as [[= -> ->]|[n [v Ht]]].
    + simpl. apply (Hrest []); [by rewrite app_nil_r|simpl; lia|constructor|constructor].
    + destruct r1 as [[q|]|msg]; simpl.
      * destruct (has_basic_data q) eqn:Hq; simpl.
        -- exists (Some q), [CallQuote n code v (Ret (Some q))].
           split; [done|]. split; [done|]. split; [simpl; lia|].
           split; [by repeat constructor|]. split; [done|].
           exists [], n, v. split; [done|constructor].
        -- apply (Hrest [CallQuote n code v (Ret (Some q))]);
             [done|simpl; lia|by repeat constructor|by repeat constructor].
      * apply (Hrest [CallQuote n code v (Ret None)]);
          [done|simpl; lia|by repeat constructor|by repeat constructor].
      * apply (Hrest [CallQuote n code v (Raise msg)]);
          [done|simpl; lia|by repeat constructor|by repeat constructor].
Qed.

(** X15. Quotes for a code that is not a US ticker, with quotes
    enabled: [get_realtime_quote] never raises; it makes at most one
    call for each entry of [realtime_source_priority], all of them for
    the code asked; a quote it returns has basic data and is the answer
    of the last call made, every earlier call having raised, returned
    [None] or returned a quote without basic data; when it returns
    [None] every call made was of that kind. *)
Theorem realtime_quote_first_usable_source
    (config : Config.t) (self : list fetcher) (stock_code : string)
    (s : state) :
  Config.enable_realtime_quote config = true ->
  Classifier._is_us_code stock_code = false ->
  let res := get_realtime_quote has_basic_data config self stock_code s in
  exists r evs,
    res.1 = Ret r
    /\ trace res.2 = (trace s ++ evs)%list
    /\ (length evs
        <= length (PyStr.split ","%char (Config.realtime_source_priority config)))%nat
    /\ Forall (quote_call_for stock_code) evs
    /\ match r with
       | Some q =>
           has_basic_data q = true
           /\ exists before n src,
                evs = (before ++ [CallQuote n stock_code src (Ret (Some q))])%list
                /\ Forall (unusable has_basic_data) before
       | None => Forall (unusable has_basic_data) evs
       end.
Proof.
  intros He Hus. cbv zeta. unfold get_realtime_quote. rewrite He, Hus. simpl.
  apply quote_loop_failover.
Qed.

End Facts.

Import Scenario.
Local Open Scope string_scope.

Lemma add_fetcher_witness :
  StronglySorted (fun a b => Fetcher.priority a <= Fetcher.priority b)
    [efinance; yfinance]
  /\ add_fetcher [efinance; yfinance] akshare = [efinance; akshare; yfinance]
  /\ exists before after,
       [efinance; yfinance] = (before ++ after)%list
       /\ add_fetcher [efinance; yfinance] akshare
          = (before ++ akshare :: after)%list
       /\ Forall (fun g => Fetcher.priority g <= Fetcher.priority akshare) before
       /\ Forall (fun g => Fetcher.priority akshare < Fetcher.priority g) after.
Proof.
  assert (H : StronglySorted
                (fun a b : fetcher => Fetcher.priority a <= Fetcher.priority b)
                [efinance; yfinance]).
  { repeat constructor. simpl. lia. }
  split; [exact H|]. split; [vm_compute; reflexivity|].
  exact (add_fetcher_goes_after_equal_priority [efinance; yfinance] akshare H).
Defined.

Lemma realtime_quote_first_usable_witness :
  Config.enable_realtime_quote tencent_then_efinance = true
  /\ Classifier._is_us_code "600519" = false
  /\ get_realtime_quote has_basic_data tencent_then_efinance fetchers "600519"
       start
     = (Ret (Some "quote:600519"),
        {| world := 1%nat;
           trace := [CallQuote "EfinanceFetcher" "600519" None
                       (Ret (Some "quote:600519"))] |})
  /\ (let res := get_realtime_quote has_basic_data tencent_then_efinance
                   fetchers "600519" start in
      exists r evs,
        res.1 = Ret r
        /\ trace res.2 = (trace start ++ evs)%list
        /\ (length evs
            <= length (PyStr.split ","%char
                         (Config.realtime_source_priority
                            tencent_then_efinance)))%nat
        /\ Forall (quote_call_for "600519") evs
        /\ match r with
           | Some q =>
               has_basic_data q = true
               /\ exists before n src,
                    evs = (before
                           ++ [CallQuote n "600519" src (Ret (Some q))])%list
                    /\ Forall (unusable has_basic_data) before
           | None => Forall (unusable has_basic_data) evs
           end).
Proof.
  assert (H0 : Config.enable_realtime_quote tencent_then_efinance = true)
    by reflexivity.
  assert (H1 : Classifier._is_us_code "600519" = false)
    by (vm_compute; reflexivity).
  split; [exact H0|]. split; [exact H1|]. split; [vm_compute; reflexivity|].
  exact (realtime_quote_first_usable_source has_basic_data
           tencent_then_efinance fetchers "600519" start H0 H1).
Defined.

End ManagerMoreFacts.

Module MarketOverviewFacts.
Import Py MarketOverview.

Section Facts.
Context {W Index Stat Sector : Type}.
Abbreviation fetcher := (MarketFetcher.t W Index Stat Sector).

Lemma failover_first_answer {A} (truthy : A -> bool) (default : A)
    (method : fetcher -> io W (option A)) (fs : list fetcher)
    (s : state W A) :
  first_answer truthy default method fs s
    (failover truthy default method fs s).
Proof.
  revert s. induction fs as [|f rest IH]; intros s.
  - exists default, []. simpl. rewrite app_nil_r.
    split; [done|]. split; [done|]. split; [done|]. split; [done|].
    right. by repeat split.
  - cbn [failover].
    unfold mbind, io_bind, mret, io_ret, Py.bind, Py.ret, Py.try_except, call.
    destruct (method f (world s)) as [r w] eqn:E.
    set (s1 := {| world := w;
                  calls := (calls s ++ [(MarketFetcher.name f, r)])%list |}).
    assert (Hnext : passed_over truthy (f, r) ->
              first_answer truthy default method (f :: rest) s
                (failover truthy default method rest s1)).
    { intros Hp.
      destruct (IH s1) as [data [attempts [Hr [Hw [Hc [Hpre Hres]]]]]].
      exists data, ((f, r) :: attempts). split; [done|]. split.
      { exists w. by split. }
      split.
      { rewrite Hc. simpl. by rewrite <- List.app_assoc. }
      split; [simpl; by apply prefix_cons|].
      destruct Hres as [[before [g [-> [Hb Ht]]]]|[Hall [Hb ->]]].
      - left. exists ((f, r) :: before), g. split; [done|].
        split; [by constructor|done].
      - right. split; [simpl; by rewrite Hall|]. split; [by constructor|done]. }
    destruct r as [[d|]|msg]; simpl.
    + destruct (truthy d) eqn:Ht; simpl.
      * exists d, [(f, Ret (Some d))]. split; [done|].
        split; [by exists w|]. split; [done|].
        split; [simpl; apply prefix_cons, prefix_nil|].
        left. exists [], f. split; [done|]. split; [constructor|done].
      * by apply Hnext.
    + by apply Hnext.
    + by apply Hnext.
Qed.

(** X16. The three market-overview methods of the manager,
    [get_main_indices], [get_market_stats] and [get_sector_rankings],
    never raise.  Each asks the fetchers in list order, one call each of
    the fetcher's method of the same name, on the world as the calls
    before left it, and returns the first answer that is true: a
    non-empty list, a non-empty dict, and for the sector rankings any
    pair at all, a pair of empty lists included.  Fetchers after the one
    that answered are not called.  When every fetcher raised or gave
    nothing, the result is the default: [[]], [{}] or [([], [])]. *)
Theorem market_overview_first_true_answer :
  (forall (self : list fetcher) s,
      first_answer list_truthy [] MarketFetcher.get_main_indices self s
        (get_main_indices self s))
  /\ (forall (self : list fetcher) s,
         first_answer dict_truthy ∅ MarketFetcher.get_market_stats self s
           (get_market_stats self s))
  /\ (forall (self : list fetcher) (n : Z) s,
         first_answer (fun _ => true) ([], [])
           (fun f => MarketFetcher.get_sector_rankings f n) self s
           (get_sector_rankings self n s)).
Proof.
  split; [|split]; intros; apply failover_first_answer.
Qed.

End Facts.

End MarketOverviewFacts.

Module StockNameFacts.
Import Py DataFetcherManager StockName.

Section Facts.
Context {W Quote Chip : Type}.
Variable has_basic_data : Quote -> bool.
Variable quote_name : Quote -> option string.
Abbreviation fetcher := (NameFetcher.t W Quote Chip).
Abbreviation state := (StockName.state W Quote Chip).

Ltac name_unfold :=
  unfold mbind, io_bind, mret, io_ret, Py.bind, Py.ret, Py.raise,
    Py.try_except, call_name, remember, on_manager in *.

Lemma name_loop_cache (fs : list fetcher) (stock_code : string) (s : state) :
  cache_step stock_code s (name_loop fs stock_code s).
Proof.
  revert s. induction fs as [|f rest IH]; intros s.
  - by exists None.
  - cbn [name_loop]. destruct (NameFetcher.get_stock_name f) as [method|];
      [|apply IH].
    name_unfold.
    destruct (method stock_code (world (manager s))) as [r w] eqn:E.
    set (s1 := {| manager := {| world := w; trace := trace (manager s) |};
                  _stock_name_cache := _stock_name_cache s;
                  name_calls := (name_calls s
                                 ++ [(Fetcher.name (NameFetcher.base f),
                                      stock_code, r)])%list |}).
    assert (Hnext : cache_step stock_code s (name_loop rest stock_code s1)).
    { destruct (IH s1) as [r' [Hr Hc]]. exists r'. split; [done|].
      by destruct r'. }
    destruct r as [[n|]|msg]; simpl; try exact Hnext.
    destruct (truthy n) eqn:Ht; simpl; [|exact Hnext].
    by exists (Some n).
Qed.

(** X17. The name cache of [get_stock_name].  The method never raises
    and touches no cache entry but the one of the code asked.  A name it
    returns is in the cache afterwards, so asking again returns the same
    name without any call and without changing anything.  When it
    returns [None] the cache is as before: a failure is not remembered
    and the sources are asked again next time. *)
Theorem stock_name_is_cached_once_found
    (config : Config.t) (self : list fetcher) (stock_code : string)
    (s : state) :
  let res := get_stock_name has_basic_data quote_name config self stock_code s in
  exists r,
    res.1 = Ret r
    /\ (forall other, other <> stock_code ->
          _stock_name_cache res.2 !! other = _stock_name_cache s !! other)
    /\ match r with
       | Some name =>
           _stock_name_cache res.2 !! stock_code = Some name
           /\ get_stock_name has_basic_data quote_name config self stock_code
                res.2
              = (Ret (Some name), res.2)
       | None =>
           _stock_name_cache s !! stock_code = None
           /\ _stock_name_cache res.2 = _stock_name_cache s
       end.
Proof.
  cbv zeta.
  assert (Hhit : forall (s' : state) name,
             _stock_name_cache s' !! stock_code = Some name ->
             get_stock_name has_basic_data quote_name config self stock_code s'
             = (Ret (Some name), s')).
  { intros s' name H. unfold get_stock_name. by rewrite H. }
  destruct (_stock_name_cache s !! stock_code) as [cached|] eqn:Hc.
  { rewrite (Hhit s cached Hc). exists (Some cached). simpl.
    split; [done|]. split; [done|]. split; [done|]. by apply Hhit. }
  assert (Hstep : forall res0,
             cache_step stock_code s res0 ->
             exists r,
               res0.1 = Ret r
               /\ (forall other, other <> stock_code ->
                     _stock_name_cache res0.2 !! other
                     = _stock_name_cache s !! other)
               /\ match r with
                  | Some name =>
                      _stock_name_cache res0.2 !! stock_code = Some name
                      /\ get_stock_name has_basic_data quote_name config self
                           stock_code res0.2
                         = (Ret (Some name), res0.2)
                  | None =>
                      None = (None : option string)
                      /\ _stock_name_cache res0.2 = _stock_name_cache s
                  end).
  { intros res0 [r [Hr Hres]]. exists r. split; [done|].
    destruct r as [name|].
    - destruct Hres as [_ Hres].
      assert (Hl : _stock_name_cache res0.2 !! stock_code = Some name)
        by (rewrite Hres; apply lookup_insert_eq).
      split; [|split; [done|by apply Hhit]].
      intros other Hne. rewrite Hres. by apply lookup_insert_ne.
    - split; [|done]. intros other _. by rewrite Hres. }
  unfold get_stock_name. rewrite Hc. name_unfold.
  destruct (ManagerFacts.get_realtime_quote_trace has_basic_data config
              (map NameFetcher.base self) stock_code (manager s))
    as [q [evs [Hq _]]].
  destruct (get_realtime_quote has_basic_data config
              (map NameFetcher.base self) stock_code (manager s))
    as [r0 m'] eqn:E.
  simpl in Hq. subst r0.
  set (s1 := {| manager := m'; _stock_name_cache := _stock_name_cache s;
                name_calls := name_calls s |}).
  assert (Hloop : cache_step stock_code s (name_loop self stock_code s1)).
  { destruct (name_loop_cache self stock_code s1) as [r' [Hr Hres]].
    exists r'. split; [done|]. by destruct r'. }
  destruct q as [q|]; [|by apply Hstep].
  destruct (quote_name q) as [name|]; [|by apply Hstep].
  destruct (truthy name) eqn:Ht; [|by apply Hstep].
  apply Hstep. by exists (Some name).
Qed.

End Facts.

End StockNameFacts.

Module HkClassifierFacts.
Import PyStr Regex Classifier HkClassifier PyStrFacts ClassifierFacts.

Lemma lstrip_nonspace (d : ascii) (r : list ascii) :
  is_space d = false -> lstrip_chars (d :: r) = d :: r.
Proof. intros H. simpl. by rewrite H. Qed.

Lemma lstrip_keeps_last (a : list ascii) (d : ascii) :
  is_space d = false -> exists a', lstrip_chars (a ++ [d]) = (a' ++ [d])%list.
Proof.
  intros H. induction a as [|c a [a' IH]].
  - exists []. simpl. by rewrite H.
  - simpl. destruct (is_space c); [by exists a'|by exists (c :: a)].
Qed.

Lemma strip_chars_head (d : ascii) (r : list ascii) :
  is_space d = false -> exists t, strip_chars (d :: r) = d :: t.
Proof.
  intros H. unfold strip_chars. rewrite (lstrip_nonspace d r H).
  simpl rev. destruct (lstrip_keeps_last (rev r) d H) as [a' ->].
  exists (rev a'). by rewrite rev_app_distr.
Qed.

Lemma strip_chars_no_space (l : list ascii) :
  forallb (fun c => negb (is_space c)) l = true -> strip_chars l = l.
Proof.
  intros H. unfold strip_chars.
  assert (Hl : forall m, forallb (fun c => negb (is_space c)) m = true ->
                         lstrip_chars m = m).
  { intros [|c m] Hm; [done|]. simpl in Hm. apply andb_true_iff in Hm as [Hc _].
    apply lstrip_nonspace. by destruct (is_space c). }
  rewrite (Hl l H), Hl, rev_involutive; [done|].
  rewrite forallb_forall in H |- *. intros c Hc. apply H. by apply in_rev.
Qed.

Lemma upper_strip_head (raw : string) (d : ascii) (r : list ascii) :
  chars raw = d :: r -> is_space d = false ->
  exists t, chars (upper (strip raw)) = upper_char d :: t.
Proof.
  intros Hr Hd. unfold upper, strip. rewrite !chars_of_chars, Hr.
  destruct (strip_chars_head d r Hd) as [t ->]. by eexists.
Qed.

Lemma us_head_capital (raw : string) :
  _is_us_code raw = true ->
  exists c t, chars (upper (strip raw)) = c :: t /\ capital c.
Proof.
  intros H. apply is_us_code_shape in H as [letters [suffix [-> [Hlen [Hcap _]]]]].
  destruct letters as [|c letters]; [simpl in Hlen; lia|].
  exists c, (letters ++ suffix)%list. split; [done|]. by inversion Hcap.
Qed.

Lemma digit_facts (c : ascii) :
  is_digit c = true ->
  is_space c = false /\ upper_char c = c /\ ~ capital c /\ c <> "."%char.
Proof.
  unfold is_digit, is_space, upper_char, capital, in_range.
  intros [H1%Nat.leb_le H2%Nat.leb_le]%andb_true_iff.
  repeat split.
  - apply orb_false_iff. split; apply andb_false_iff.
    + right. apply Nat.leb_gt. lia.
    + right. apply Nat.leb_gt. lia.
  - replace (Nat.leb 97 (ord c)) with false by (symmetry; apply Nat.leb_gt; lia).
    done.
  - lia.
  - intros ->. vm_compute in H1. lia.
Qed.

Lemma lower_char_digit (c : ascii) :
  is_digit (lower_char c) = true -> is_digit c = true.
Proof.
  unfold lower_char.
  destruct (Nat.leb 65 (ord c) && Nat.leb (ord c) 90) eqn:E; [|done].
  apply andb_true_iff in E as [?%Nat.leb_le ?%Nat.leb_le].
  unfold is_digit, ord in *. rewrite nat_ascii_embedding by lia.
  intros [_ H2%Nat.leb_le]%andb_true_iff. lia.
Qed.

Lemma lower_char_letter (c : ascii) (n : nat) :
  (97 <= n <= 122)%nat -> ord (lower_char c) = n ->
  is_space c = false /\ ord (upper_char c) = (n - 32)%nat.
Proof.
  unfold lower_char, upper_char, is_space. intros Hn.
  destruct (Nat.leb 65 (ord c) && Nat.leb (ord c) 90) eqn:E.
  - apply andb_true_iff in E as [?%Nat.leb_le ?%Nat.leb_le].
    unfold ord at 1. rewrite nat_ascii_embedding by lia. intros Hc.
    replace (Nat.leb 97 (ord c)) with false by (symmetry; apply Nat.leb_gt; lia).
    split; [|simpl; lia].
    apply orb_false_iff. split; apply andb_false_iff; right; apply Nat.leb_gt; lia.
  - intros Hc. rewrite Hc.
    replace (Nat.leb 97 n) with true by (symmetry; apply Nat.leb_le; lia).
    replace (Nat.leb n 122) with true by (symmetry; apply Nat.leb_le; lia).
    split.
    + apply orb_false_iff. split; apply andb_false_iff; right; apply Nat.leb_gt; lia.
    + simpl. unfold ord. rewrite nat_ascii_embedding by lia. done.
Qed.

Lemma prefix_head (p a : ascii) (ps r : string) :
  String.prefix (String p ps) (String a r) = true ->
  p = a /\ String.prefix ps r = true.
Proof. simpl. by destruct (ascii_dec p a). Qed.

Lemma chars_length (s : string) : length (chars s) = String.length s.
Proof. induction s as [|c s IH]; simpl; [done|]. by f_equal. Qed.

Lemma of_chars_cons (c : ascii) (l : list ascii) :
  of_chars (c :: l) = String c (of_chars l).
Proof. reflexivity. Qed.

Lemma chars_cons (c : ascii) (s : string) : chars (String c s) = c :: chars s.
Proof. reflexivity. Qed.

Lemma etf_head (raw : string) :
  _is_etf_code raw = true ->
  String.length raw = 6%nat
  /\ exists d r, chars raw = d :: r /\ (d = "5"%char \/ d = "1"%char).
Proof.
  unfold _is_etf_code. intros [Hp Hl%Nat.eqb_eq]%andb_true_iff.
  split; [done|].
  apply existsb_exists in Hp as [p [Hin Hp]]. unfold startswith in Hp.
  destruct raw as [|a raw]; [by destruct p|].
  exists a, (chars raw). split; [done|].
  unfold etf_prefixes in Hin. simpl in Hin.
  repeat (destruct Hin as [<-|Hin];
          [apply prefix_head in Hp as [<- _]; auto|]).
  done.
Qed.

(** X18. The three classifiers of ticker codes never overlap on ASCII
    codes: a code that [_is_us_code] accepts is accepted neither by
    [_is_etf_code] nor by [_is_hk_code], and a code that [_is_etf_code]
    accepts is not accepted by [_is_hk_code].  So the routing by market
    does not depend on the order in which the tests are made. *)
Theorem ticker_classes_are_exclusive (stock_code : string) :
  ascii_only stock_code = true ->
  (_is_us_code stock_code = true ->
   _is_etf_code stock_code = false /\ _is_hk_code stock_code = false)
  /\ (_is_etf_code stock_code = true -> _is_hk_code stock_code = false).
Proof.
  intros _. split.
  - intros Hus. destruct (us_head_capital _ Hus) as [c [t [Hw Hc]]]. split.
    + destruct (_is_etf_code stock_code) eqn:He; [|done]. exfalso.
      destruct (etf_head _ He) as [_ [d [r [Hr Hd]]]].
      assert (Hsp : is_space d = false) by (by destruct Hd as [->| ->]).
      destruct (upper_strip_head _ d r Hr Hsp) as [t' Hw'].
      rewrite Hw' in Hw. injection Hw as <- _.
      destruct Hd as [->| ->]; unfold capital, in_range in Hc; vm_compute in Hc; lia.
    + destruct (_is_hk_code stock_code) eqn:Hhk; [|done]. exfalso.
      unfold _is_hk_code in Hhk. cbv zeta in Hhk.
      assert (Hlow : chars (lower stock_code) = map lower_char (chars stock_code))
        by (unfold lower; apply chars_of_chars).
      destruct (startswith "hk" (lower stock_code)) eqn:Hpre.
      * (* hk and one to five digits *)
        unfold startswith in Hpre.
        destruct (lower stock_code) as [|a1 [|a2 rest]] eqn:El;
          try (simpl in Hpre; by repeat destruct (ascii_dec _ _)).
        apply prefix_head in Hpre as [<- Hpre].
        apply prefix_head in Hpre as [<- _].
        rewrite !chars_cons in Hlow. simpl drop in Hhk.
        apply andb_true_iff in Hhk as [Hhk _].
        apply andb_true_iff in Hhk as [Hdig _].
        unfold isdigit in Hdig. rewrite chars_of_chars in Hdig.
        destruct (chars stock_code) as [|c1 [|c2 ds]] eqn:Ecs; try discriminate.
        simpl in Hlow. injection Hlow as H1 H2 Hds.
        destruct ds as [|d ds]; [by rewrite Hds in Hdig|].
        simpl in Hds. rewrite Hds in Hdig. simpl in Hdig.
        apply andb_true_iff in Hdig as [Hd Hrest].
        apply lower_char_digit in Hd.
        destruct (digit_facts d Hd) as [Hdsp [Hdup [Hdcap Hddot]]].
        destruct (lower_char_letter c1 104 ltac:(lia)) as [Hs1 Hu1];
          [by rewrite <- H1|].
        destruct (lower_char_letter c2 107 ltac:(lia)) as [Hs2 Hu2];
          [by rewrite <- H2|].
        assert (Hall : forallb (fun c => negb (is_space c)) (c1 :: c2 :: d :: ds)
                       = true).
        { simpl. rewrite Hs1, Hs2, Hdsp. simpl.
          apply forallb_forall. intros x Hx.
          assert (Hx' : is_digit (lower_char x) = true).
          { rewrite forallb_forall in Hrest. apply Hrest.
            apply in_map_iff. by exists x. }
          apply lower_char_digit in Hx'.
          by destruct (digit_facts x Hx') as [-> _]. }
        apply is_us_code_shape in Hus.
        unfold upper, strip in Hus. rewrite !chars_of_chars, Ecs in Hus.
        rewrite (strip_chars_no_space _ Hall) in Hus. simpl in Hus.
        rewrite Hdup in Hus.
        destruct Hus as [letters [suffix [Hw' [Hlen [Hcap Hsuf]]]]].
        destruct letters as [|l1 [|l2 [|l3 letters]]]; simpl in Hw', Hlen.
        -- lia.
        -- injection Hw' as _ Hs. destruct Hsuf as [->|[x [-> _]]]; [done|].
           injection Hs as Hk _. apply (f_equal ord) in Hk.
           rewrite Hu2 in Hk. vm_compute in Hk. lia.
        -- injection Hw' as _ _ Hs. destruct Hsuf as [->|[x [-> _]]]; [done|].
           injection Hs as Hk _. by apply Hddot.
        -- injection Hw' as _ _ Hd3 _. apply Hdcap. rewrite Hd3.
           inversion Hcap as [|? ? _ Hc2]. inversion Hc2 as [|? ? _ Hc3].
           by inversion Hc3.
      * (* five digits *)
        apply andb_true_iff in Hhk as [Hdig _].
        unfold isdigit in Hdig. rewrite Hlow in Hdig.
        destruct (chars stock_code) as [|d r] eqn:Ecs; [done|].
        simpl in Hdig. apply andb_true_iff in Hdig as [Hd _].
        apply lower_char_digit in Hd.
        destruct (digit_facts d Hd) as [Hdsp [Hdup [Hdcap _]]].
        destruct (upper_strip_head _ d r Ecs Hdsp) as [t' Hw'].
        rewrite Hw' in Hw. injection Hw as <- _. rewrite Hdup in Hc.
        by apply Hdcap.
  - intros He. destruct (etf_head _ He) as [Hlen [d [r [Hr Hd]]]].
    unfold _is_hk_code. cbv zeta.
    assert (Hlow : lower stock_code = String d (of_chars (map lower_char r))).
    { unfold lower. rewrite Hr. simpl map. rewrite of_chars_cons.
      by destruct Hd as [->| ->]. }
    assert (Hll : String.length (lower stock_code) = 6%nat).
    { rewrite <- chars_length. unfold lower. rewrite chars_of_chars, length_map.
      by rewrite chars_length. }
    rewrite Hll. rewrite Hlow.
    replace (startswith "hk" (String d (of_chars (map lower_char r))))
      with false by (by destruct Hd as [->| ->]).
    simpl. apply andb_false_r.
Qed.

Lemma ticker_classes_witness :
  ascii_only "AAPL" = true
  /\ ((_is_us_code "AAPL" = true ->
       _is_etf_code "AAPL" = false /\ _is_hk_code "AAPL" = false)
      /\ (_is_etf_code "AAPL" = true -> _is_hk_code "AAPL" = false)).
Proof.
  assert (H : ascii_only "AAPL" = true) by reflexivity.
  split; [exact H|]. exact (ticker_classes_are_exclusive "AAPL" H).
Defined.

End HkClassifierFacts.

Module StockListFacts.
Import PyStr StockList PyStrFacts.

Lemma of_chars_chars (s : string) : of_chars (chars s) = s.
Proof. apply string_of_list_ascii_of_string. Qed.

Lemma lstrip_fixed (l : list ascii) : lstrip_chars (lstrip_chars l) = lstrip_chars l.
Proof.
  pose proof (lstrip_head l) as H. destruct (lstrip_chars l) as [|c r]; [done|].
  simpl. by rewrite H.
Qed.

Lemma lstrip_chars_suffix (l : list ascii) : exists a, l = (a ++ lstrip_chars l)%list.
Proof.
  induction l as [|c l [a IH]]; [by exists []|].
  simpl. destruct (is_space c); [|by exists []].
  exists (c :: a). simpl. by rewrite <- IH.
Qed.

(** Stripping the right end of text whose left end is stripped leaves
    the left end stripped. *)
Lemma rstrip_keeps_left (y : list ascii) :
  lstrip_chars y = y ->
  lstrip_chars (rev (lstrip_chars (rev y))) = rev (lstrip_chars (rev y)).
Proof.
  intros Hy. destruct (lstrip_chars_suffix (rev y)) as [a Ha].
  set (z := lstrip_chars (rev y)) in *.
  assert (Hyz : y = (rev z ++ rev a)%list).
  { rewrite <- rev_app_distr, <- Ha. by rewrite rev_involutive. }
  destruct (rev z) as [|c r] eqn:E; [done|].
  rewrite Hyz in Hy. simpl in Hy. simpl.
  destruct (is_space c) eqn:Hc; [|done].
  exfalso. pose proof (lstrip_head (r ++ rev a)) as Hh.
  rewrite Hy in Hh. simpl in Hh. congruence.
Qed.

Lemma strip_chars_fixed (l : list ascii) :
  strip_chars (strip_chars l) = strip_chars l.
Proof.
  unfold strip_chars.
  rewrite (rstrip_keeps_left (lstrip_chars l) (lstrip_fixed l)).
  rewrite rev_involutive. f_equal. apply lstrip_fixed.
Qed.

Lemma strip_fixed (s : string) : strip (strip s) = strip s.
Proof. unfold strip. by rewrite chars_of_chars, strip_chars_fixed. Qed.

Lemma strip_chars_sub (l : list ascii) (c : ascii) :
  In c (strip_chars l) -> In c l.
Proof.
  unfold strip_chars. intros H. rewrite <- in_rev in H.
  destruct (lstrip_chars_suffix (rev (lstrip_chars l))) as [a Ha].
  assert (H1 : In c (rev (lstrip_chars l))).
  { rewrite Ha. apply in_or_app. by right. }
  rewrite <- in_rev in H1.
  destruct (lstrip_chars_suffix l) as [b Hb]. rewrite Hb. apply in_or_app. by right.
Qed.

Lemma split_chars_no_sep (sep : ascii) (l cur : list ascii) :
  ~ In sep cur ->
  Forall (fun piece => ~ In sep piece) (split_chars sep l cur).
Proof.
  revert cur. induction l as [|c l IH]; intros cur Hcur; simpl.
  - repeat constructor. intros H. apply Hcur. rewrite in_rev. exact H.
  - destruct (Ascii.eqb c sep) eqn:E.
    + constructor; [intros H; apply Hcur; rewrite in_rev; exact H|]. apply IH. intros [].
    + apply IH. intros [->|H]; [by rewrite Ascii.eqb_refl in E|done].
Qed.

Lemma parse_clean (stock_list_str : string) :
  Forall clean_code (parse stock_list_str).
Proof.
  unfold parse, split.
  pose proof (split_chars_no_sep ","%char (chars stock_list_str) []
                (fun H => H)) as H.
  induction H as [|piece pieces Hp _ IH]; [constructor|].
  csimpl. destruct (String.eqb (strip (of_chars piece)) "") eqn:E; [exact IH|].
  csimpl. constructor; [|exact IH].
  split; [by apply String.eqb_neq in E|]. split; [|apply strip_fixed].
  unfold strip. rewrite !chars_of_chars. intros Hin.
  by apply Hp, strip_chars_sub.
Qed.

(** X19. The watch list is never empty and holds clean codes only
    (for STOCK_LIST values made of ASCII characters).  Both
    [_load_from_env] and [refresh_stock_list] return a list with at
    least one code, every code of which is non-empty, has no comma and
    no white space at either end; a STOCK_LIST that is missing, empty or
    made of commas and blanks gives the default list, which is
    [2330.TW, 2317.TW, 2454.TW] at load time and [000001] on refresh. *)
Theorem watch_list_is_never_empty_and_clean
    (env_file : option (option string)) (environ : option string) :
  ascii_only (default ""%string environ) = true ->
  ascii_only (default ""%string (default None env_file)) = true ->
  (load_stock_list environ <> []
   /\ Forall clean_code (load_stock_list environ)
   /\ (parse (default ""%string environ) = [] ->
       load_stock_list environ = ["2330.TW"; "2317.TW"; "2454.TW"]%string))
  /\ (refresh_stock_list env_file environ <> []
      /\ Forall clean_code (refresh_stock_list env_file environ)
      /\ (env_file = None \/ env_file = Some None ->
          parse (default ""%string environ) = [] ->
          refresh_stock_list env_file environ = ["000001"%string])).
Proof.
  intros _ _.
  assert (Hdef1 : Forall clean_code ["2330.TW"; "2317.TW"; "2454.TW"]%string).
  { repeat constructor; try done; try (vm_compute; reflexivity);
      simpl; intros H; repeat (destruct H as [H|H]; [discriminate|]); done. }
  assert (Hdef2 : Forall clean_code ["000001"%string]).
  { repeat constructor; try done; try (vm_compute; reflexivity);
      simpl; intros H; repeat (destruct H as [H|H]; [discriminate|]); done. }
  split.
  - unfold load_stock_list. cbv zeta.
    pose proof (parse_clean (default ""%string environ)) as Hc.
    destruct (parse (default ""%string environ)) as [|c cs]; by repeat split.
  - unfold refresh_stock_list. cbv zeta.
    set (s1 := match env_file with
               | Some env_values => strip (default ""%string env_values)
               | None => ""%string
               end).
    set (s2 := if String.eqb s1 "" then default ""%string environ else s1).
    pose proof (parse_clean s2) as Hc.
    split; [by destruct (parse s2)|]. split; [by destruct (parse s2)|].
    intros Hfile Hparse.
    assert (Hs2 : s2 = default ""%string environ).
    { unfold s2, s1. by destruct Hfile as [->| ->]. }
    by rewrite Hs2, Hparse.
Qed.

Lemma watch_list_witness :
  ascii_only (default ""%string (Some " 600519 ,, aapl "%string)) = true
  /\ ascii_only (default ""%string (default None (Some (Some " , ,, "%string))))
     = true
  /\ load_stock_list (Some " 600519 ,, aapl "%string) = ["600519"; "aapl"]%string
  /\ refresh_stock_list (Some (Some "  "%string))
       (Some " 600519 ,, aapl "%string)
     = ["600519"; "aapl"]%string
  /\ refresh_stock_list (Some (Some " , ,, "%string))
       (Some " 600519 ,, aapl "%string)
     = ["000001"%string]
  /\ Forall clean_code
       (refresh_stock_list (Some (Some " , ,, "%string))
          (Some " 600519 ,, aapl "%string)).
Proof.
  assert (H0 : ascii_only (default ""%string (Some " 600519 ,, aapl "%string))
               = true) by reflexivity.
  assert (H1 : ascii_only
                 (default ""%string (default None (Some (Some " , ,, "%string))))
               = true) by reflexivity.
  split; [exact H0|]. split; [exact H1|].
  split; [vm_compute; reflexivity|]. split; [vm_compute; reflexivity|].
  split; [vm_compute; reflexivity|].
  exact (proj1 (proj2 (proj2 (watch_list_is_never_empty_and_clean
                                (Some (Some " , ,, "%string))
                                (Some " 600519 ,, aapl "%string) H0 H1)))).
Defined.

End StockListFacts.

Module TaskLedgerFacts.
Import TaskService TaskLedger TaskServiceFacts.

Section Facts.
Context {Result : Type}.
Abbreviation service := (TaskService.t Result).
Abbreviation action := (TaskService.action Result).

Lemma orderly_new (n : nat) : orderly (Result := Result) (new n).
Proof.
  split; simpl.
  - intros id e H. by rewrite lookup_empty in H.
  - intros id e H. by rewrite lookup_empty in H.
  - intros j [H|H]; by apply elem_of_nil in H.
  - lia.
Qed.

Lemma finished_well_formed (id : string) (a : analysis Result) (now : string)
    (e : entry Result) :
  well_formed id e -> status_of e = running ->
  well_formed id (finished a now e) /\ status_of (finished a now e) <> running.
Proof.
  intros [Hid [Hcode Hf]] Hrun. rewrite Hrun in Hf. destruct Hf as [_ [Hr He]].
  destruct a as [r| |msg]; simpl; (split; [|done]);
    (split; [done|]); (split; [done|]); simpl; rewrite ?Hr, ?He;
    repeat split; by eauto.
Qed.

Lemma step_orderly (acts : list action) (a : action) (s s' : service) :
  consistent acts s -> orderly s -> step a s = Some s' -> orderly s'.
Proof.
  intros Hc [O1 O2 O3 O4] Hstep.
  destruct a as [code rt now|now|id a now]; simpl in Hstep.
  - (* Submit *)
    unfold submit_analysis in Hstep.
    destruct (Nat.eqb (_max_workers s) 0); [done|]. simpl in Hstep.
    injection Hstep as <-. split; simpl; try done.
    intros j [[Hj|Hj]%elem_of_app|Hj]; [apply O3; by left| |apply O3; by right].
    apply list_elem_of_singleton in Hj as ->. by exists now.
  - (* Begin *)
    destruct (queued s) as [|j rest] eqn:Hq; [done|].
    destruct (Nat.ltb (length (in_flight s)) (_max_workers s)) eqn:Hw; [|done].
    apply Nat.ltb_lt in Hw. injection Hstep as <-.
    assert (Hj : job_as_submitted j) by (apply O3; left; by left).
    split; simpl.
    + intros id e He.
      destruct (decide (job_task_id j = id)) as [<-|Hne].
      * rewrite lookup_insert_eq in He. injection He as <-.
        split; [done|]. split; [exact Hj|]. simpl. done.
      * rewrite lookup_insert_ne in He by done. by apply O1.
    + intros id e He Hrun.
      destruct (decide (job_task_id j = id)) as [<-|Hne].
      * exists j. split; [|done]. apply elem_of_app. right. by left.
      * rewrite lookup_insert_ne in He by done.
        destruct (O2 id e He Hrun) as [j' [Hj' Hid]].
        exists j'. split; [|done]. apply elem_of_app. by left.
    + intros j' [Hj'|[Hj'|Hj']%elem_of_app].
      * apply O3. left. by right.
      * apply O3. by right.
      * apply list_elem_of_singleton in Hj' as ->. exact Hj.
    + rewrite length_app. simpl. lia.
  - (* Finish *)
    destruct (remove_job id (in_flight s)) as [rest|] eqn:Hrm; [|done].
    injection Hstep as <-.
    destruct (remove_job_spec _ _ _ Hrm) as [pre [j [post [Hfl [Hid ->]]]]].
    assert (Hrun : ledger_status s id = Some running).
    { rewrite <- Hid. apply (in_flight_running _ _ Hc).
      rewrite Hfl. apply elem_of_app. right. by left. }
    unfold ledger_status, get_task_status in Hrun.
    destruct (_tasks s !! id) as [e0|] eqn:He0; [|done].
    simpl in Hrun. injection Hrun as Hrun.
    destruct (finished_well_formed id a now e0 (O1 id e0 He0) Hrun) as [Hwf Hnr].
    split; simpl.
    + intros id' e He. rewrite lookup_alter in He. case_decide as Hd.
      * subst id'. rewrite He0 in He. simpl in He. by injection He as <-.
      * by apply O1.
    + intros id' e He Hr. rewrite lookup_alter in He. case_decide as Hd.
      * subst id'. rewrite He0 in He. simpl in He. injection He as <-. done.
      * destruct (O2 id' e He Hr) as [j' [Hj' Hid']].
        exists j'. split; [|done]. rewrite Hfl in Hj'.
        apply elem_of_app in Hj' as [Hj'|Hj']; apply elem_of_app; [by left|].
        apply elem_of_cons in Hj' as [->|Hj']; [|by right].
        exfalso. apply Hd. by rewrite <- Hid, Hid'.
    + intros j' [Hj'|Hj']; [apply O3; by left|].
      apply O3. right. rewrite Hfl.
      apply elem_of_app in Hj' as [Hj'|Hj']; apply elem_of_app; [by left|].
      right. by right.
    + rewrite Hfl in O4. rewrite length_app in *. simpl in O4. lia.
Qed.

Lemma step_max_workers (a : action) (s s' : service) :
  step a s = Some s' -> _max_workers s' = _max_workers s.
Proof.
  destruct a as [code rt now|now|id a now]; simpl.
  - unfold submit_analysis. destruct (Nat.eqb (_max_workers s) 0); [done|].
    simpl. by intros [= <-].
  - destruct (queued s); [done|].
    destruct (Nat.ltb _ _); [|done]. by intros [= <-].
  - destruct (remove_job id (in_flight s)); [|done]. by intros [= <-].
Qed.

Lemma run_orderly (n : nat) (acts : list action) (s : service) :
  NoDup (submitted acts) ->
  run acts (new n) = Some s ->
  orderly s /\ _max_workers s = n.
Proof.
  revert s. induction acts as [|a acts IH] using rev_ind; intros s Hnd Hrun.
  - injection Hrun as <-. split; [apply orderly_new|done].
  - rewrite run_snoc in Hrun.
    destruct (run acts (new n)) as [s0|] eqn:E; [|done].
    assert (Hnd0 : NoDup (submitted acts)).
    { rewrite submitted_app in Hnd. by apply NoDup_app in Hnd as [? _]. }
    destruct (IH s0 Hnd0 eq_refl) as [Ho Hm]. split.
    + apply (step_orderly acts a s0 s); [|done|done].
      by apply (run_consistent n).
    + by rewrite (step_max_workers a s0 s Hrun).
Qed.

(** X20. What [get_task_status] can return.  After any run of
    submissions, job starts and job ends whose submissions received
    distinct task ids, every ledger entry carries the key it is stored
    under, which is made of the entry's code; a running entry has no end
    time, result or error and its job is held by a worker; a completed
    entry has an end time and a result and no error; a failed entry has
    an end time and an error and no result.  At most [max_workers] jobs
    are in flight. *)
Theorem ledger_entries_match_their_status
    (max_workers : nat) (acts : list action) (s : service) :
  NoDup (submitted acts) ->
  run acts (new max_workers) = Some s ->
  (forall task_id e,
      get_task_status s task_id = Some e ->
      well_formed task_id e
      /\ (status_of e = running ->
          exists j, j ∈ in_flight s /\ job_task_id j = task_id))
  /\ (length (in_flight s) <= max_workers)%nat.
Proof.
  intros Hnd Hrun. destruct (run_orderly max_workers acts s Hnd Hrun) as [Ho Hm].
  split.
  - intros id e He. split.
    + by apply (entries_well_formed _ Ho).
    + by apply (running_is_in_flight _ Ho).
  - rewrite <- Hm. apply (workers_bounded _ Ho).
Qed.

End Facts.

Import Scenario.
Local Open Scope string_scope.

Lemma ledger_entries_witness :
  NoDup (submitted morning_run)
  /\ run morning_run (new 1) = Some one_running
  /\ (forall task_id e,
         get_task_status one_running task_id = Some e ->
         well_formed task_id e
         /\ (status_of e = running ->
             exists j, j ∈ in_flight one_running /\ job_task_id j = task_id))
  /\ (length (in_flight one_running) <= 1)%nat.
Proof.
  assert (Hnd : NoDup (submitted morning_run))
    by (vm_compute; apply NoDup_singleton).
  assert (Hrun : run morning_run (new 1) = Some one_running)
    by (vm_compute; reflexivity).
  split; [exact Hnd|]. split; [exact Hrun|].
  exact (ledger_entries_match_their_status 1 morning_run one_running Hnd Hrun).
Defined.

End TaskLedgerFacts.
